(** * Rofunc: task-parameterised GMM pipeline and LQT with control primitives

    A shallow embedding of
      - [rofunc/lfd/tpgmm/tpgmm.py]   (get_dx, get_A_b, get_related_matrix,
                                       poe, generate), and
      - [rofunc/planning/lqt/lqt_cp.py] (define_control_primitive,
                                       set_dynamical_system, get_u_x, uni_cp).

    Conventions of the embedding.
      - numpy floats are the elements of an arbitrary field [F]; every
        statement that needs an arithmetic law is a statement about exact
        arithmetic.  Storing a float into a [float32] array rounds it to
        single precision: the function [to_float32] on [F].
      - a 1-D array is a [list F], a 2-D array the list of its rows, arrays
        of higher rank are nested lists; an (n,1) column array is identified
        with the 1-D array of its entries.
      - Python exceptions are the [Err] results of the [result] monad.
        The differences of points in [get_dx] and the stacking in [get_A_b]
        check the shapes of their operands as numpy does.  The matrix
        arithmetic ([@], [.T], [+], [-] and [einsum] on matrices) is a total
        function on lists: numpy raises on operands whose shapes do not
        conform, and the theorems are stated for arrays whose shapes do.
      - an array without rows is the empty list, whatever its number of
        columns: the product with an array of shape (0, c), c > 0, has no
        counterpart on lists, and the theorems about [get_u_x] are stated
        for arrays that have rows.
      - a Python [dict] with string keys is a [gmap string value]. *)

From Stdlib Require Import ZArith QArith Qcanon Ring Field Lia.
From stdpp Require Import base option list gmap strings.

(** ** Exceptions *)

Inductive exn := KeyError | IndexError | ValueError | TypeError | LinAlgError.

Inductive result (A : Type) := Ok (a : A) | Err (e : exn).
Arguments Ok {A} a.
Arguments Err {A} e.

#[global] Instance result_ret : MRet result := @Ok.
#[global] Instance result_bind : MBind result :=
  λ A B f r, match r with Ok a => f a | Err e => Err e end.

Definition is_Ok {A} (r : result A) : Prop := ∃ a, r = Ok a.

(** [l[i]] for a Python sequence: a negative index counts from the end. *)
Definition py_index {A} (l : list A) (i : Z) : result A :=
  let n := Z.of_nat (length l) in
  let k := if (i <? 0)%Z then (n + i)%Z else i in
  if (k <? 0)%Z then Err IndexError
  else match l !! Z.to_nat k with
       | Some a => Ok a
       | None => Err IndexError
       end.

(** ** Scalars, vectors and matrices *)

(** The arithmetic of the array elements. *)
Class Scalar (F : Type) := {
  F0 : F; F1 : F;
  Fadd : F → F → F; Fmul : F → F → F; Fsub : F → F → F; Fopp : F → F;
  Fdiv : F → F → F; Finv : F → F
}.

(** [np.linalg.inv]: it returns a matrix or raises [LinAlgError].  numpy
    decides between the two by the pivots of a factorisation in floating
    point: it raises on a matrix with a column of zeros, and rounding can
    let it return on other matrices that have no inverse. *)
Class LinalgInv (F : Type) := linalg_inv : list (list F) → result (list (list F)).

(** The comparison of two floats and the logarithm, used by the decoder. *)
Class ScalarFun (F : Type) := { Fltb : F → F → bool; Flog : F → F }.

Section Numeric.

Context {F : Type} `{!Scalar F, !LinalgInv F, !ScalarFun F}.

Abbreviation vector := (list F).
Abbreviation matrix := (list (list F)).

Definition Fnat (n : nat) : F := Nat.iter n (Fadd F1) F0.

(** The literals [2] and [0.01] of the source. *)
Definition two : F := Fnat 2.
Definition c0_01 : F := Fdiv F1 (Fnat 100).

Definition zeros (n : nat) : vector := replicate n F0.
Definition vadd (u v : vector) : vector := zip_with Fadd u v.
Definition vsub (u v : vector) : vector := zip_with Fsub u v.
Definition vscale (c : F) (v : vector) : vector := Fmul c <$> v.
(** [v / c] *)
Definition vdivs (v : vector) (c : F) : vector := (λ a, Fdiv a c) <$> v.

(** [x] is a 2-D array: its rows have one length. *)
Definition rectangular (x : list vector) : Prop :=
  ∃ D, Forall (λ p, length p = D) x.

(** [a - b] for two 1-D arrays: the lengths agree, or one of them is one and
    that array is broadcast; numpy raises otherwise. *)
Definition np_sub (a b : vector) : result vector :=
  if decide (length a = length b) then Ok (vsub a b)
  else match a, b with
       | _, [y] => Ok ((λ x, Fsub x y) <$> a)
       | [x], _ => Ok (Fsub x <$> b)
       | _, _ => Err ValueError
       end.

(** [np.vstack([a, b])] for two 1-D arrays, which must have one length. *)
Definition np_vstack (a b : vector) : result (list vector) :=
  if decide (length a = length b) then Ok [a; b] else Err ValueError.

(** ** tpgmm.py: [get_dx] *)

(** The body of the inner loop: the derivative at timestep [j] of the
    demonstration [x]. *)
Definition get_dx_at (x : list vector) (j : Z) : result vector :=
  let n := Z.of_nat (length x) in
  dx ← (if (0 <? j)%Z && (j <? n - 1)%Z then
          a ← py_index x (j + 1); b ← py_index x (j - 1);
          d ← np_sub a b;
          mret (vdivs d two)
        else if (j =? n - 1)%Z then
          a ← py_index x j; b ← py_index x (j - 1);
          np_sub a b
        else
          a ← py_index x (j + 1); b ← py_index x j;
          np_sub a b);
  mret (vdivs dx c0_01).

Definition get_dx (demos_x : list (list vector)) : result (list (list vector)) :=
  mapM (λ x, mapM (get_dx_at x) (seqZ 0 (Z.of_nat (length x)))) demos_x.


(** ** numpy on nested lists *)

Definition dot (u v : vector) : F := foldr Fadd F0 (zip_with Fmul u v).

(** [M @ v] for a 1-D (or column) array [v] *)
Definition matvec (M : matrix) (v : vector) : vector := (λ r, dot r v) <$> M.

(** [M.shape[1]] *)
Definition ncols (M : matrix) : nat :=
  match M with [] => 0 | r :: _ => length r end.

(** [x @ M] for a 1-D array [x]: the combination of the rows of [M] with
    the coefficients [x]. *)
Definition vecmat (x : vector) (M : matrix) : vector :=
  foldr vadd (zeros (ncols M)) (zip_with vscale x M).

(** [A @ B] *)
Definition matmul (A B : matrix) : matrix := (λ a, vecmat a B) <$> A.

(** [M.T] *)
Definition transpose (M : matrix) : matrix :=
  (λ k, (λ r : vector, default F0 (r !! k)) <$> M) <$> seq 0 (ncols M).

(** [A + B] *)
Definition madd (A B : matrix) : matrix := zip_with vadd A B.

(** [A * c] for a scalar [c] *)
Definition mscale (A : matrix) (c : F) : matrix :=
  (λ r : vector, (λ a, Fmul a c) <$> r) <$> A.

(** [np.eye(n)], [np.identity(n)] *)
Fixpoint eye (n : nat) : matrix :=
  match n with
  | 0 => []
  | S n => (F1 :: zeros n) :: ((F0 ::.) <$> eye n)
  end.

(** [np.zeros((r, c))] and [np.ones((r, c))] *)
Definition zeros_mat (r c : nat) : matrix := replicate r (zeros c).
Definition ones_mat (r c : nat) : matrix := replicate r (replicate c F1).

(** [np.kron(A, B)] for 2-D arrays:
    [kron(A, B)[i*p + j][k*q + l] = A[i][k] * B[j][l]] for [B] of shape
    [(p, q)]. *)
Definition kron (A B : matrix) : matrix :=
  A ≫= (λ arow : vector, (λ brow, arow ≫= (λ a, vscale a brow)) <$> B).

(** [np.kron(E, d)] for a 2-D [E] and a 4-D [d]: numpy prepends two axes of
    length one to [E], so the product is taken on the two trailing axes of
    every [d[t][p]]. *)
Definition kron4 (E : matrix) (d : list (list matrix)) : list (list matrix) :=
  (λ dt : list matrix, kron E <$> dt) <$> d.

(** [np.hstack([A, B])] for 2-D arrays *)
Definition hstack (A B : matrix) : matrix := zip_with app A B.

(** [l[lo:hi]] for [0 ≤ lo] and [0 ≤ hi] *)
Definition slice {A} (lo hi : nat) (l : list A) : list A :=
  take (hi - lo) (drop lo l).

(** [l[:k]] for any integer [k] *)
Definition py_take {A} (k : Z) (l : list A) : list A :=
  if (k <? 0)%Z then take (length l - Z.to_nat (- k)) l else take (Z.to_nat k) l.

(** [v.reshape((-1, n))] for a 1-D or column array [v]: the rows are the
    consecutive blocks of [n] entries. *)
Definition reshape_rows (n : nat) (v : vector) : result (list vector) :=
  if decide (n = 0 ∨ length v `mod` n ≠ 0) then Err ValueError
  else Ok ((λ i, take n (drop (i * n) v)) <$> seq 0 (length v `div` n)).

(** The right-hand side of a slice assignment is broadcast along an axis to
    the length [n] of the region: an axis of length one is repeated, any
    other length must be [n]. *)
Definition broadcast_to {A} (n : nat) (l : list A) : result (list A) :=
  if decide (length l = n) then Ok l
  else match l with [a] => Ok (replicate n a) | _ => Err ValueError end.

(** [M[r0:r1, c0:c1] = blk] for a 2-D [blk]: the bounds of a slice are
    clipped to the shape of [M], and [blk] is broadcast to the region. *)
Definition assign_block (M : matrix) (r0 r1 c0 c1 : nat) (blk : matrix)
  : result matrix :=
  let r1 := r1 `min` length M in
  let c1 := c1 `min` ncols M in
  rows ← mapM (broadcast_to (c1 - c0)) blk;
  rows ← broadcast_to (r1 - r0) rows;
  mret (take r0 M
        ++ zip_with (λ row b, take c0 row ++ b ++ drop c1 row)
                    (slice r0 r1 M) rows
        ++ drop r1 M).

(** [M.shape == (r, c)] *)
Definition has_shape (r c : nat) (M : matrix) : Prop :=
  length M = r ∧ Forall (λ row, length row = c) M.

(** [N] is the inverse of the square matrix [M]. *)
Definition is_inverse (M N : matrix) : Prop :=
  ∃ n, has_shape n n M ∧ has_shape n n N
       ∧ matmul M N = eye n ∧ matmul N M = eye n.

(** A loop that threads a state through its iterations. *)
Fixpoint foldM {A S} (f : S → A → result S) (s : S) (l : list A) : result S :=
  match l with
  | [] => Ok s
  | a :: l => s' ← f s a; foldM f s' l
  end.

(** ** tpgmm.py: [get_A_b] *)

(** The linear part of both frames, [[[1., 0.], [-0., -1.]]]. *)
Definition frame_A : matrix := [[F1; F0]; [Fopp F0; Fopp F1]].

(** The number P of task frames: one at the start pose and one at the end
    pose of the demonstration. *)
Definition nb_frames : nat := 2.

Definition get_A_b (demos_x : list (list vector))
  : result (list (list (list matrix)) * list (list (list vector))
            * list (list (list matrix)) * list (list (list vector))) :=
  Ab ← mapM (λ x,
        x_first ← py_index x 0; x_last ← py_index x (-1);
        b ← np_vstack x_first x_last;
        mret (replicate (length x) [frame_A; frame_A],
              replicate (length x) b)) demos_x;
  let demos_A := fst <$> Ab in
  let demos_b := snd <$> Ab in
  demos_A_xdx ← mapM (λ d,
        x ← py_index demos_x 0; p ← py_index x 0;
        mret (kron4 (eye (length p)) d)) demos_A;
  let demos_b_xdx :=
    (λ d : list (list vector),
       (λ dt : list vector, (λ r, r ++ zeros (length r)) <$> dt) <$> d)
    <$> demos_b in
  mret (demos_A, demos_b, demos_A_xdx, demos_b_xdx).

(** ** tpgmm.py: [get_related_matrix] *)

(** [np.einsum('taji,taj->tai', _A, _x[:, None] - _b)]: at every timestep
    [t] and frame [a] the vector [_x[t] - _b[t][a]] is multiplied from the
    left onto [_A[t][a]]. *)
Definition to_frames (_x : list vector) (_A : list (list matrix))
    (_b : list (list vector)) : list (list vector) :=
  zip_with (λ At vt, zip_with (λ Aa va, vecmat va Aa) At vt) _A
    (zip_with (λ xt (bt : list vector), (λ ba, vsub xt ba) <$> bt) _x _b).

Definition get_related_matrix (demos_x : list (list vector))
  : result (list (list vector) * list (list (list matrix))
            * list (list (list vector)) * list (list (list vector))
            * list (list vector)) :=
  demos_dx ← get_dx demos_x;
  let demos_xdx := zip_with hstack demos_x demos_dx in
  '(demos_A, demos_b, demos_A_xdx, demos_b_xdx) ← get_A_b demos_x;
  let demos_xdx_f :=
    zip_with (λ _x Ab, to_frames _x Ab.1 Ab.2) demos_xdx
      (zip demos_A_xdx demos_b_xdx) in
  demos_xdx_augm ← mapM (λ d,
        xdx ← py_index demos_xdx 0; p ← py_index xdx 0;
        reshape_rows (length p * 2) (concat (concat d))) demos_xdx_f;
  mret (demos_xdx, demos_A_xdx, demos_b_xdx, demos_xdx_f, demos_xdx_augm).


(** ** The mixture-model library used by tpgmm.py

    [pbdlib] is not part of the sources.  Its operations are modelled from
    the specification of the repository. *)

(** Modelled from the spec: the Mixture Model, K components each holding a
    mean vector and a covariance matrix ([pbdlib.GMM]). *)
Record gmm := GMM {
  priors : vector;
  mu : list vector;
  sigma : list matrix
}.

(** Modelled from the spec: the sequential Mixture Model, a mixture with an
    initial-state distribution and a state-transition structure
    ([pbdlib.HMM]). *)
Record hmm := HMM {
  states : gmm;
  init_priors : vector;
  Trans : matrix
}.

(** Modelled from the spec: [GMM.marginal_model(slice(lo, hi))], the mixture
    restricted by index slicing to one block of dimensions. *)
Definition marginal_model (lo hi : nat) (g : gmm) : gmm :=
  {| priors := priors g;
     mu := slice lo hi <$> mu g;
     sigma := (λ S : matrix, slice lo hi <$> slice lo hi S) <$> sigma g |}.

(** Modelled from the spec: [GMM.lintrans(A, b)], the affine map of a
    mixture, mean' = A·mean + b and covariance' = A·covariance·Aᵀ. *)
Definition lintrans (A : matrix) (b : vector) (g : gmm) : gmm :=
  {| priors := priors g;
     mu := (λ m, vadd (matvec A m) b) <$> mu g;
     sigma := (λ S, matmul (matmul A S) (transpose A)) <$> sigma g |}.

(** Modelled from the spec: the product of two Gaussians by the Gaussian
    product identity, precision_fused = Σ_p precision_p and
    mean_fused = precision_fused⁻¹ · Σ_p (precision_p · mean_p). *)
Definition gaussian_product (c1 c2 : vector * matrix) : result (vector * matrix) :=
  lmbda1 ← linalg_inv c1.2;
  lmbda2 ← linalg_inv c2.2;
  sigma_f ← linalg_inv (madd lmbda1 lmbda2);
  mret (matvec sigma_f (vadd (matvec lmbda1 c1.1) (matvec lmbda2 c2.1)), sigma_f).

(** Modelled from the spec: [GMM.__mul__], the product of two mixtures
    component by component. *)
Definition gmm_mul (g1 g2 : gmm) : result gmm :=
  comps ← mapM (λ cc : (vector * matrix) * (vector * matrix),
                  gaussian_product cc.1 cc.2)
               (zip (zip (mu g1) (sigma g1)) (zip (mu g2) (sigma g2)));
  mret {| priors := priors g1; mu := fst <$> comps; sigma := snd <$> comps |}.

(** ** tpgmm.py: [poe]

    The embedding follows the call with [plot=False]; the plotting branch
    only draws, and it is the only reader of [demos_x]. *)

(** [demos[demo_idx][0]]: the entry of the first timestep of one
    demonstration. *)
Definition first_timestep {X} (demos : list (list X)) (demo_idx : Z) : result X :=
  demo ← py_index demos demo_idx; py_index demo 0.

(** [model.marginal_model(slice(lo, hi)).lintrans(A, b)]: the marginal of
    the mixture on the block [lo:hi] of coordinates, mapped by the transform
    [(A, b)] of one frame. *)
Definition frame_model (A : matrix) (b : vector) (lo hi : nat) (g : gmm) : gmm :=
  lintrans A b (marginal_model lo hi g).

(** Modelled from the spec: one component of [frame_model], that is of
    [pbdlib]'s [marginal_model] followed by [lintrans]: the marginal of the
    Gaussian [c] on the block [lo:hi], mapped by mean' = A·mean + b and
    covariance' = A·covariance·Aᵀ. *)
Definition frame_component (A : matrix) (b : vector) (lo hi : nat)
    (c : vector * matrix) : vector * matrix :=
  (vadd (matvec A (slice lo hi c.1)) b,
   matmul (matmul A (slice lo hi <$> slice lo hi c.2)) (transpose A)).

(** The body of [poe] after the transforms [A], [b] of the first timestep
    have been read. *)
Definition poe_frames (model : hmm) (A : list matrix) (b : list vector)
  : result gmm :=
  b0 ← py_index b 0; A0 ← py_index A 0;
  let mod1 := frame_model A0 b0 0 (length b0) (states model) in
  A1 ← py_index A 1; b1 ← py_index b 1;
  let mod2 := frame_model A1 b1 (length b0) (length b0 * 2) (states model) in
  gmm_mul mod1 mod2.

Definition poe (model : hmm) (demos_A_xdx : list (list (list matrix)))
    (demos_b_xdx : list (list (list vector))) (demos_x : list (list vector))
    (demo_idx : Z) : result gmm :=
  A ← first_timestep demos_A_xdx demo_idx;
  b ← first_timestep demos_b_xdx demo_idx;
  poe_frames model A b.

(** ** The decoder and the tracker used by [generate] *)

(** Modelled from the spec: the tie-break of the decoder, which is missing
    with [pbdlib]: the first index of a maximum of [l], so that of two equal
    candidates the lower-indexed one is preferred (index 0 for an empty
    [l]). *)
Fixpoint argmax_from (best_i : nat) (best : F) (i : nat) (l : vector) : nat :=
  match l with
  | [] => best_i
  | a :: l => if Fltb best a then argmax_from i a (S i) l
              else argmax_from best_i best (S i) l
  end.

Definition argmax (l : vector) : nat :=
  match l with [] => 0 | a :: l => argmax_from 0 a 1 l end.

Definition maximum (l : vector) : F := default F0 (l !! argmax l).

(** The solver object [pbdlib.PoGLQR] with the fields that [generate]
    sets. *)
Record PoGLQR := {
  nb_dim : Z;
  dt : F;
  horizon : nat;
  mvn_xi : list vector * list matrix;
  mvn_u : Z;
  x0 : vector
}.

(** The parts of [pbdlib] that the specification leaves open. *)
Class Pbdlib := {
  (** the emission log-likelihood of one observation under every state *)
  obs_loglik : hmm → vector → vector;
  (** the property [PoGLQR.seq_xi]: the tracking solve *)
  seq_xi : PoGLQR → result (list vector)
}.

Context `{!Pbdlib}.

(** Modelled from the spec: one step of the forward recursion of the
    Viterbi decoder over log-probabilities.  For every state [i] the best
    predecessor is the first maximiser of
    [logdelta[j] + log Trans[j][i]] (ties go to the lower index); the
    result is the list of back-pointers and the new [logdelta]. *)
Definition viterbi_step (model : hmm) (logdelta : vector) (logB : vector)
  : list nat * vector :=
  let cand (i : nat) : vector :=
    zip_with (λ d (row : vector), Fadd d (Flog (default F0 (row !! i))))
             logdelta (Trans model) in
  let K := length logdelta in
  (( λ i, argmax (cand i)) <$> seq 0 K,
   zip_with (λ i b, Fadd (maximum (cand i)) b) (seq 0 K) logB).

(** Modelled from the spec: the forward pass of the decoder, missing with
    [pbdlib]: the back-pointers of every timestep after the first, and the
    final [logdelta]. *)
Fixpoint viterbi_forward (model : hmm) (logdelta : vector) (obs : list vector)
  : list (list nat) * vector :=
  match obs with
  | [] => ([], logdelta)
  | o :: obs =>
      let '(psi, logdelta') := viterbi_step model logdelta (obs_loglik model o) in
      let '(psis, final) := viterbi_forward model logdelta' obs in
      (psi :: psis, final)
  end.

(** Modelled from the spec: the back-pointer reconstruction of the decoder,
    missing with [pbdlib], from the last timestep to the first. *)
Fixpoint viterbi_backtrack (psis : list (list nat)) (q_last : nat) : list nat :=
  match psis with
  | [] => [q_last]
  | psi :: psis =>
      let path := viterbi_backtrack psis q_last in
      default 0 (psi !! default 0 (head path)) :: path
  end.

(** Modelled from the spec: [HMM.viterbi], the maximum-likelihood state
    path of one observation sequence. *)
Definition viterbi (model : hmm) (obs : list vector) : list nat :=
  match obs with
  | [] => []
  | o :: obs =>
      let logdelta0 :=
        zip_with (λ p b, Fadd (Flog p) b) (init_priors model) (obs_loglik model o) in
      let '(psis, final) := viterbi_forward model logdelta0 obs in
      viterbi_backtrack psis (argmax final)
  end.

(** Modelled from the spec: [GMM.concatenate_gaussian(sq)], the reference
    trajectory distribution: at every timestep the mean and covariance of
    the fused component indicated by the state path. *)
Definition concatenate_gaussian (prod : gmm) (sq : list nat)
  : result (list vector * list matrix) :=
  ms ← mapM (λ q, py_index (mu prod) (Z.of_nat q)) sq;
  Ss ← mapM (λ q, py_index (sigma prod) (Z.of_nat q)) sq;
  mret (ms, Ss).

(** ** tpgmm.py: [generate]

    The call with [plot=False]; [demos_x] is read by the plotting branch
    only. *)
Definition generate (model : hmm) (prod : gmm) (demos_x demos_xdx : list (list vector))
    (demos_xdx_augm : list (list vector)) (demo_idx : Z) : result (list vector) :=
  obs ← py_index demos_xdx_augm demo_idx;
  let sq := viterbi model obs in
  xdx ← py_index demos_xdx demo_idx;
  xi_ref ← concatenate_gaussian prod sq;
  x_first ← py_index xdx 0;
  let lqr := {| nb_dim := 7; dt := c0_01; horizon := length xdx;
                mvn_xi := xi_ref; mvn_u := -4; x0 := x_first |} in
  seq_xi lqr.

(** ** lqt_cp.py *)

(** The values held by the configuration dictionary [param]. *)
Inductive value := VInt (z : Z) | VFloat (x : F) | VStr (s : string).

Abbreviation config := (gmap string value).

(** [param[k]] *)
Definition get (param : config) (k : string) : result value :=
  match param !! k with Some v => Ok v | None => Err KeyError end.

Definition FofZ (z : Z) : F :=
  if (z <? 0)%Z then Fopp (Fnat (Z.to_nat (- z))) else Fnat (Z.to_nat z).

(** [param[k]] used as an integer, as a shape, and as a float. *)
Definition get_int (param : config) (k : string) : result Z :=
  v ← get param k;
  match v with VInt z => Ok z | _ => Err TypeError end.

Definition as_dim (z : Z) : result nat :=
  if (z <? 0)%Z then Err ValueError else Ok (Z.to_nat z).

Definition get_float (param : config) (k : string) : result F :=
  v ← get param k;
  match v with VInt z => Ok (FofZ z) | VFloat x => Ok x | VStr _ => Err TypeError end.

(** The basis builders of [rofunc.primitive], which are not part of the
    sources. *)
Class Primitive := {
  build_phi_rbf : Z → Z → result matrix;
  build_phi_bernstein : Z → Z → result matrix;
  build_phi_fourier : Z → Z → result matrix
}.

(** [rofunc.lqt.get_matrices], which is not part of the sources: it is given
    [param] and the via points and returns
    [(via_point, muQ, Q, R, idx_slices, tl)]. *)
Class LqtLib := get_matrices :
  config → list vector →
  result (list vector * vector * matrix * matrix * list (nat * nat) * list Z).

(** [numpy.float32(x)] read back as a float: the rounding of [x] to single
    precision that an assignment into a [float32] array performs. *)
Class Float32 := to_float32 : F → F.

Context `{!Primitive, !LqtLib, !Float32}.

(** Modelled from the spec: [rofunc.primitive.build_phi_piecewise], the
    piecewise-constant basis of [nb_fct] basis functions over [nb_data]
    timesteps: the timesteps are cut into [nb_fct] consecutive segments of
    equal width [⌈nb_data / nb_fct⌉] and basis function [c] is the indicator
    of segment [c]. *)
Definition build_phi_piecewise (nb_data nb_fct : Z) : result matrix :=
  if (nb_data <? 0)%Z || (nb_fct <=? 0)%Z then Err ValueError
  else
    let n := Z.to_nat nb_data in
    let c := Z.to_nat nb_fct in
    Ok (take n (kron (eye c) (ones_mat ((n + c - 1) `div` c) 1))).

(** The dictionary [functions] of [define_control_primitive]. *)
Definition functions (name : string) : option (Z → Z → result matrix) :=
  if decide (name = "PIECEWEISE") then Some build_phi_piecewise
  else if decide (name = "RBF") then Some build_phi_rbf
  else if decide (name = "BERNSTEIN") then Some build_phi_bernstein
  else if decide (name = "FOURIER") then Some build_phi_fourier
  else None.

(** The keys of [functions], as the source spells them. *)
Definition recognized_names : list string :=
  ["PIECEWEISE"; "RBF"; "BERNSTEIN"; "FOURIER"].

(** Modelled from the spec: the recognized values of the option [basis] of
    the configuration record, [{PIECEWISE, RBF, BERNSTEIN, FOURIER}]. *)
Definition spec_basis_names : list string :=
  ["PIECEWISE"; "RBF"; "BERNSTEIN"; "FOURIER"].

Definition define_control_primitive (param : config) : result (matrix * matrix) :=
  name ← get param "basisName";
  build ← match name with
          | VStr s => match functions s with
                      | Some f => Ok f
                      | None => Err KeyError
                      end
          | _ => Err KeyError
          end;
  nbData ← get_int param "nbData";
  nbFct ← get_int param "nbFct";
  phi ← build (nbData - 1)%Z nbFct;
  nbVarPos ← get_int param "nbVarPos" ≫= as_dim;
  mret (kron phi (eye nbVarPos), phi).

(** The state matrix [A] of [set_dynamical_system]. *)
Definition dynamics_A (param : config) : result matrix :=
  nb_var ← get_int param "nb_var" ≫= as_dim;
  let A := eye nb_var in
  nbDeriv ← get_int param "nbDeriv";
  if decide (nbDeriv = 2%Z) then
    nbVarPos ← get_int param "nbVarPos";
    n ← as_dim nbVarPos;
    dt ← get_float param "dt";
    (* A[:nbVarPos, -nbVarPos:] = np.identity(nbVarPos) * dt *)
    assign_block A 0 (length (py_take nbVarPos A))
                 (if decide (n = 0) then 0 else nb_var - n) nb_var
                 (mscale (eye n) dt)
  else mret A.

(** The input matrix [B] of [set_dynamical_system]. *)
Definition dynamics_B (param : config) : result matrix :=
  nb_var ← get_int param "nb_var" ≫= as_dim;
  nbVarPos ← get_int param "nbVarPos" ≫= as_dim;
  let B := zeros_mat nb_var nbVarPos in
  dt ← get_float param "dt";
  nbDeriv ← get_int param "nbDeriv";
  let derivatives := py_take nbDeriv [dt; Fdiv (Fmul dt dt) two] in
  foldM (λ B i,
           c ← py_index (reverse derivatives) (Z.of_nat i);
           assign_block B (i * nbVarPos) ((i + 1) * nbVarPos) 0 (ncols B)
                        (mscale (eye nbVarPos) c))
        B (seq 0 (Z.to_nat nbDeriv)).

(** One iteration of the loop that fills the transfer matrices; the state
    of the loop is [(Sx, Su, M)]. *)
Definition transfer_step (nb_var nbData : nat) (A B : matrix)
    (st : matrix * matrix * matrix) (i : nat) : result (matrix * matrix * matrix) :=
  let '(Sx, Su, M) := st in
  Sx ← assign_block Sx (i * nb_var) (nbData * nb_var) 0 (ncols Sx)
         (matmul (slice (i * nb_var) (nbData * nb_var) Sx) A);
  Su ← assign_block Su (nb_var * i) (nb_var * i + length M) 0 (ncols M) M;
  mret (Sx, Su, hstack (matmul A M) B).

(** [np.zeros((r, c))] for integers [r], [c] *)
Definition np_zeros (r c : Z) : result matrix :=
  r ← as_dim r; c ← as_dim c; mret (zeros_mat r c).

Definition set_dynamical_system (param : config) : result (matrix * matrix) :=
  A ← dynamics_A param;
  B ← dynamics_B param;
  nb_var ← get_int param "nb_var";
  nbData ← get_int param "nbData";
  nbVarPos ← get_int param "nbVarPos";
  Su ← np_zeros (nb_var * nbData) (nbVarPos * (nbData - 1));
  T ← as_dim nbData;
  let Sx := kron (ones_mat T 1) (eye (Z.to_nat nb_var)) in
  '(Sx, Su, _) ← foldM (transfer_step (Z.to_nat nb_var) T A B) (Sx, Su, B)
                    (seq 1 (T - 1));
  mret (Su, Sx).

(** [v.reshape((-1, n))] for an integer [n] read from [param] *)
Definition reshape_rowsZ (n : Z) (v : vector) : result (list vector) :=
  if (n <? 0)%Z then Err ValueError else reshape_rows (Z.to_nat n) v.

(** The matrix inverted by [get_u_x]:
    [PSI.T @ Su.T @ Q @ Su @ PSI + PSI.T @ R @ PSI]. *)
Definition normal_matrix (PSI Su Q R : matrix) : matrix :=
  madd (matmul (matmul (matmul (matmul (transpose PSI) (transpose Su)) Q) Su) PSI)
       (matmul (matmul (transpose PSI) R) PSI).

Definition get_u_x (param : config) (start_pose muQ : vector)
    (Q R Su Sx PSI : matrix) : result (list vector * list vector) :=
  nb_var ← get_int param "nb_var";
  (* start_pose.reshape((nb_var, 1)) *)
  x0 ← (if decide (Z.of_nat (length start_pose) = nb_var ∨ nb_var = (-1)%Z)
        then Ok start_pose else Err ValueError);
  normal_inv ← linalg_inv (normal_matrix PSI Su Q R);
  let w_hat :=
    matvec (matmul (matmul (matmul normal_inv (transpose PSI)) (transpose Su)) Q)
           (vsub muQ (matvec Sx x0)) in
  let u_hat := matvec PSI w_hat in
  x_hat ← reshape_rowsZ nb_var (vadd (matvec Sx x0) (matvec Su u_hat));
  nbVarPos ← get_int param "nbVarPos";
  u_hat ← reshape_rowsZ nbVarPos u_hat;
  mret (u_hat, x_hat).

(** *** [uni_cp]

    [param] is the caller's dictionary: an assignment to one of its keys is
    visible to the caller, also when the call later raises.  A computation
    is a function from the dictionary before to the dictionary after and a
    result.  The [print] at the start and the call of
    [rf.lqt.plot_3d_uni], which is not given [param], only write to the
    screen. *)
Definition PyM (A : Type) : Type := config → config * result A.

Definition run_ret {A} (a : A) : PyM A := λ param, (param, Ok a).
Definition run_bind {A B} (m : PyM A) (f : A → PyM B) : PyM B :=
  λ param, let '(param', r) := m param in
           match r with Ok a => f a param' | Err e => (param', Err e) end.
(** a computation that only reads [param] *)
Definition reads {A} (f : config → result A) : PyM A := λ param, (param, f param).
(** [param[k] = v] *)
Definition setitem (k : string) (v : value) : PyM unit :=
  λ param, (<[k := v]> param, Ok ()).

Definition uni_cp (data : matrix)
  : PyM (list vector * list vector * vector * list (nat * nat)) :=
  run_bind (reads (λ param, get_int param "nbVarPos")) (λ nbVarPos,
  let data := py_take nbVarPos <$> data in
  run_bind (reads (λ param, get_int param "nb_var" ≫= as_dim)) (λ nb_var,
  (* np.zeros((nb_var,), dtype=np.float32) *)
  let start_pose := zeros nb_var in
  run_bind (reads (λ param, get_int param "nbVarPos")) (λ nbVarPos,
  run_bind (reads (λ _,
    d0 ← py_index data 0;
    (* start_pose[:nbVarPos] = data[0], stored in single precision *)
    let k := length (py_take nbVarPos start_pose) in
    d0 ← broadcast_to k d0;
    mret ((to_float32 <$> d0) ++ drop k start_pose))) (λ start_pose,
  let via_point_pose := drop 1 data in
  run_bind (setitem "nbPoints" (VInt (Z.of_nat (length via_point_pose)))) (λ _,
  run_bind (reads (λ param, get_matrices param via_point_pose))
    (λ '(via_point, muQ, Q, R, idx_slices, tl),
  run_bind (reads define_control_primitive) (λ '(PSI, phi),
  run_bind (reads set_dynamical_system) (λ '(Su, Sx),
  run_bind (reads (λ param, get_u_x param start_pose muQ Q R Su Sx PSI))
    (λ '(u_hat, x_hat),
  run_ret (u_hat, x_hat, muQ, idx_slices)))))))))).

(** The entries of [param] read by the solver: a horizon of at least one
    step, positive dimensions, at most two derivative orders and a state
    that holds them. *)
Definition lqt_config (param : config) (nbData nb_var nbVarPos nbDeriv : nat)
    (dt : F) : Prop :=
  param !! "nbData" = Some (VInt (Z.of_nat nbData))
  ∧ param !! "nb_var" = Some (VInt (Z.of_nat nb_var))
  ∧ param !! "nbVarPos" = Some (VInt (Z.of_nat nbVarPos))
  ∧ param !! "nbDeriv" = Some (VInt (Z.of_nat nbDeriv))
  ∧ get_float param "dt" = Ok dt
  ∧ 1 ≤ nbData ∧ 1 ≤ nb_var ∧ 1 ≤ nbVarPos
  ∧ nbDeriv ≤ 2 ∧ nbDeriv * nbVarPos ≤ nb_var.

(** *** The blocks of the transfer matrices

    [Sx] is the stack of the powers of [A], and block row [r] of [Su] is
    [[A^(r-1)·B, …, A·B, B]] followed by zeros. *)
Definition state_block (A : matrix) (n r : nat) : matrix :=
  Nat.iter r (λ X, matmul X A) (eye n).

Definition input_block (A B : matrix) (r : nat) : matrix :=
  Nat.iter r (λ M, hstack (matmul A M) B) B.

Definition Su_block (A B : matrix) (n w r : nat) : matrix :=
  match r with
  | 0 => zeros_mat n w
  | S r' => (λ row : vector, row ++ zeros (w - length row)) <$> input_block A B r'
  end.

(** The transfer matrices after iteration [k] of the loop. *)
Definition Sx_upto (A : matrix) (n T k : nat) : matrix :=
  concat (state_block A n <$> seq 0 (S k))
  ++ concat (replicate (T - 1 - k) (state_block A n k)).

Definition Su_upto (A B : matrix) (n w T k : nat) : matrix :=
  concat (Su_block A B n w <$> seq 0 (S k)) ++ zeros_mat ((T - 1 - k) * n) w.

End Numeric.

Arguments zeros : simpl never.
Arguments vadd : simpl never.
Arguments vsub : simpl never.
Arguments vscale : simpl never.
Arguments vdivs : simpl never.
Arguments dot : simpl never.
Arguments matvec : simpl never.
Arguments vecmat : simpl never.
Arguments matmul : simpl never.

(** ** Exact rational arithmetic

    The rationals in canonical form are an instance of the scalars; they
    are used to run the embedding on concrete inputs. *)

#[global] Instance Qc_scalar : Scalar Qc := {|
  F0 := 0%Qc; F1 := 1%Qc;
  Fadd := Qcplus; Fmul := Qcmult; Fsub := Qcminus; Fopp := Qcopp;
  Fdiv := Qcdiv; Finv := Qcinv
|}.

Definition Qc_eqb (x y : Qc) : bool := Qeq_bool x y.

Definition Qc_mat_eqb (A B : list (list Qc)) : bool :=
  (length A =? length B)
  && forallb (λ ab : list Qc * list Qc,
                (length ab.1 =? length ab.2)
                && forallb (λ xy : Qc * Qc, Qc_eqb xy.1 xy.2) (zip ab.1 ab.2))
             (zip A B).

(** One column of Gauss-Jordan elimination on the rows [M]: a row at or
    below [k] with a non-zero entry in column [k] is moved to position [k],
    scaled to a leading one and subtracted from the other rows. *)
Definition Qc_gauss_jordan_step (M : list (list Qc)) (k : nat)
  : option (list (list Qc)) :=
  '(p, prow) ← list_find (λ r : list Qc, Qc_eqb (default 0%Qc (r !! k)) 0%Qc = false)
                         (drop k M);
  let pivot := default 0%Qc (prow !! k) in
  let krow := (λ a, a / pivot)%Qc <$> prow in
  let M := <[k + p := default [] (M !! k)]> M in
  Some (imap (λ i (r : list Qc),
                if decide (i = k) then krow
                else zip_with (λ a b, a - default 0%Qc (r !! k) * b)%Qc r krow) M).

Definition Qc_gauss_jordan (M : list (list Qc)) : option (list (list Qc)) :=
  let n := length M in
  aug ← foldl (λ acc k, acc ≫= λ M, Qc_gauss_jordan_step M k)
              (Some (zip_with app M (eye n))) (seq 0 n);
  Some (drop n <$> aug).

(** The inverse of a rational matrix, for the examples in exact arithmetic:
    the candidate of the elimination is returned when it is a two-sided
    inverse of the right shape, and [LinAlgError] is raised on every matrix
    without inverse.  numpy agrees on a matrix with a column of zeros, where
    its pivot is exactly zero. *)
#[global] Instance Qc_linalg_inv : LinalgInv Qc := λ M,
  let n := length M in
  match Qc_gauss_jordan M with
  | Some N =>
      if forallb (λ r : list Qc, length r =? n) M
         && (length N =? n) && forallb (λ r : list Qc, length r =? n) N
         && Qc_mat_eqb (matmul M N) (eye n)
         && Qc_mat_eqb (matmul N M) (eye n)
      then Ok N else Err LinAlgError
  | None => Err LinAlgError
  end.

#[global] Instance Qc_scalar_fun : ScalarFun Qc := {|
  Fltb := λ x y : Qc, negb (Qle_bool y x);
  (* the logarithm has no rational values; the instance uses its tangent
     at 1 *)
  Flog := λ x : Qc, (x - 1)%Qc
|}.

(** The log-likelihood of an observation under unit-covariance states (up
    to an additive constant), and a tracker that follows the reference
    means. *)
#[global] Instance Qc_pbdlib : Pbdlib (F:=Qc) := {|
  obs_loglik := λ model o,
    (λ m : list Qc, (- dot (vsub o m) (vsub o m) / Q2Qc 2)%Qc) <$> mu (states model);
  seq_xi := λ lqr, Ok (mvn_xi lqr).1
|}.

(** [np.linspace(0, 1, n)] *)
Definition Qc_linspace (n : nat) : list Qc :=
  (λ j, if decide (n ≤ 1) then 0%Qc
        else (Q2Qc (Z.of_nat j # 1) / Q2Qc (Z.of_nat (n - 1) # 1))%Qc) <$> seq 0 n.

Fixpoint Qc_pow (x : Qc) (k : nat) : Qc :=
  match k with 0 => 1%Qc | S k => (x * Qc_pow x k)%Qc end.

Fixpoint binomial (n k : nat) : nat :=
  match n, k with
  | _, 0 => 1
  | 0, S _ => 0
  | S n, S k => binomial n k + binomial n (S k)
  end.

(** The Bernstein basis is rational; the radial and the Fourier basis are
    not, and the instance uses a rational bump and the second-order
    expansion of the cosine in their place. *)
#[global] Instance Qc_primitive : Primitive (F:=Qc) := {|
  build_phi_rbf := λ nb_data nb_fct,
    if (nb_data <? 0)%Z || (nb_fct <? 0)%Z then Err ValueError else
    Ok ((λ t : Qc, (λ c : Qc, (1 / (1 + Q2Qc 100 * (t - c) * (t - c)))%Qc)
                <$> Qc_linspace (Z.to_nat nb_fct))
          <$> Qc_linspace (Z.to_nat nb_data));
  build_phi_bernstein := λ nb_data nb_fct,
    if (nb_data <? 0)%Z || (nb_fct <? 0)%Z then Err ValueError else
    let c := Z.to_nat nb_fct in
    Ok ((λ t : Qc, (λ i, (Q2Qc (Z.of_nat (binomial (c - 1) i) # 1)
                     * Qc_pow (1 - t) (c - 1 - i) * Qc_pow t i)%Qc)
                <$> seq 0 c)
          <$> Qc_linspace (Z.to_nat nb_data));
  build_phi_fourier := λ nb_data nb_fct,
    if (nb_data <? 0)%Z || (nb_fct <? 0)%Z then Err ValueError else
    Ok ((λ t : Qc, (λ k, (1 - Q2Qc 2 * (t * Q2Qc (Z.of_nat k # 1))
                                * (t * Q2Qc (Z.of_nat k # 1)))%Qc)
                <$> seq 0 (Z.to_nat nb_fct))
          <$> Qc_linspace (Z.to_nat nb_data))
|}.

(** A tracking problem through the via points: they are spread evenly over
    the horizon, [Q] selects their position entries, [R] is [rfactor] on
    the diagonal. *)
#[global] Instance Qc_lqt_lib : LqtLib (F:=Qc) := λ param via_point_pose,
  nbData ← get_int param "nbData" ≫= as_dim;
  nb_var ← get_int param "nb_var" ≫= as_dim;
  nbVarPos ← get_int param "nbVarPos" ≫= as_dim;
  nbPoints ← get_int param "nbPoints" ≫= as_dim;
  rfactor ← get_float param "rfactor";
  let R := mscale (eye ((nbData - 1) * nbVarPos)) rfactor in
  let tl := (λ i, ((i + 1) * nbData) `div` nbPoints - 1) <$> seq 0 nbPoints in
  let via_point := (λ p : list Qc, take nb_var (p ++ zeros nb_var)) <$> via_point_pose in
  let at_step (t : nat) : option (list Qc) :=
    (list_find (λ it : nat * list Qc, it.1 = t) (zip tl via_point)) ≫= λ r, Some r.2.2 in
  let muQ := seq 0 nbData ≫= λ t, default (zeros nb_var) (at_step t) in
  let weights := seq 0 nbData ≫= λ t,
    if at_step t is Some _ then replicate nbVarPos 1%Qc ++ zeros (nb_var - nbVarPos)
    else zeros nb_var in
  let Q := zip_with (λ (row : list Qc) w, vscale w row) (eye (nbData * nb_var)) weights in
  mret (via_point, muQ, Q, R, (λ t, (t * nb_var, t * nb_var + nb_var)) <$> tl,
        Z.of_nat <$> tl).

(** The quotient [n / d] of two positive integers rounded to the nearest
    integer, a tie to the even one. *)
Definition Z_round_half_even (n d : Z) : Z :=
  let fl := (n / d)%Z in
  let r2 := (2 * (n `mod` d))%Z in
  if (r2 <? d)%Z then fl
  else if (d <? r2)%Z then (fl + 1)%Z
  else if Z.even fl then fl else (fl + 1)%Z.

(** Rounding to single precision on the rationals: a significand of 24 bits,
    the spacing of the subnormal numbers, [2^-149], below [2^-126], round to
    nearest and ties to even.  Magnitudes from [2^128] on, which numpy turns
    into [inf], have no rational value and are rounded like the others. *)
#[global] Instance Qc_float32 : Float32 (F:=Qc) := λ x,
  let n := Z.abs (Qnum x) in
  let d := Z.pos (Qden x) in
  if (n =? 0)%Z then 0%Qc
  else
    let e0 := (Z.log2 n - Z.log2 d)%Z in
    (* 2^e <= n/d < 2^(e+1) *)
    let e := if (d * 2 ^ Z.max 0 e0 <=? n * 2 ^ Z.max 0 (- e0))%Z
             then e0 else (e0 - 1)%Z in
    let p := Z.max (e - 23) (-149) in
    let m := Z_round_half_even (n * 2 ^ Z.max 0 (- p)) (d * 2 ^ Z.max 0 p) in
    Q2Qc ((Z.sgn (Qnum x) * m * 2 ^ Z.max 0 p) # Z.to_pos (2 ^ Z.max 0 (- p))).

(** *** Concrete inputs *)

Definition q (a : Z) (b : positive) : Qc := Q2Qc (a # b).

(** Two demonstrations of two-dimensional points. *)
Definition demos_ex : list (list (list Qc)) :=
  [ [[q 0 1; q 0 1]; [q 1 1; q 2 1]; [q 3 1; q 5 1]; [q 4 1; q 4 1]];
    [[q 1 1; q 1 1]; [q 2 1; q 0 1]; [q 2 1; q 3 1]] ].

(** The configuration of a planar double integrator over three steps. *)
Definition param_ex : gmap string (value (F:=Qc)) :=
  list_to_map
    [ ("nbData", VInt 3); ("nbVarPos", VInt 2); ("nbDeriv", VInt 2);
      ("nbFct", VInt 2); ("basisName", VStr "PIECEWEISE");
      ("dt", VFloat (q 1 100)); ("rfactor", VFloat (q 1 100));
      ("nb_var", VInt 4) ].

(** The same configuration with more basis functions than timesteps. *)
Definition param_over : gmap string (value (F:=Qc)) :=
  <["nbFct" := VInt 3]> param_ex.

(** Via points: the first row is the start pose. *)
Definition data_ex : list (list Qc) :=
  [ [q 0 1; q 0 1; q 0 1; q 0 1];
    [q 1 1; q 1 1; q 0 1; q 0 1];
    [q 2 1; q 0 1; q 0 1; q 0 1] ].

(** A model with two states over the eight coordinates of the two frames. *)
Definition model_ex : hmm (F:=Qc) :=
  {| states := {| priors := [q 1 2; q 1 2];
                  mu := [ [q 1 2; q (-1) 1; q 125 1; q (-225) 1;
                           q (-7) 2; q 3 1; q 125 1; q (-225) 1];
                          [q 7 2; q (-9) 2; q 125 1; q 0 1;
                           q (-1) 2; q (-1) 2; q 125 1; q 0 1] ];
                  sigma := [ eye 8; mscale (eye 8) (q 2 1) ] |};
     init_priors := [q 1 1; q 0 1];
     Trans := [[q 1 2; q 1 2]; [q 0 1; q 1 1]] |}.

(** The results of the embedding on the concrete inputs. *)
Definition related_ex :=
  match get_related_matrix demos_ex with
  | Ok r => r
  | Err _ => ([], [], [], [], [])
  end.
Definition demos_xdx_ex : list (list (list Qc)) := related_ex.1.1.1.1.
Definition dAx_ex : list (list (list (list (list Qc)))) := related_ex.1.1.1.2.
Definition dbx_ex : list (list (list (list Qc))) := related_ex.1.1.2.
Definition demos_xdx_augm_ex : list (list (list Qc)) := related_ex.2.

Definition prod_ex : gmm (F:=Qc) :=
  match poe model_ex dAx_ex dbx_ex demos_ex 0 with
  | Ok p => p
  | Err _ => GMM [] [] []
  end.

Definition start_pose_ex : list Qc := [q 0 1; q 0 1; q 0 1; q 0 1].
Definition muQ_ex : list Qc :=
  [q 0 1; q 0 1; q 0 1; q 0 1; q 1 1; q 1 1; q 0 1; q 0 1; q 2 1; q 0 1; q 0 1; q 0 1].
Definition Q_ex : list (list Qc) := eye 12.
Definition R_ex : list (list Qc) := mscale (eye 4) (q 1 100).

Definition A_ex : list (list Qc) :=
  match dynamics_A param_ex with Ok A => A | Err _ => [] end.
Definition B_ex : list (list Qc) :=
  match dynamics_B param_ex with Ok B => B | Err _ => [] end.
Definition Su_ex : list (list Qc) :=
  match set_dynamical_system param_ex with Ok r => r.1 | Err _ => [] end.
Definition Sx_ex : list (list Qc) :=
  match set_dynamical_system param_ex with Ok r => r.2 | Err _ => [] end.
Definition PSI_ex : list (list Qc) :=
  match define_control_primitive param_ex with Ok r => r.1 | Err _ => [] end.
Definition PSI_over : list (list Qc) :=
  match define_control_primitive param_over with Ok r => r.1 | Err _ => [] end.
Definition phi_over : list (list Qc) :=
  match define_control_primitive param_over with Ok r => r.2 | Err _ => [] end.
Definition normal_inv_ex : list (list Qc) :=
  match linalg_inv (normal_matrix PSI_ex Su_ex Q_ex R_ex) with
  | Ok N => N
  | Err _ => []
  end.

(** * The callers and the remaining functions *)

Section Pipeline.

Context {F : Type} `{!Scalar F, !LinalgInv F, !ScalarFun F}.
Context `{!Pbdlib (F:=F), !Primitive (F:=F), !LqtLib (F:=F)}.

Abbreviation vector := (list F).
Abbreviation matrix := (list (list F)).

(** The vector [v] with every second entry negated, [diag(1, -1, 1, -1, …)·v]. *)
Fixpoint mirror (v : vector) : vector :=
  match v with
  | a :: b :: v => a :: Fopp b :: mirror v
  | _ => v
  end.

(** The states visited from [x] under the controls [us]:
    [x, A·x + B·u0, …]. *)
Fixpoint rollout (A B : matrix) (x : vector) (us : list vector) : list vector :=
  x :: match us with
       | [] => []
       | u :: us => rollout A B (vadd (matvec A x) (matvec B u)) us
       end.

(** ** tpgmm.py: [HMM_learning], [uni] and [bi] *)

(** The learner of [pbdlib], which is not part of the sources: the
    constructor [HMM(nb_states)] followed by [init_hmm_kbins(demos)], and
    [em(demos, reg)], each returning the model it leaves behind. *)
Class PbdlibLearner := {
  init_hmm_kbins : nat → list (list vector) → result (hmm (F:=F));
  em : hmm (F:=F) → list (list vector) → F → result (hmm (F:=F))
}.

Context `{!PbdlibLearner}.

(** The literal [1e-3] of the source. *)
Definition c0_001 : F := Fdiv F1 (Fnat 1000).

(** The call with [plot=False]; [demos_xdx_f] is read by the plotting
    branch only. *)
Definition HMM_learning (demos_xdx_f : list (list (list vector)))
    (demos_xdx_augm : list (list vector)) : result hmm :=
  model ← init_hmm_kbins 4 demos_xdx_augm;
  em model demos_xdx_augm c0_001.

Definition uni (demos_x : list (list vector)) (show_demo_idx : Z)
  : result (list vector) :=
  '(demos_xdx, demos_A_xdx, demos_b_xdx, demos_xdx_f, demos_xdx_augm)
     ← get_related_matrix demos_x;
  model ← HMM_learning demos_xdx_f demos_xdx_augm;
  prod ← poe model demos_A_xdx demos_b_xdx demos_x show_demo_idx;
  generate model prod demos_x demos_xdx demos_xdx_augm show_demo_idx.

Definition bi (demos_left_x demos_right_x : list (list vector))
    (show_demo_idx : Z) : result (list vector * list vector) :=
  '(demos_left_xdx, demos_left_A_xdx, demos_left_b_xdx, demos_left_xdx_f,
    demos_left_xdx_augm) ← get_related_matrix demos_left_x;
  '(demos_right_xdx, demos_right_A_xdx, demos_right_b_xdx, demos_right_xdx_f,
    demos_right_xdx_augm) ← get_related_matrix demos_right_x;
  model_l ← HMM_learning demos_left_xdx_f demos_left_xdx_augm;
  model_r ← HMM_learning demos_right_xdx_f demos_right_xdx_augm;
  prod_l ← poe model_l demos_left_A_xdx demos_left_b_xdx demos_left_x show_demo_idx;
  prod_r ← poe model_r demos_right_A_xdx demos_right_b_xdx demos_right_x
             show_demo_idx;
  gen_l ← generate model_l prod_l demos_left_x demos_left_xdx demos_left_xdx_augm
            show_demo_idx;
  gen_r ← generate model_r prod_r demos_right_x demos_right_xdx
            demos_right_xdx_augm show_demo_idx;
  mret (gen_l, gen_r).

(** ** lqt_cp.py: the script that calls [uni_cp] *)

(** [range(start, stop, step)] for a positive [step] *)
Definition py_range (start stop step : Z) : list Z :=
  (λ k, start + step * k)%Z <$> seqZ 0 ((stop - start + step - 1) / step).

(** The indices of the samples kept as via points: every fifth sample up to
    ten samples before the end, and the last sample. *)
Definition filter_indices (n : Z) : list Z :=
  py_range 0 (n - 10) 5 ++ [(n - 1)%Z].

(** [via_points = data[filter_indices]] for the array [data] of 14 columns
    that holds [data_raw] in its first 7 columns. *)
Definition main_via_points (data_raw : matrix) : result matrix :=
  (* data = np.zeros((len(data_raw), 14)); data[:, :7] = data_raw *)
  data ← mapM (λ row : vector, r ← broadcast_to 7 row; mret (r ++ zeros 7)) data_raw;
  mapM (py_index data) (filter_indices (Z.of_nat (length data_raw))).

End Pipeline.

(** *** Concrete inputs for the pipelines *)

(** A learner that returns the concrete model. *)
#[global] Instance Qc_pbdlib_learner : PbdlibLearner (F:=Qc) := {|
  init_hmm_kbins := λ _ _, Ok model_ex;
  em := λ model _ _, Ok model
|}.

Definition demos_xdx_f_ex : list (list (list (list Qc))) := related_ex.1.2.

(** The single integrator and a configuration with three derivative
    orders. *)
Definition param_single : gmap string (value (F:=Qc)) :=
  <["nbDeriv" := VInt 1]> (<["nb_var" := VInt 2]> param_ex).
Definition param_third : gmap string (value (F:=Qc)) :=
  <["nbDeriv" := VInt 3]> (<["nb_var" := VInt 6]> param_ex).

Definition us_ex : list (list Qc) := [[q 1 1; q 0 1]; [q 0 1; q (-1) 1]].
Definition W_ex : list (list Qc) := [[q 1 1; q 2 1]; [q 3 1; q 4 1]].

(** Via points whose first row holds [0.1] and [1/3], which single precision
    does not represent. *)
Definition data_tenth : list (list Qc) :=
  [ [q 1 10; q 1 3; q 7 1; q 7 1];
    [q 1 1; q 1 1; q 0 1; q 0 1];
    [q 2 1; q 0 1; q 0 1; q 0 1] ].

(** Twelve raw samples of seven coordinates. *)
Definition data_raw_ex : list (list Qc) :=
  (λ i, replicate 7 (q (Z.of_nat i) 1)) <$> seq 0 12.

Definition phi_ex : list (list Qc) :=
  match define_control_primitive param_ex with Ok r => r.2 | Err _ => [] end.

(** * Properties *)

Lemma py_index_nonneg {A} (l : list A) (i : Z) a :
  (0 ≤ i)%Z → l !! Z.to_nat i = Some a → py_index l i = Ok a.
Proof.
  intros Hi Hl. unfold py_index.
  destruct (Z.ltb_spec i 0); [lia|].
  destruct (Z.ltb_spec i 0); [lia|]. by rewrite Hl.
Qed.

Lemma py_index_last {A} (l : list A) a :
  last l = Some a → py_index l (-1) = Ok a.
Proof.
  intros Hl. unfold py_index. simpl.
  rewrite last_lookup in Hl.
  assert (length l ≠ 0) by (intros E; rewrite E in Hl; destruct l; done).
  destruct (Z.ltb_spec (Z.of_nat (length l) + -1) 0); [lia|].
  replace (Z.to_nat (Z.of_nat (length l) + -1)) with (pred (length l)) by lia.
  by rewrite Hl.
Qed.

Lemma py_index_Ok_lookup {A} (l : list A) (i : Z) a :
  py_index l i = Ok a → ∃ k, l !! k = Some a.
Proof.
  unfold py_index. destruct (_ <? 0)%Z; [done|].
  destruct (l !! _) eqn:E; [|done]. intros [= <-]. eauto.
Qed.

(** [for]-loops that append one result per iteration are [mapM]. *)
Lemma mapM_Ok_Forall2 {A B} (f : A → result B) (l : list A) (k : list B) :
  mapM f l = Ok k ↔ Forall2 (λ a b, f a = Ok b) l k.
Proof.
  revert k. induction l as [|a l IH]; intros k; simpl.
  - split.
    + intros [= <-]. constructor.
    + intros H. by inversion H.
  - split.
    + destruct (f a) as [b|] eqn:Hb; simpl; [|done].
      destruct (mapM f l) as [k'|] eqn:Hk; simpl; [|done].
      intros [= <-]. constructor; [done|]. by apply IH.
    + intros H. inversion H as [|? b ? k' Hb Hk]; subst.
      apply IH in Hk. rewrite Hb; simpl. by rewrite Hk.
Qed.

Lemma mapM_Ok_fmap {A B} (f : A → result B) (g : A → B) (l : list A) :
  (∀ a, a ∈ l → f a = Ok (g a)) → mapM f l = Ok (g <$> l).
Proof.
  intros H. apply mapM_Ok_Forall2.
  induction l as [|a l IH]; simpl; constructor.
  - apply H. left.
  - apply IH. intros b Hb. apply H. by right.
Qed.

Lemma mapM_is_Ok {A B} (f : A → result B) (l : list A) :
  (∀ a, a ∈ l → is_Ok (f a)) → is_Ok (mapM f l).
Proof.
  induction l as [|a l IH]; intros H; simpl.
  - by eexists.
  - destruct (H a) as [b Hb]; [left|]. rewrite Hb; simpl.
    destruct IH as [k Hk]; [intros; apply H; by right|].
    rewrite Hk; simpl. by eexists.
Qed.

Section Derivative.

Context {F : Type} `{!Scalar F}.
Abbreviation vector := (list F).
Abbreviation matrix := (list (list F)).

(** On points of one dimension the difference is taken entry by entry. *)
Lemma np_sub_Ok (a b : vector) : length a = length b → np_sub a b = Ok (vsub a b).
Proof. intros H. unfold np_sub. by rewrite decide_True. Qed.

Lemma rectangular_lookup (x : list vector) i k a b :
  rectangular x → x !! i = Some a → x !! k = Some b → length a = length b.
Proof.
  intros [D HD] Ha Hb.
  rewrite (Forall_lookup_1 _ _ _ _ HD Ha). by rewrite (Forall_lookup_1 _ _ _ _ HD Hb).
Qed.

Lemma get_dx_at_interior (x : list vector) (j : nat) xp xn :
  rectangular x → 0 < j < length x - 1 →
  x !! (j - 1) = Some xp → x !! (j + 1) = Some xn →
  get_dx_at x (Z.of_nat j) = Ok (vdivs (vdivs (vsub xn xp) two) c0_01).
Proof.
  intros Hr Hj Hp Hn. unfold get_dx_at.
  destruct (Z.ltb_spec 0 (Z.of_nat j)); [|lia].
  destruct (Z.ltb_spec (Z.of_nat j) (Z.of_nat (length x) - 1)); [|lia].
  cbn [andb].
  rewrite (py_index_nonneg x (Z.of_nat j + 1) xn); [|lia|].
  2:{ replace (Z.to_nat (Z.of_nat j + 1)) with (j + 1) by lia. done. }
  cbn [mbind result_bind].
  rewrite (py_index_nonneg x (Z.of_nat j - 1) xp); [|lia|].
  2:{ replace (Z.to_nat (Z.of_nat j - 1)) with (j - 1) by lia. done. }
  cbn [mbind result_bind].
  by rewrite np_sub_Ok by (by eapply rectangular_lookup).
Qed.

Lemma get_dx_at_first (x : list vector) x0 x1 :
  rectangular x → 2 ≤ length x → x !! 0 = Some x0 → x !! 1 = Some x1 →
  get_dx_at x 0 = Ok (vdivs (vsub x1 x0) c0_01).
Proof.
  intros Hr Hn H0 H1. unfold get_dx_at.
  change (0 <? 0)%Z with false. cbn [andb].
  destruct (Z.eqb_spec 0 (Z.of_nat (length x) - 1)); [lia|].
  rewrite (py_index_nonneg x (0 + 1) x1); [|lia|done].
  cbn [mbind result_bind]. rewrite (py_index_nonneg x 0 x0) by done.
  cbn [mbind result_bind].
  by rewrite np_sub_Ok by (by eapply rectangular_lookup).
Qed.

Lemma get_dx_at_last (x : list vector) xa xb :
  rectangular x → 2 ≤ length x →
  x !! (length x - 2) = Some xa → x !! (length x - 1) = Some xb →
  get_dx_at x (Z.of_nat (length x - 1)) = Ok (vdivs (vsub xb xa) c0_01).
Proof.
  intros Hr Hn Ha Hb. unfold get_dx_at.
  destruct (Z.ltb_spec (Z.of_nat (length x - 1)) (Z.of_nat (length x) - 1)); [lia|].
  rewrite andb_false_r.
  destruct (Z.eqb_spec (Z.of_nat (length x - 1)) (Z.of_nat (length x) - 1)); [|lia].
  rewrite (py_index_nonneg x (Z.of_nat (length x - 1)) xb); [|lia|by rewrite Nat2Z.id].
  cbn [mbind result_bind].
  rewrite (py_index_nonneg x (Z.of_nat (length x - 1) - 1) xa); [|lia|].
  2:{ replace (Z.to_nat (Z.of_nat (length x - 1) - 1)) with (length x - 2) by lia.
      done. }
  cbn [mbind result_bind].
  by rewrite np_sub_Ok by (by eapply rectangular_lookup).
Qed.

(** The derivative at the only timestep of a one-point demonstration. *)
Lemma get_dx_at_single (p : vector) :
  get_dx_at [p] 0 = Ok (vdivs (vsub p p) c0_01).
Proof.
  unfold get_dx_at. cbn [length andb Z.ltb Z.eqb Z.of_nat Z.compare].
  change (py_index [p] 0) with (Ok p). change (py_index [p] (0 - 1)) with (Ok p).
  cbn [mbind result_bind]. by rewrite np_sub_Ok.
Qed.

Lemma get_dx_at_is_Ok (x : list vector) (j : Z) :
  rectangular x → (0 ≤ j < Z.of_nat (length x))%Z → is_Ok (get_dx_at x j).
Proof.
  intros [D HD] Hj. unfold get_dx_at.
  assert (Hlook : ∀ k, (-1 ≤ k < Z.of_nat (length x))%Z →
                       ∃ a, py_index x k = Ok a ∧ length a = D).
  { intros k Hk. unfold py_index.
    destruct (Z.ltb_spec k 0).
    - destruct (Z.ltb_spec (Z.of_nat (length x) + k) 0); [lia|].
      destruct (lookup_lt_is_Some_2 x (Z.to_nat (Z.of_nat (length x) + k))) as [a Ha]; [lia|].
      rewrite Ha. exists a. split; [done|]. by apply (Forall_lookup_1 _ _ _ _ HD Ha).
    - destruct (Z.ltb_spec k 0); [lia|].
      destruct (lookup_lt_is_Some_2 x (Z.to_nat k)) as [a Ha]; [lia|].
      rewrite Ha. exists a. split; [done|]. by apply (Forall_lookup_1 _ _ _ _ HD Ha). }
  assert (Hsub : ∀ k1 k2, (-1 ≤ k1 < Z.of_nat (length x))%Z →
                          (-1 ≤ k2 < Z.of_nat (length x))%Z →
                          ∃ d, (a ← py_index x k1; b ← py_index x k2; np_sub a b) = Ok d).
  { intros k1 k2 H1 H2. destruct (Hlook k1 H1) as (a & -> & Ha).
    destruct (Hlook k2 H2) as (b & -> & Hb). cbn [mbind result_bind].
    rewrite np_sub_Ok by congruence. by eexists. }
  destruct (Z.ltb_spec 0 j); destruct (Z.ltb_spec j (Z.of_nat (length x) - 1));
    cbn [andb].
  - destruct (Hlook (j + 1)%Z) as (a & -> & Ha); [lia|].
    destruct (Hlook (j - 1)%Z) as (b & -> & Hb); [lia|]. cbn [mbind result_bind].
    rewrite np_sub_Ok by congruence. by eexists.
  - destruct (Z.eqb_spec j (Z.of_nat (length x) - 1)); [|lia].
    destruct (Hsub j (j - 1)%Z) as [d ->]; [lia|lia|]. by eexists.
  - destruct (Z.eqb_spec j (Z.of_nat (length x) - 1)).
    + destruct (Hsub j (j - 1)%Z) as [d ->]; [lia|lia|]. by eexists.
    + destruct (Hsub (j + 1)%Z j) as [d ->]; [lia|lia|]. by eexists.
  - destruct (Z.eqb_spec j (Z.of_nat (length x) - 1)); [|lia].
    destruct (Hsub j (j - 1)%Z) as [d ->]; [lia|lia|]. by eexists.
Qed.

Lemma get_dx_demo_is_Ok (x : list vector) :
  rectangular x → is_Ok (mapM (get_dx_at x) (seqZ 0 (Z.of_nat (length x)))).
Proof.
  intros Hr. apply mapM_is_Ok. intros j Hj. apply get_dx_at_is_Ok; [done|].
  apply elem_of_seqZ in Hj. lia.
Qed.

Lemma get_dx_is_Ok (demos_x : list (list vector)) :
  Forall rectangular demos_x → is_Ok (get_dx demos_x).
Proof.
  intros Hr. apply mapM_is_Ok. intros x Hx. apply get_dx_demo_is_Ok.
  rewrite Forall_forall in Hr. by apply Hr.
Qed.

(** What [get_dx] returns, demonstration by demonstration and timestep by
    timestep. *)
Lemma get_dx_Ok_inv (demos_x demos_dx : list (list vector)) i x :
  get_dx demos_x = Ok demos_dx → demos_x !! i = Some x →
  ∃ dx, demos_dx !! i = Some dx ∧ length dx = length x ∧
        ∀ j, j < length x → ∃ d, dx !! j = Some d ∧ get_dx_at x (Z.of_nat j) = Ok d.
Proof.
  intros Hdx Hx. apply mapM_Ok_Forall2 in Hdx.
  destruct (Forall2_lookup_l _ _ _ _ _ Hdx Hx) as (dx & Hdxi & Hm).
  exists dx. split; [done|].
  apply mapM_Ok_Forall2 in Hm.
  pose proof (Forall2_length _ _ _ Hm) as Hlen. rewrite length_seqZ in Hlen.
  split; [lia|]. intros j Hj.
  assert (Hs : seqZ 0 (Z.of_nat (length x)) !! j = Some (Z.of_nat j)).
  { rewrite lookup_seqZ. split; lia. }
  destruct (Forall2_lookup_l _ _ _ _ _ Hm Hs) as (d & Hd & Hat). eauto.
Qed.

(** C4. In a demonstration [x] of length T ≥ 2 (an array of T points of one
    dimension, as are all the demonstrations) the derivative returned by
    [get_dx] is, at an interior timestep 0 < j < T−1, the centred difference
    [(x[j+1] − x[j−1]) / 2] divided by the time step [0.01]; at the first
    timestep it is [(x[1] − x[0]) / 0.01] and at the last timestep
    [(x[T−1] − x[T−2]) / 0.01]. *)
Theorem get_dx_finite_differences (demos_x : list (list vector)) i x :
  Forall rectangular demos_x →
  demos_x !! i = Some x → 2 ≤ length x →
  ∃ demos_dx dx,
    get_dx demos_x = Ok demos_dx ∧ demos_dx !! i = Some dx
    ∧ (∀ j xp xn, 0 < j < length x - 1 →
         x !! (j - 1) = Some xp → x !! (j + 1) = Some xn →
         dx !! j = Some (vdivs (vdivs (vsub xn xp) two) c0_01))
    ∧ (∀ x0 x1, x !! 0 = Some x0 → x !! 1 = Some x1 →
         dx !! 0 = Some (vdivs (vsub x1 x0) c0_01))
    ∧ (∀ xa xb, x !! (length x - 2) = Some xa → x !! (length x - 1) = Some xb →
         dx !! (length x - 1) = Some (vdivs (vsub xb xa) c0_01)).
Proof.
  intros Hrect Hx HT. destruct (get_dx_is_Ok demos_x Hrect) as [demos_dx Hdx].
  destruct (get_dx_Ok_inv _ _ _ _ Hdx Hx) as (dx & Hdxi & Hlen & Hat).
  assert (Hr : rectangular x).
  { rewrite Forall_forall in Hrect. apply Hrect.
    by apply list_elem_of_lookup_2 in Hx. }
  exists demos_dx, dx. do 2 (split; [done|]). repeat split.
  - intros j xp xn Hj Hp Hn. destruct (Hat j) as (d & Hd & Hj'); [lia|].
    rewrite (get_dx_at_interior x j xp xn) in Hj' by done. congruence.
  - intros x0 x1 H0 H1. destruct (Hat 0) as (d & Hd & Hj'); [lia|].
    change (Z.of_nat 0) with 0%Z in Hj'.
    rewrite (get_dx_at_first x x0 x1) in Hj' by done. congruence.
  - intros xa xb Ha Hb. destruct (Hat (length x - 1)) as (d & Hd & Hj'); [lia|].
    rewrite (get_dx_at_last x xa xb) in Hj' by done. congruence.
Qed.

End Derivative.

(** ** Linear algebra on lists, in exact arithmetic *)

Section Algebra.

Context {F : Type} `{!Scalar F}.
Hypothesis Fth : field_theory F0 F1 Fadd Fmul Fsub Fopp Fdiv Finv (@eq F).
Add Field Ffield : Fth.

Abbreviation vector := (list F).
Abbreviation matrix := (list (list F)).

Lemma vadd_cons a b (u v : vector) : vadd (a :: u) (b :: v) = Fadd a b :: vadd u v.
Proof. done. Qed.

Lemma vscale_cons c a (v : vector) : vscale c (a :: v) = Fmul c a :: vscale c v.
Proof. done. Qed.

Lemma zeros_S n : zeros (S n) = F0 :: zeros n.
Proof. done. Qed.

Lemma Fdiv_0_l (c : F) : Fdiv F0 c = F0.
Proof. rewrite (Fdiv_def Fth). ring. Qed.

Lemma vsub_diag (v : vector) : vsub v v = zeros (length v).
Proof.
  induction v as [|a v IH]; [done|].
  change (vsub (a :: v) (a :: v)) with (Fsub a a :: vsub v v).
  rewrite IH. simpl. rewrite zeros_S. f_equal. ring.
Qed.

Lemma vdivs_zeros n (c : F) : vdivs (zeros n) c = zeros n.
Proof.
  unfold vdivs, zeros. rewrite fmap_replicate. by rewrite Fdiv_0_l.
Qed.

(** C10. [get_dx] returns on every list of demonstrations (arrays of points
    of one dimension each), in particular on every list of non-empty ones:
    no index is out of bounds, there is one derivative sequence per
    demonstration and it has the length of the demonstration; the
    derivative sequence of a demonstration that consists of the single
    point [p] is the single zero vector. *)
Theorem get_dx_total (demos_x : list (list vector)) :
  Forall rectangular demos_x →
  ∃ demos_dx,
    get_dx demos_x = Ok demos_dx
    ∧ Forall2 (λ x dx : list vector, length dx = length x) demos_x demos_dx
    ∧ ∀ i p, demos_x !! i = Some [p] → demos_dx !! i = Some [zeros (length p)].
Proof.
  intros Hrect.
  destruct (get_dx_is_Ok demos_x Hrect) as [demos_dx Hdx]. exists demos_dx.
  split; [done|]. split.
  - apply mapM_Ok_Forall2 in Hdx. eapply Forall2_impl; [exact Hdx|].
    intros x dx Hm. apply mapM_Ok_Forall2, Forall2_length in Hm.
    rewrite length_seqZ in Hm. lia.
  - intros i p Hi.
    destruct (get_dx_Ok_inv _ _ _ _ Hdx Hi) as (dx & Hdxi & Hlen & Hat).
    destruct (Hat 0) as (d & Hd & Hj); [simpl; lia|].
    change (Z.of_nat 0) with 0%Z in Hj. rewrite get_dx_at_single in Hj.
    injection Hj as <-. rewrite vsub_diag, vdivs_zeros in Hd.
    rewrite Hdxi. f_equal. destruct dx as [|d0 [|d1 dx]]; simpl in *; try lia.
    congruence.
Qed.

Lemma length_zeros n : length (zeros n) = n.
Proof. apply length_replicate. Qed.

Lemma length_vadd (u v : vector) : length (vadd u v) = length u `min` length v.
Proof. apply length_zip_with. Qed.

Lemma length_vscale (c : F) (v : vector) : length (vscale c v) = length v.
Proof. apply length_fmap. Qed.

Lemma length_matvec (M : matrix) (v : vector) : length (matvec M v) = length M.
Proof. apply length_fmap. Qed.

Lemma vadd_zeros_l (v : vector) : vadd (zeros (length v)) v = v.
Proof.
  induction v as [|a v IH]; [done|].
  simpl. rewrite zeros_S, vadd_cons, IH. f_equal. ring.
Qed.

Lemma vadd_zeros_r (v : vector) : vadd v (zeros (length v)) = v.
Proof.
  induction v as [|a v IH]; [done|].
  simpl. rewrite zeros_S, vadd_cons, IH. f_equal. ring.
Qed.

Lemma vadd_assoc (u v w : vector) : vadd u (vadd v w) = vadd (vadd u v) w.
Proof.
  revert v w. induction u as [|a u IH]; intros [|b v] [|c w]; try done.
  rewrite !vadd_cons, IH. f_equal. ring.
Qed.

Lemma vscale_1 (v : vector) : vscale F1 v = v.
Proof.
  induction v as [|a v IH]; [done|].
  rewrite vscale_cons, IH. f_equal. ring.
Qed.

Lemma vscale_0 (v : vector) : vscale F0 v = zeros (length v).
Proof.
  induction v as [|a v IH]; [done|].
  simpl. rewrite vscale_cons, zeros_S, IH. f_equal. ring.
Qed.

Lemma dot_nil_l (v : vector) : dot [] v = F0.
Proof. done. Qed.

Lemma dot_nil_r (u : vector) : dot u [] = F0.
Proof. by destruct u. Qed.

Lemma dot_cons a b (u v : vector) :
  dot (a :: u) (b :: v) = Fadd (Fmul a b) (dot u v).
Proof. done. Qed.

Lemma vadd_nil_l (v : vector) : vadd [] v = [].
Proof. done. Qed.

Lemma vadd_nil_r (u : vector) : vadd u [] = [].
Proof. by destruct u. Qed.

Lemma vscale_nil c : vscale c [] = [].
Proof. done. Qed.

Ltac vec_norm :=
  rewrite ?vadd_nil_l, ?vadd_nil_r, ?vadd_cons, ?vscale_nil, ?vscale_cons, ?zeros_S,
          ?dot_nil_l, ?dot_nil_r, ?dot_cons.

Lemma dot_zeros_l n (v : vector) : dot (zeros n) v = F0.
Proof.
  revert v. induction n as [|n IH]; intros [|b v]; vec_norm; try done.
  rewrite IH. ring.
Qed.

Lemma dot_zeros_r n (u : vector) : dot u (zeros n) = F0.
Proof.
  revert u. induction n as [|n IH]; intros [|a u]; vec_norm; try done.
  rewrite IH. ring.
Qed.

Lemma dot_app (u1 u2 v1 v2 : vector) :
  length u1 = length v1 →
  dot (u1 ++ u2) (v1 ++ v2) = Fadd (dot u1 v1) (dot u2 v2).
Proof.
  revert v1. induction u1 as [|a u1 IH]; intros [|b v1] Hl; try done; simpl.
  - vec_norm. ring.
  - vec_norm. rewrite IH by (simpl in Hl; lia). ring.
Qed.

Lemma dot_vadd_r (u v w : vector) :
  length v = length w →
  dot u (vadd v w) = Fadd (dot u v) (dot u w).
Proof.
  revert v w. induction u as [|a u IH]; intros [|b v] [|c w] Hl; try done;
    vec_norm; try ring.
  rewrite IH by (simpl in Hl; lia). ring.
Qed.

Lemma dot_vadd_l (u u' v : vector) :
  length u = length u' →
  dot (vadd u u') v = Fadd (dot u v) (dot u' v).
Proof.
  revert u' v. induction u as [|a u IH]; intros [|a' u'] [|b v] Hl; try done;
    vec_norm; try ring.
  rewrite IH by (simpl in Hl; lia). ring.
Qed.

Lemma dot_vscale_l c (u v : vector) : dot (vscale c u) v = Fmul c (dot u v).
Proof.
  revert v. induction u as [|a u IH]; intros [|b v]; vec_norm; try ring.
  rewrite IH. ring.
Qed.

Lemma matvec_app (M N : matrix) (v : vector) :
  matvec (M ++ N) v = matvec M v ++ matvec N v.
Proof. apply fmap_app. Qed.

Lemma matvec_concat (Ms : list matrix) (v : vector) :
  matvec (concat Ms) v = concat ((λ M, matvec M v) <$> Ms).
Proof.
  induction Ms as [|M Ms IH]; [done|].
  simpl. by rewrite matvec_app, IH.
Qed.

Lemma matvec_cons r (M : matrix) (v : vector) :
  matvec (r :: M) v = dot r v :: matvec M v.
Proof. done. Qed.

Lemma matvec_vadd (M : matrix) (v w : vector) :
  length v = length w →
  matvec M (vadd v w) = vadd (matvec M v) (matvec M w).
Proof.
  intros Hl. induction M as [|r M IH]; [done|].
  rewrite !matvec_cons, vadd_cons, IH. f_equal. by apply dot_vadd_r.
Qed.

Lemma matvec_zeros (M : matrix) n : matvec M (zeros n) = zeros (length M).
Proof.
  induction M as [|r M IH]; [done|].
  simpl. rewrite matvec_cons, zeros_S, IH. f_equal. apply dot_zeros_r.
Qed.

Lemma matvec_zeros_mat r c (v : vector) : matvec (zeros_mat r c) v = zeros r.
Proof.
  unfold matvec, zeros_mat, zeros. rewrite fmap_replicate.
  by rewrite (dot_zeros_l c).
Qed.

Lemma length_eye n : length (eye n) = n.
Proof. induction n as [|n IH]; [done|]. simpl. by rewrite length_fmap, IH. Qed.

Lemma eye_rows n : Forall (λ r : vector, length r = n) (eye n).
Proof.
  induction n as [|n IH]; [constructor|].
  simpl. constructor; [simpl; by rewrite length_zeros|].
  apply Forall_fmap. eapply Forall_impl; [exact IH|].
  intros r Hr. simpl. by rewrite Hr.
Qed.

Lemma eye_shape n : has_shape n n (eye n).
Proof. split; [apply length_eye | apply eye_rows]. Qed.

Lemma matvec_eye (v : vector) : matvec (eye (length v)) v = v.
Proof.
  induction v as [|a v IH]; [done|].
  simpl. rewrite matvec_cons. f_equal.
  - vec_norm. rewrite dot_zeros_l. ring.
  - unfold matvec in *. rewrite <- list_fmap_compose. rewrite <- IH at 2.
    apply list_fmap_ext. intros _ r _. simpl. vec_norm. ring.
Qed.

(** *** Shapes *)

Lemma has_shape_ncols r c (M : matrix) : has_shape r c M → 0 < r → ncols M = c.
Proof.
  intros [Hl Hr] Hpos. destruct M as [|row M]; simpl in *; [lia|].
  by inversion Hr.
Qed.

Lemma has_shape_app r1 r2 c (M N : matrix) :
  has_shape r1 c M → has_shape r2 c N → has_shape (r1 + r2) c (M ++ N).
Proof.
  intros [H1 H2] [H3 H4]. split.
  - rewrite length_app. lia.
  - by apply Forall_app.
Qed.

Lemma zeros_mat_shape r c : has_shape r c (zeros_mat r c).
Proof.
  split; [apply length_replicate|].
  apply Forall_replicate. apply length_zeros.
Qed.

Lemma length_vecmat_aux c (x : vector) (A : matrix) :
  Forall (λ r, length r = c) A →
  length (foldr vadd (zeros c) (zip_with vscale x A)) = c.
Proof.
  intros HA. revert x. induction HA as [|r A Hr HA IH]; intros [|a x]; simpl;
    try apply length_zeros.
  rewrite length_vadd, length_vscale, IH. lia.
Qed.

Lemma dot_vecmat_aux c (x v : vector) (A : matrix) :
  Forall (λ r, length r = c) A →
  dot (foldr vadd (zeros c) (zip_with vscale x A)) v = dot x (matvec A v).
Proof.
  intros HA. revert x. induction HA as [|r A Hr HA IH]; intros [|a x]; simpl.
  - apply dot_zeros_l.
  - change (matvec [] v) with (@nil F). vec_norm. apply dot_zeros_l.
  - apply dot_zeros_l.
  - rewrite matvec_cons. vec_norm.
    rewrite dot_vadd_l, dot_vscale_l, IH; [done|].
    by rewrite length_vscale, length_vecmat_aux.
Qed.

Lemma matvec_matmul c (X A : matrix) (v : vector) :
  Forall (λ r, length r = c) A → ncols A = c →
  matvec (matmul X A) v = matvec X (matvec A v).
Proof.
  intros HA Hc. unfold matmul, matvec at 1 2. rewrite <- list_fmap_compose.
  apply list_fmap_ext. intros _ x _. simpl. unfold vecmat. rewrite Hc.
  by apply dot_vecmat_aux.
Qed.

Lemma matmul_shape r c (X A : matrix) :
  has_shape r c A → 0 < r → has_shape (length X) c (matmul X A).
Proof.
  intros HA Hr. split; [apply length_fmap|].
  apply Forall_fmap, Forall_true. intros x. simpl. unfold vecmat.
  rewrite (has_shape_ncols r c) by done. apply length_vecmat_aux, HA.
Qed.

Lemma matmul_app (X Y A : matrix) : matmul (X ++ Y) A = matmul X A ++ matmul Y A.
Proof. apply fmap_app. Qed.

Lemma matmul_concat (Xs : list matrix) (A : matrix) :
  matmul (concat Xs) A = concat ((λ X, matmul X A) <$> Xs).
Proof.
  induction Xs as [|X Xs IH]; [done|].
  simpl. by rewrite matmul_app, IH.
Qed.

Lemma hstack_shape r c1 c2 (X Y : matrix) :
  has_shape r c1 X → has_shape r c2 Y → has_shape r (c1 + c2) (hstack X Y).
Proof.
  intros [HX1 HX2] [HY1 HY2]. split.
  - unfold hstack. rewrite length_zip_with. lia.
  - clear HX1 HY1. revert Y HY2. induction HX2 as [|x X Hx HX IH]; intros Y HY.
    + constructor.
    + destruct HY as [|y Y Hy HY]; [constructor|].
      simpl. constructor; [rewrite length_app; lia|]. by apply IH.
Qed.

Lemma matvec_hstack (X Y : matrix) (u w : vector) :
  Forall (λ r, length r = length u) X →
  matvec (hstack X Y) (u ++ w) = vadd (matvec X u) (matvec Y w).
Proof.
  intros HX. revert Y. induction HX as [|x X Hx HX IH]; intros [|y Y]; try done.
  simpl. rewrite !matvec_cons, vadd_cons, IH. f_equal. by apply dot_app.
Qed.

(** *** Slice assignment *)

Lemma broadcast_to_id {X} n (l : list X) : length l = n → broadcast_to n l = Ok l.
Proof. intros Hl. unfold broadcast_to. by rewrite decide_True. Qed.

Lemma broadcast_to_length {X} n (l l' : list X) :
  broadcast_to n l = Ok l' → length l' = n.
Proof.
  unfold broadcast_to. destruct (decide _) as [Hl|_]; [by intros [= <-]|].
  destruct l as [|a [|b l]]; try done. intros [= <-]. apply length_replicate.
Qed.

Lemma broadcast_to_Forall {X} (P : X → Prop) n (l l' : list X) :
  broadcast_to n l = Ok l' → Forall P l → Forall P l'.
Proof.
  unfold broadcast_to. destruct (decide _) as [Hl|_]; [by intros [= <-]|].
  destruct l as [|a [|b l]]; try done. intros [= <-] Ha.
  apply Forall_replicate. by inversion Ha.
Qed.

Lemma mapM_broadcast_to_id c (blk : matrix) :
  Forall (λ b, length b = c) blk → mapM (broadcast_to c) blk = Ok blk.
Proof.
  induction 1 as [|b blk Hb _ IH]; [done|].
  cbn [mapM]. rewrite (broadcast_to_id _ _ Hb). simpl. by rewrite IH.
Qed.

Lemma mapM_broadcast_to_rows c (blk rows : matrix) :
  mapM (broadcast_to c) blk = Ok rows → Forall (λ b, length b = c) rows.
Proof.
  intros H. apply mapM_Ok_Forall2 in H.
  induction H as [|b r blk rows Hb _ IH]; constructor; [|done].
  by apply broadcast_to_length in Hb.
Qed.

Lemma assign_block_Ok (M blk : matrix) r0 r1 c0 c1 :
  length blk = r1 `min` length M - r0 →
  Forall (λ b, length b = c1 `min` ncols M - c0) blk →
  assign_block M r0 r1 c0 c1 blk =
    Ok (take r0 M
        ++ zip_with (λ row b, take c0 row ++ b ++ drop (c1 `min` ncols M) row)
                    (slice r0 (r1 `min` length M) M) blk
        ++ drop (r1 `min` length M) M).
Proof.
  intros H1 H2. unfold assign_block.
  rewrite (mapM_broadcast_to_id _ _ H2). simpl.
  by rewrite (broadcast_to_id _ _ H1).
Qed.

Lemma zip_with_overwrite_rows c (rows blk : matrix) :
  length rows = length blk → Forall (λ r, length r = c) rows →
  zip_with (λ row b : vector, take 0 row ++ b ++ drop c row) rows blk = blk.
Proof.
  intros Hl Hr. revert blk Hl.
  induction Hr as [|r rows Hr Hrs IH]; intros [|b blk] Hl; try done.
  simpl. rewrite IH by (simpl in Hl; lia).
  by rewrite drop_ge, app_nil_r by lia.
Qed.

(** [M[r0:r1, :] = blk] for a block that replaces all the rows from [r0]
    on. *)
Lemma assign_block_tail r c (M blk : matrix) r0 r1 :
  has_shape r c M → r0 ≤ r → r ≤ r1 → has_shape (r - r0) c blk →
  assign_block M r0 r1 0 (ncols M) blk = Ok (take r0 M ++ blk).
Proof.
  intros [HM1 HM2] H0 H1 [Hb1 Hb2].
  assert (Hc : blk = [] ∨ ncols M = c).
  { destruct M as [|row M]; simpl in *.
    - left. destruct blk; [done|simpl in *; lia].
    - right. by inversion HM2. }
  rewrite assign_block_Ok.
  - rewrite Nat.min_id, (Nat.min_r r1) by lia. rewrite HM1.
    rewrite (drop_ge M r), app_nil_r by lia. f_equal. f_equal.
    destruct Hc as [-> | Hc].
    + by rewrite zip_with_nil_r.
    + rewrite Hc. apply zip_with_overwrite_rows.
      * unfold slice. rewrite length_take, length_drop. lia.
      * unfold slice. by apply Forall_take, Forall_drop.
  - rewrite Nat.min_r by lia. lia.
  - rewrite Nat.min_id, Nat.sub_0_r. destruct Hc as [-> | ->]; [constructor|done].
Qed.

Lemma zip_with_pad_zero_rows n w (blk : matrix) :
  length blk = n → Forall (λ b, length b ≤ w) blk →
  ∀ c, Forall (λ b, length b = c) blk →
  zip_with (λ row b : vector, take 0 row ++ b ++ drop c row) (zeros_mat n w) blk
  = (λ b : vector, b ++ zeros (w - length b)) <$> blk.
Proof.
  intros Hn Hw c Hc. subst n. unfold zeros_mat.
  induction blk as [|b blk IH]; [done|].
  apply Forall_cons in Hw as [Hb Hw]. apply Forall_cons in Hc as [Hcb Hc].
  cbn [length replicate zip_with fmap list_fmap].
  rewrite IH by done. f_equal.
  rewrite take_0, Hcb. unfold zeros. by rewrite drop_replicate.
Qed.

(** [M[r0:r0+h, 0:c] = blk] where the rows of [M] from [r0] on are zero. *)
Lemma assign_block_zero_rows w (D blk : matrix) m h c r0 :
  has_shape r0 w D → has_shape h c blk → 0 < h → c ≤ w →
  assign_block (D ++ zeros_mat (h + m) w) r0 (r0 + length blk) 0 (ncols blk) blk
  = Ok (D ++ ((λ b : vector, b ++ zeros (w - length b)) <$> blk) ++ zeros_mat m w).
Proof.
  intros [HD1 HD2] [Hb1 Hb2] Hh Hc.
  assert (Hnb : ncols blk = c) by (by apply (has_shape_ncols h c)).
  assert (Hnc : ncols (D ++ zeros_mat (h + m) w) = w).
  { apply (has_shape_ncols (r0 + (h + m)) w); [|lia].
    apply has_shape_app; [done|apply zeros_mat_shape]. }
  assert (Hlen : length (D ++ zeros_mat (h + m) w) = r0 + (h + m)).
  { rewrite length_app, HD1. unfold zeros_mat. rewrite length_replicate. lia. }
  rewrite assign_block_Ok.
  - rewrite Hnc, Hlen, Hnb, Hb1.
    rewrite (Nat.min_l (r0 + h)), (Nat.min_l c) by lia.
    rewrite take_app_length' by done. f_equal. f_equal.
    unfold slice. rewrite drop_app_length' by done.
    replace (r0 + h - r0) with h by lia.
    rewrite drop_app_add' by done.
    unfold zeros_mat. rewrite take_replicate_add, drop_replicate_add.
    f_equal. apply (zip_with_pad_zero_rows h w blk); [done| |done].
    eapply Forall_impl; [exact Hb2|]. simpl. intros; lia.
  - rewrite Hlen, Hb1. lia.
  - rewrite Hnc, Hnb, Nat.min_l, Nat.sub_0_r by lia. done.
Qed.

(** *** The loop of [set_dynamical_system] *)

Section Transfer.

Variables (A B : matrix) (nv nvp T : nat).
Hypothesis HA : has_shape nv nv A.
Hypothesis HB : has_shape nv nvp B.
Hypothesis Hnv : 0 < nv.

Let W := nvp * (T - 1).

Lemma state_block_shape r : has_shape nv nv (state_block A nv r).
Proof.
  induction r as [|r IH]; simpl.
  - apply eye_shape.
  - destruct IH as [IH1 IH2]. rewrite <- IH1 at 1. by apply (matmul_shape nv).
Qed.

Lemma input_block_shape r : has_shape nv (nvp * S r) (input_block A B r).
Proof.
  induction r as [|r IH]; simpl.
  - by rewrite Nat.mul_1_r.
  - replace (nvp * S (S r)) with (nvp * S r + nvp) by lia.
    apply hstack_shape; [|done].
    destruct HA as [HA1 _]. rewrite <- HA1 at 1.
    apply (matmul_shape nv); [|done]. exact IH.
Qed.

Lemma Su_block_shape r : r < T → has_shape nv W (Su_block A B nv W r).
Proof.
  intros Hr. destruct r as [|r]; simpl.
  - apply zeros_mat_shape.
  - destruct (input_block_shape r) as [H1 H2]. split.
    + by rewrite length_fmap.
    + apply Forall_fmap. eapply Forall_impl; [exact H2|].
      intros row Hrow. simpl. rewrite length_app, length_zeros, Hrow.
      assert (nvp * S r ≤ W) by (unfold W; apply Nat.mul_le_mono_l; lia). lia.
Qed.

Lemma concat_seq_S {X} (f : nat → list X) k :
  concat (f <$> seq 0 (S k)) = concat (f <$> seq 0 k) ++ f k.
Proof. rewrite seq_S, fmap_app, concat_app. simpl. by rewrite app_nil_r. Qed.

Lemma concat_blocks_shape {X} (f : X → matrix) (l : list X) c :
  (∀ x, x ∈ l → has_shape nv c (f x)) →
  has_shape (length l * nv) c (concat (f <$> l)).
Proof.
  induction l as [|x l IH]; intros H; simpl.
  - split; [done|constructor].
  - apply has_shape_app; [apply H; left|]. apply IH. intros; apply H. by right.
Qed.

Abbreviation Sx_upto' := (Sx_upto A nv T).
Abbreviation Su_upto' := (Su_upto A B nv W T).

Lemma Sx_upto_shape k : k < T → has_shape (T * nv) nv (Sx_upto' k).
Proof.
  intros Hk. replace (T * nv) with (length (seq 0 (S k)) * nv
                                    + length (replicate (T - 1 - k) ()) * nv).
  2:{ rewrite length_seq, length_replicate. nia. }
  apply has_shape_app.
  - apply concat_blocks_shape. intros; apply state_block_shape.
  - replace (replicate (T - 1 - k) (state_block A nv k))
      with ((λ _ : (), state_block A nv k) <$> replicate (T - 1 - k) ())
      by (by rewrite fmap_replicate).
    apply concat_blocks_shape. intros; apply state_block_shape.
Qed.

Lemma transfer_step_Sx k :
  S k < T →
  assign_block (Sx_upto' k) (S k * nv) (T * nv) 0 (ncols (Sx_upto' k))
    (matmul (slice (S k * nv) (T * nv) (Sx_upto' k)) A)
  = Ok (Sx_upto' (S k)).
Proof.
  intros Hk.
  assert (Hl1 : length (concat (state_block A nv <$> seq 0 (S k))) = S k * nv).
  { destruct (concat_blocks_shape (state_block A nv) (seq 0 (S k)) nv) as [H _].
    - intros; apply state_block_shape.
    - by rewrite length_seq in H. }
  assert (Hsl : slice (S k * nv) (T * nv) (Sx_upto' k)
                = concat (replicate (T - 1 - k) (state_block A nv k))).
  { unfold slice, Sx_upto. rewrite drop_app_length' by done.
    apply take_ge.
    destruct (concat_blocks_shape (λ _ : (), state_block A nv k)
                (replicate (T - 1 - k) ()) nv) as [H _].
    - intros; apply state_block_shape.
    - rewrite fmap_replicate, length_replicate in H. rewrite H. nia. }
  rewrite Hsl, matmul_concat, fmap_replicate.
  change (matmul (state_block A nv k) A) with (state_block A nv (S k)).
  rewrite (assign_block_tail (T * nv) nv).
  - unfold Sx_upto. rewrite take_app_length' by done.
    replace (T - 1 - k) with (S (T - 1 - S k)) by lia.
    rewrite (concat_seq_S _ (S k)). cbn [replicate concat].
    by rewrite <- app_assoc.
  - apply Sx_upto_shape. lia.
  - nia.
  - lia.
  - replace (T * nv - S k * nv) with (length (replicate (T - 1 - k) ()) * nv)
      by (rewrite length_replicate; nia).
    replace (replicate (T - 1 - k) (state_block A nv (S k)))
      with ((λ _ : (), state_block A nv (S k)) <$> replicate (T - 1 - k) ())
      by (by rewrite fmap_replicate).
    apply concat_blocks_shape. intros; apply state_block_shape.
Qed.

Lemma transfer_step_Su k :
  S k < T →
  assign_block (Su_upto' k) (nv * S k) (nv * S k + length (input_block A B k)) 0
    (ncols (input_block A B k)) (input_block A B k)
  = Ok (Su_upto' (S k)).
Proof.
  intros Hk. unfold Su_upto.
  replace ((T - 1 - k) * nv) with (nv + (T - 1 - S k) * nv) by nia.
  rewrite (assign_block_zero_rows W _ _ _ nv (nvp * S k)).
  - rewrite (concat_seq_S _ (S k)). by rewrite <- app_assoc.
  - replace (nv * S k) with (length (seq 0 (S k)) * nv)
      by (rewrite length_seq; lia).
    apply concat_blocks_shape. intros r Hr. apply Su_block_shape.
    apply elem_of_seq in Hr. lia.
  - apply input_block_shape.
  - done.
  - unfold W. apply Nat.mul_le_mono_l. lia.
Qed.

Lemma transfer_step_upto k :
  S k < T →
  transfer_step nv T A B (Sx_upto' k, Su_upto' k, input_block A B k) (S k)
  = Ok (Sx_upto' (S k), Su_upto' (S k), input_block A B (S k)).
Proof.
  intros Hk. unfold transfer_step.
  rewrite transfer_step_Sx by done. cbn [mbind result_bind].
  by rewrite transfer_step_Su by done.
Qed.

Lemma transfer_loop_upto n k :
  k + n < T →
  foldM (transfer_step nv T A B) (Sx_upto' k, Su_upto' k, input_block A B k)
        (seq (S k) n)
  = Ok (Sx_upto' (k + n), Su_upto' (k + n), input_block A B (k + n)).
Proof.
  revert k. induction n as [|n IH]; intros k Hk.
  - by rewrite Nat.add_0_r.
  - cbn [seq foldM]. rewrite transfer_step_upto by lia. cbn [mbind result_bind].
    rewrite IH by lia. by replace (S k + n) with (k + S n) by lia.
Qed.

End Transfer.

(** *** The dynamics built by [set_dynamical_system] *)

Lemma foldM_invariant {X S} (P : S → Prop) (f : S → X → result S) s (l : list X) :
  P s → (∀ s a, a ∈ l → P s → ∃ s', f s a = Ok s' ∧ P s') →
  ∃ s', foldM f s l = Ok s' ∧ P s'.
Proof.
  revert s. induction l as [|a l IH]; intros s Hs Hf; simpl.
  - eauto.
  - destruct (Hf s a) as (s' & -> & Hs'); [left|done|].
    simpl. apply IH; [done|]. intros s0 b Hb. apply Hf. by right.
Qed.

Lemma assign_block_shape r c (M M' blk : matrix) r0 r1 c0 c1 :
  has_shape r c M → r0 ≤ r1 `min` r → c0 ≤ c1 `min` c →
  assign_block M r0 r1 c0 c1 blk = Ok M' → has_shape r c M'.
Proof.
  intros [HM1 HM2] Hr Hc. unfold assign_block.
  destruct (mapM _ blk) as [rows0|] eqn:Hrows0; [|done]. simpl.
  destruct (broadcast_to _ rows0) as [rows|] eqn:Hrows; [|done]. simpl.
  intros [= <-].
  assert (Hb1 := broadcast_to_length _ _ _ Hrows).
  assert (Hb2 := broadcast_to_Forall _ _ _ _ Hrows
                   (mapM_broadcast_to_rows _ _ _ Hrows0)).
  clear Hrows0 Hrows rows0 blk. rename rows into blk.
  rewrite HM1 in *.
  destruct (decide (r = 0)) as [->|Hr0].
  { destruct M; [|done]. unfold slice.
    rewrite !drop_nil, !take_nil. simpl. split; [done|constructor]. }
  assert (Hnc : ncols M = c) by (apply (has_shape_ncols r c); [done|lia]).
  rewrite Hnc in *. split.
  - rewrite !length_app, length_zip_with, length_take, length_drop.
    unfold slice. rewrite length_take, length_drop. lia.
  - apply Forall_app. split; [by apply Forall_take|].
    apply Forall_app. split; [|by apply Forall_drop].
    assert (Hs : Forall (λ row : vector, length row = c) (slice r0 (r1 `min` r) M)).
    { unfold slice. by apply Forall_take, Forall_drop. }
    revert Hs Hb2. generalize (slice r0 (r1 `min` r) M).
    clear -Hc. intros rows Hrows. revert blk.
    induction Hrows as [|row rows Hrow Hrows IH]; intros [|b blk] Hb; simpl;
      try constructor.
    + apply Forall_cons in Hb as [Hb _].
      rewrite !length_app, length_take, length_drop. lia.
    + apply IH. by apply Forall_cons in Hb as [_ Hb].
Qed.

Lemma mscale_shape r c (M : matrix) x : has_shape r c M → has_shape r c (mscale M x).
Proof.
  intros [H1 H2]. unfold mscale. split; [by rewrite length_fmap|].
  apply Forall_fmap. eapply Forall_impl; [exact H2|].
  intros row Hrow. simpl. by rewrite length_fmap.
Qed.

Section Config.

Variables (param : gmap string (value (F:=F))) (T nv nvp nd : nat) (dt : F).
Hypothesis Hcfg : lqt_config param T nv nvp nd dt.

Lemma get_int_nbData : get_int param "nbData" = Ok (Z.of_nat T).
Proof. unfold get_int, get. by destruct Hcfg as (-> & _). Qed.
Lemma get_int_nb_var : get_int param "nb_var" = Ok (Z.of_nat nv).
Proof. unfold get_int, get. by destruct Hcfg as (_ & -> & _). Qed.
Lemma get_int_nbVarPos : get_int param "nbVarPos" = Ok (Z.of_nat nvp).
Proof. unfold get_int, get. by destruct Hcfg as (_ & _ & -> & _). Qed.
Lemma get_int_nbDeriv : get_int param "nbDeriv" = Ok (Z.of_nat nd).
Proof. unfold get_int, get. by destruct Hcfg as (_ & _ & _ & -> & _). Qed.
Lemma get_float_dt : get_float param "dt" = Ok dt.
Proof. by destruct Hcfg as (_ & _ & _ & _ & -> & _). Qed.

Lemma as_dim_of_nat n : as_dim (Z.of_nat n) = Ok n.
Proof.
  unfold as_dim. destruct (Z.ltb_spec (Z.of_nat n) 0); [lia|].
  by rewrite Nat2Z.id.
Qed.

Lemma dynamics_A_Ok : ∃ A, dynamics_A param = Ok A ∧ has_shape nv nv A.
Proof.
  destruct Hcfg as (_ & _ & _ & _ & _ & HT & Hnv & Hnvp & Hnd & Hfit).
  unfold dynamics_A. rewrite get_int_nb_var. cbn [mbind result_bind].
  rewrite as_dim_of_nat. cbn [mbind result_bind].
  rewrite get_int_nbDeriv. cbn [mbind result_bind].
  destruct (decide (Z.of_nat nd = 2%Z)) as [Hd|Hd].
  - rewrite get_int_nbVarPos. cbn [mbind result_bind].
    rewrite as_dim_of_nat. cbn [mbind result_bind].
    rewrite get_float_dt. cbn [mbind result_bind].
    assert (nd = 2) by lia. subst nd.
    assert (Hpt : length (py_take (Z.of_nat nvp) (eye nv)) = nvp).
    { unfold py_take. destruct (Z.ltb_spec (Z.of_nat nvp) 0); [lia|].
      rewrite Nat2Z.id, length_take, length_eye. lia. }
    rewrite Hpt. destruct (decide (nvp = 0)); [lia|].
    assert (Hnc : ncols (eye nv) = nv).
    { apply (has_shape_ncols nv nv); [apply eye_shape|lia]. }
    rewrite assign_block_Ok.
    + eexists. split; [done|].
      eapply (assign_block_shape nv nv (eye nv) _ _ 0 nvp (nv - nvp) nv);
        [apply eye_shape|lia|lia|].
      apply assign_block_Ok.
      * unfold mscale. rewrite length_fmap, !length_eye. lia.
      * rewrite Hnc. apply mscale_shape with (r := nvp).
        replace (nv `min` nv - (nv - nvp)) with nvp by lia. apply eye_shape.
    + unfold mscale. rewrite length_fmap, !length_eye. lia.
    + rewrite Hnc. apply mscale_shape with (r := nvp).
      replace (nv `min` nv - (nv - nvp)) with nvp by lia. apply eye_shape.
  - eexists. split; [done|]. apply eye_shape.
Qed.

Lemma dynamics_B_Ok : ∃ B, dynamics_B param = Ok B ∧ has_shape nv nvp B.
Proof.
  destruct Hcfg as (_ & _ & _ & _ & _ & HT & Hnv & Hnvp & Hnd & Hfit).
  unfold dynamics_B. rewrite get_int_nb_var. cbn [mbind result_bind].
  rewrite as_dim_of_nat. cbn [mbind result_bind].
  rewrite get_int_nbVarPos. cbn [mbind result_bind].
  rewrite as_dim_of_nat. cbn [mbind result_bind].
  rewrite get_float_dt. cbn [mbind result_bind].
  rewrite get_int_nbDeriv. cbn [mbind result_bind].
  rewrite Nat2Z.id.
  apply foldM_invariant; [apply zeros_mat_shape|].
  intros B i Hi HB. apply elem_of_seq in Hi.
  assert (Hlen : length (py_take (Z.of_nat nd) [dt; Fdiv (Fmul dt dt) two]) = nd).
  { unfold py_take. destruct (Z.ltb_spec (Z.of_nat nd) 0); [lia|].
    rewrite Nat2Z.id, length_take. simpl. lia. }
  destruct (lookup_lt_is_Some_2 (reverse (py_take (Z.of_nat nd) [dt; Fdiv (Fmul dt dt) two])) i)
    as [c Hc]; [rewrite length_reverse; lia|].
  rewrite (py_index_nonneg _ _ c); [|lia|by rewrite Nat2Z.id].
  cbn [mbind result_bind].
  assert (Hnc : ncols B = nvp) by (apply (has_shape_ncols nv nvp); [done|lia]).
  assert (Hfit' : (i + 1) * nvp ≤ nv) by nia.
  assert (Hblk : assign_block B (i * nvp) ((i + 1) * nvp) 0 (ncols B)
                   (mscale (eye nvp) c) = Ok
            (take (i * nvp) B
        ++ zip_with (λ row b, take 0 row ++ b ++ drop (ncols B `min` ncols B) row)
                    (slice (i * nvp) (((i + 1) * nvp) `min` length B) B)
                    (mscale (eye nvp) c)
        ++ drop (((i + 1) * nvp) `min` length B) B)).
  { destruct HB as [HB1 HB2]. apply assign_block_Ok.
    - unfold mscale. rewrite length_fmap, length_eye, HB1. lia.
    - rewrite Hnc, Nat.min_id, Nat.sub_0_r. apply mscale_shape with (r := nvp).
      apply eye_shape. }
  eexists. split; [exact Hblk|].
  eapply assign_block_shape; [exact HB| | |exact Hblk]; lia.
Qed.

Lemma kron_ones_col n (E : matrix) :
  kron (ones_mat n 1) E = concat (replicate n E).
Proof.
  unfold kron, ones_mat. induction n as [|n IH]; [done|].
  cbn [replicate mbind list_bind concat]. rewrite <- IH. f_equal.
  rewrite <- (list_fmap_id E) at 2. apply list_fmap_ext. intros _ row _.
  cbn. by rewrite app_nil_r, vscale_1.
Qed.

Lemma set_dynamical_system_Ok :
  ∃ A B, dynamics_A param = Ok A ∧ dynamics_B param = Ok B
    ∧ has_shape nv nv A ∧ has_shape nv nvp B
    ∧ set_dynamical_system param =
        Ok (concat (Su_block A B nv (nvp * (T - 1)) <$> seq 0 T),
            concat (state_block A nv <$> seq 0 T)).
Proof.
  destruct dynamics_A_Ok as (A & HA & HAs).
  destruct dynamics_B_Ok as (B & HB & HBs).
  exists A, B. do 4 (split; [done|]).
  destruct Hcfg as (_ & _ & _ & _ & _ & HT & Hnv & Hnvp & Hnd & Hfit).
  unfold set_dynamical_system. rewrite HA, HB. cbn [mbind result_bind].
  rewrite get_int_nb_var, get_int_nbData, get_int_nbVarPos.
  cbn [mbind result_bind]. unfold np_zeros.
  replace (Z.of_nat nv * Z.of_nat T)%Z with (Z.of_nat (nv * T)) by lia.
  replace (Z.of_nat nvp * (Z.of_nat T - 1))%Z with (Z.of_nat (nvp * (T - 1)))
    by (rewrite Nat2Z.inj_mul, Nat2Z.inj_sub by lia; lia).
  rewrite !as_dim_of_nat. cbn [mbind result_bind mret result_ret].
  rewrite Nat2Z.id, kron_ones_col.
  assert (HSx : concat (replicate T (eye nv)) = Sx_upto A nv T 0).
  { unfold Sx_upto. replace T with (S (T - 1)) at 1 by lia.
    cbn. by rewrite app_nil_r, Nat.sub_0_r. }
  assert (HSu : zeros_mat (nv * T) (nvp * (T - 1))
                = Su_upto A B nv (nvp * (T - 1)) T 0).
  { unfold Su_upto. cbn. rewrite app_nil_r, Nat.sub_0_r. unfold zeros_mat.
    rewrite <- replicate_add. f_equal. nia. }
  rewrite HSx, HSu.
  change B with (input_block A B 0) at 3.
  rewrite (transfer_loop_upto A B nv nvp T HAs HBs Hnv (T - 1) 0) by lia.
  cbn [mbind result_bind mret result_ret]. f_equal. f_equal.
  - unfold Su_upto. replace (T - 1 - (0 + (T - 1))) with 0 by lia.
    replace (S (0 + (T - 1))) with T by lia. simpl. by rewrite app_nil_r.
  - unfold Sx_upto. replace (T - 1 - (0 + (T - 1))) with 0 by lia.
    replace (S (0 + (T - 1))) with T by lia. simpl. by rewrite app_nil_r.
Qed.

End Config.

(** *** The trajectory computed from the transfer matrices *)

Lemma vadd_app (u1 u2 v1 v2 : vector) :
  length u1 = length v1 → vadd (u1 ++ u2) (v1 ++ v2) = vadd u1 v1 ++ vadd u2 v2.
Proof. intros Hl. unfold vadd. by apply zip_with_app. Qed.

Lemma vadd_concat {X} (f g : X → vector) (l : list X) :
  (∀ x, x ∈ l → length (f x) = length (g x)) →
  vadd (concat (f <$> l)) (concat (g <$> l)) = concat ((λ x, vadd (f x) (g x)) <$> l).
Proof.
  induction l as [|x l IH]; intros H; [done|].
  cbn [fmap list_fmap concat]. rewrite vadd_app by (apply H; left).
  rewrite IH; [done|]. intros; apply H. by right.
Qed.

Lemma reshape_rows_concat {X} (f : X → vector) (l : list X) n :
  0 < n → (∀ x, x ∈ l → length (f x) = n) →
  reshape_rows n (concat (f <$> l)) = Ok (f <$> l).
Proof.
  intros Hn Hf.
  assert (Hlen : ∀ l' : list X, (∀ x, x ∈ l' → length (f x) = n) →
                   length (concat (f <$> l')) = length l' * n).
  { induction l' as [|x l' IH]; intros H; [done|].
    cbn [fmap list_fmap concat]. rewrite length_app, IH, H; [simpl; lia|left|].
    intros; apply H. by right. }
  unfold reshape_rows. rewrite Hlen by done.
  destruct (decide _) as [[?|Hm]|_]; [lia| |].
  { destruct Hm. apply Nat.Div0.mod_mul. }
  rewrite Nat.div_mul by lia. f_equal.
  clear Hlen. induction l as [|x l IH]; [done|].
  cbn [length seq fmap list_fmap concat]. f_equal.
  - rewrite Nat.mul_0_l, drop_0. apply take_app_length'. symmetry. apply Hf. left.
  - etrans; [|apply IH; intros; apply Hf; by right].
    rewrite <- fmap_S_seq, <- list_fmap_compose.
    apply list_fmap_ext. intros _ i _. simpl.
    replace (n + i * n) with (length (f x) + i * n) by (rewrite Hf; [done|left]).
    by rewrite drop_app_add.
Qed.

Section Trajectory.

Variables (A B : matrix) (nv nvp T : nat).
Hypothesis HA : has_shape nv nv A.
Hypothesis HB : has_shape nv nvp B.
Hypothesis Hnv : 0 < nv.
Variables (x0 u : vector).
Hypothesis Hx0 : length x0 = nv.
Hypothesis Hu : length u = nvp * (T - 1).

Lemma state_block_step r (v : vector) :
  length v = nv →
  matvec (state_block A nv (S r)) v = matvec A (matvec (state_block A nv r) v).
Proof.
  assert (HAc : ncols A = nv) by (by apply (has_shape_ncols nv nv)).
  destruct HA as [HA1 HA2].
  revert v. induction r as [|r IH]; intros v Hv.
  - change (state_block A nv 1) with (matmul (eye nv) A).
    change (state_block A nv 0) with (eye nv).
    rewrite (matvec_matmul nv) by done.
    rewrite <- HA1 at 1. rewrite <- (length_matvec A v), matvec_eye.
    rewrite <- Hv at 1. by rewrite matvec_eye.
  - change (state_block A nv (S (S r))) with (matmul (state_block A nv (S r)) A).
    rewrite (matvec_matmul nv) by done.
    rewrite IH by (by rewrite length_matvec).
    change (state_block A nv (S r)) with (matmul (state_block A nv r) A).
    by rewrite (matvec_matmul nv _ _ v) by done.
Qed.

Let W := nvp * (T - 1).
(** the control applied at step [r], the state contributed by the controls
    before step [r], and the state at step [r] *)
Let ctrl (r : nat) : vector := take nvp (drop (r * nvp) u).
Let su (r : nat) : vector := matvec (Su_block A B nv W r) u.
Let xs (r : nat) : vector := vadd (matvec (state_block A nv r) x0) (su r).

Lemma Su_block_apply r :
  S r < T →
  matvec (Su_block A B nv W (S r)) u
  = matvec (input_block A B r) (take (nvp * S r) u).
Proof.
  intros Hr. destruct (input_block_shape A B nv nvp T HA HB Hnv r) as [_ Hrows].
  cbn [Su_block]. unfold matvec. rewrite <- list_fmap_compose.
  apply Forall_fmap_ext_1. eapply Forall_impl; [exact Hrows|].
  intros row Hrow. cbn beta in Hrow |- *. unfold compose.
  assert (Hk : nvp * S r ≤ length u).
  { rewrite Hu. apply Nat.mul_le_mono_l. lia. }
  rewrite <- (take_drop (nvp * S r) u) at 1.
  rewrite dot_app by (rewrite length_take; lia).
  rewrite dot_zeros_l. ring.
Qed.

Lemma input_block_apply_step r (u1 u2 : vector) :
  length u1 = nvp * S r →
  matvec (input_block A B (S r)) (u1 ++ u2)
  = vadd (matvec A (matvec (input_block A B r) u1)) (matvec B u2).
Proof.
  intros Hu1. destruct (input_block_shape A B nv nvp T HA HB Hnv r) as [Hlen Hrows].
  change (input_block A B (S r)) with (hstack (matmul A (input_block A B r)) B).
  rewrite matvec_hstack.
  - f_equal. apply (matvec_matmul (nvp * S r)); [done|].
    apply (has_shape_ncols nv); [done|lia].
  - rewrite Hu1. destruct HA as [HA1 _].
    assert (Hs : has_shape (length A) (nvp * S r) (matmul A (input_block A B r))).
    { apply (matmul_shape nv); [done|lia]. }
    apply Hs.
Qed.

Lemma su_step r : S r < T → su (S r) = vadd (matvec A (su r)) (matvec B (ctrl r)).
Proof.
  intros Hr. unfold su. rewrite Su_block_apply by done.
  destruct HA as [HA1 _]. destruct HB as [HB1 _].
  destruct r as [|r].
  - cbn [Su_block input_block Nat.iter]. rewrite matvec_zeros_mat, matvec_zeros, HA1.
    rewrite <- HB1 at 1. rewrite <- (length_matvec B (ctrl 0)), vadd_zeros_l.
    unfold ctrl. by rewrite Nat.mul_1_r, drop_0.
  - rewrite Su_block_apply by lia.
    replace (nvp * S (S r)) with (nvp * S r + nvp) by lia.
    rewrite <- take_take_drop.
    rewrite input_block_apply_step.
    + unfold ctrl. by replace (S r * nvp) with (nvp * S r) by lia.
    + rewrite length_take, Hu.
      assert (nvp * S r ≤ nvp * (T - 1)) by (apply Nat.mul_le_mono_l; lia). lia.
Qed.

Lemma length_su r : r < T → length (su r) = nv.
Proof.
  intros Hr. unfold su. rewrite length_matvec.
  by destruct (Su_block_shape A B nv nvp T HA HB Hnv r Hr).
Qed.

Lemma length_state_part r : length (matvec (state_block A nv r) x0) = nv.
Proof.
  rewrite length_matvec. by destruct (state_block_shape A nv HA Hnv r).
Qed.

Lemma xs_0 : xs 0 = x0.
Proof.
  unfold xs, su. change (state_block A nv 0) with (eye nv).
  cbn [Su_block]. rewrite matvec_zeros_mat, <- Hx0, matvec_eye.
  apply vadd_zeros_r.
Qed.

Lemma xs_step r : S r < T → xs (S r) = vadd (matvec A (xs r)) (matvec B (ctrl r)).
Proof.
  intros Hr. unfold xs. rewrite state_block_step by done.
  rewrite su_step by done. rewrite vadd_assoc. f_equal.
  rewrite matvec_vadd; [done|].
  by rewrite length_state_part, length_su by lia.
Qed.

Lemma length_xs r : r < T → length (xs r) = nv.
Proof.
  intros Hr. unfold xs. rewrite length_vadd, length_state_part, length_su by done.
  lia.
Qed.

Lemma lifted_trajectory :
  vadd (matvec (concat (state_block A nv <$> seq 0 T)) x0)
       (matvec (concat (Su_block A B nv W <$> seq 0 T)) u)
  = concat (xs <$> seq 0 T).
Proof.
  rewrite !matvec_concat, <- !list_fmap_compose.
  rewrite vadd_concat; [done|].
  intros r Hr. apply elem_of_seq in Hr. simpl.
  rewrite length_state_part. symmetry. apply length_su. lia.
Qed.

End Trajectory.

End Algebra.

(** ** lqt_cp.py: the solve of [get_u_x] *)

Section Solve.

Context {F : Type} `{!Scalar F, !LinalgInv F}.
Hypothesis Fth : field_theory F0 F1 Fadd Fmul Fsub Fopp Fdiv Finv (@eq F).

Abbreviation vector := (list F).
Abbreviation matrix := (list (list F)).

Lemma reshape_rows_lookup n (v r : vector) (rows : list vector) t :
  reshape_rows n v = Ok rows → rows !! t = Some r →
  r = take n (drop (t * n) v).
Proof.
  unfold reshape_rows. destruct (decide _); [done|]. intros [= <-].
  rewrite list_lookup_fmap. destruct (seq _ _ !! t) as [i|] eqn:Hi; [|done].
  apply lookup_seq in Hi as [-> _]. by intros [= <-].
Qed.

Lemma reshape_rows_divides n k (v : vector) :
  0 < n → length v = n * k →
  reshape_rows n v = Ok ((λ i, take n (drop (i * n) v)) <$> seq 0 k).
Proof.
  intros Hn Hv. unfold reshape_rows.
  destruct (decide _) as [[?|Hm]|_]; [lia| |].
  { destruct Hm. rewrite Hv, Nat.mul_comm. apply Nat.Div0.mod_mul. }
  by rewrite Hv, (Nat.mul_comm n k), Nat.div_mul by lia.
Qed.

Lemma reshape_rows_chunks n k (v : vector) :
  0 < n → length v = n * k →
  ∃ rows, reshape_rows n v = Ok rows ∧ length rows = k
          ∧ Forall (λ r, length r = n) rows ∧ concat rows = v.
Proof.
  intros Hn Hv. rewrite (reshape_rows_divides n k) by done.
  eexists. split; [done|]. split; [by rewrite length_fmap, length_seq|].
  split.
  - apply Forall_fmap, Forall_forall. intros i Hi. apply elem_of_seq in Hi. simpl.
    rewrite length_take, length_drop. nia.
  - clear Hn. revert v Hv. induction k as [|k IH]; intros v Hv.
    + destruct v; [done|simpl in Hv; lia].
    + cbn [seq fmap list_fmap concat]. rewrite Nat.mul_0_l, drop_0.
      etrans; [|apply (take_drop n v)]. f_equal.
      etrans; [|apply (IH (drop n v)); rewrite length_drop; lia].
      rewrite <- fmap_S_seq, <- list_fmap_compose. f_equal.
      apply list_fmap_ext. intros _ i _. simpl.
      by rewrite drop_drop.
Qed.

(** C3 (amended). Let [param] hold a horizon T = nbData ≥ 2, the dimensions
    nb_var and nbVarPos and the derivative order, let [A], [B] and [Su],
    [Sx] be the dynamics and the transfer matrices built by
    [set_dynamical_system], and let the shapes of the arguments conform:
    the start pose has nb_var entries, [muQ] has T·nb_var, [Q] is square of
    that order, [R] is square of order nbVarPos·(T−1) and [PSI] has that
    many rows and C columns.  [get_u_x] returns exactly when
    [np.linalg.inv] returns on the normal matrix
    [PSIᵀ·Suᵀ·Q·Su·PSI + PSIᵀ·R·PSI].  When it does, [get_u_x] returns T−1
    controls of dimension nbVarPos and T states of dimension nb_var with
    [x_hat[0]] the start pose and
    [x_hat[t+1] = A·x_hat[t] + B·u_hat[t]] for every t < T−1; the stacked
    states are [Sx·x0 + Su·u_hat].  When [np.linalg.inv] raises, [get_u_x]
    raises the same exception. *)
Theorem get_u_x_trajectory (param : gmap string value) (T nv nvp nd C : nat) (dt : F)
    (start_pose muQ : vector) (Q R PSI A B Su Sx : matrix) :
  lqt_config param T nv nvp nd dt →
  2 ≤ T →
  length start_pose = nv →
  length muQ = T * nv →
  has_shape (T * nv) (T * nv) Q →
  has_shape (nvp * (T - 1)) (nvp * (T - 1)) R →
  has_shape (nvp * (T - 1)) C PSI →
  dynamics_A param = Ok A → dynamics_B param = Ok B →
  set_dynamical_system param = Ok (Su, Sx) →
  (∀ normal_inv,
     linalg_inv (normal_matrix PSI Su Q R) = Ok normal_inv →
     ∃ u_hat x_hat,
       get_u_x param start_pose muQ Q R Su Sx PSI = Ok (u_hat, x_hat)
       ∧ length u_hat = T - 1 ∧ Forall (λ u, length u = nvp) u_hat
       ∧ length x_hat = T ∧ Forall (λ x, length x = nv) x_hat
       ∧ x_hat !! 0 = Some start_pose
       ∧ (∀ t x u, x_hat !! t = Some x → u_hat !! t = Some u →
            x_hat !! S t = Some (vadd (matvec A x) (matvec B u)))
       ∧ concat x_hat = vadd (matvec Sx start_pose) (matvec Su (concat u_hat)))
  ∧ (∀ e,
       linalg_inv (normal_matrix PSI Su Q R) = Err e →
       get_u_x param start_pose muQ Q R Su Sx PSI = Err e).
Proof.
  intros Hcfg _ Hx0 _ _ _ [HPSI _] HA HB HS.
  assert (Hstart : ∀ k : result (list vector * list vector),
            get_u_x param start_pose muQ Q R Su Sx PSI = k →
            ∀ r, linalg_inv (normal_matrix PSI Su Q R) = r →
            k = (normal_inv ← r;
                 let u := matvec PSI
                   (matvec (matmul (matmul (matmul normal_inv (transpose PSI))
                                           (transpose Su)) Q)
                           (vsub muQ (matvec Sx start_pose))) in
                 x_hat ← reshape_rowsZ (Z.of_nat nv)
                           (vadd (matvec Sx start_pose) (matvec Su u));
                 nbVarPos ← get_int param "nbVarPos";
                 u_hat ← reshape_rowsZ nbVarPos u;
                 mret (u_hat, x_hat))).
  { intros k <- r <-. unfold get_u_x.
    rewrite (get_int_nb_var param T nv nvp nd dt Hcfg). cbn [mbind result_bind].
    destruct (decide _) as [_|Hn]; [done|destruct Hn; left; lia]. }
  destruct (set_dynamical_system_Ok Fth param T nv nvp nd dt Hcfg)
    as (A' & B' & HA' & HB' & HAs & HBs & HS').
  rewrite HA in HA'. rewrite HB in HB'. rewrite HS in HS'.
  injection HA' as <-. injection HB' as <-. injection HS' as -> ->.
  pose proof Hcfg as (_ & _ & _ & _ & _ & HT & Hnv & Hnvp & Hnd & Hfit).
  split; [|intros e Hinv; by rewrite (Hstart _ eq_refl _ Hinv)].
  intros normal_inv Hinv. rewrite (Hstart _ eq_refl _ Hinv).
  cbn [mbind result_bind]. cbv zeta.
  set (w_hat := matvec _ (vsub muQ _)).
  set (u := matvec PSI w_hat).
  assert (Hu : length u = nvp * (T - 1)) by (unfold u; by rewrite length_matvec).
  rewrite (lifted_trajectory A B nv nvp T HAs HBs Hnv start_pose u Hx0 Hu).
  unfold reshape_rowsZ.
  destruct (Z.ltb_spec (Z.of_nat nv) 0); [lia|]. rewrite Nat2Z.id.
  rewrite reshape_rows_concat; [|lia|].
  2:{ intros r Hr. apply elem_of_seq in Hr.
      apply (length_xs A B nv nvp T HAs HBs Hnv start_pose u Hx0 Hu). lia. }
  cbn [mbind result_bind].
  rewrite (get_int_nbVarPos param T nv nvp nd dt Hcfg). cbn [mbind result_bind].
  destruct (Z.ltb_spec (Z.of_nat nvp) 0); [lia|]. rewrite Nat2Z.id.
  destruct (reshape_rows_chunks nvp (T - 1) u) as (u_hat & Hur & Hul & Huf & Huc);
    [lia|done|].
  rewrite Hur. cbn [mbind result_bind mret result_ret].
  eexists _, _. split; [done|]. split; [done|]. split; [done|].
  split; [by rewrite length_fmap, length_seq|].
  split.
  { apply Forall_fmap, Forall_forall. intros r Hr. apply elem_of_seq in Hr. simpl.
    apply (length_xs A B nv nvp T HAs HBs Hnv start_pose u Hx0 Hu). lia. }
  split.
  { rewrite list_lookup_fmap, lookup_seq_lt by lia.
    cbn [fmap option_fmap option_map Nat.add].
    f_equal. apply (xs_0 Fth A B nv nvp T start_pose u Hx0). }
  split.
  - intros t x ut Hx Hut.
    rewrite list_lookup_fmap in Hx.
    destruct (seq 0 T !! t) as [i|] eqn:Hi; [|done].
    apply lookup_seq in Hi as [-> Ht].
    cbn [fmap option_fmap option_map Nat.add] in Hx. injection Hx as <-.
    assert (HtT : S t < T).
    { apply lookup_lt_Some in Hut. lia. }
    rewrite list_lookup_fmap, lookup_seq_lt by done.
    cbn [fmap option_fmap option_map Nat.add]. f_equal.
    rewrite (xs_step Fth A B nv nvp T HAs HBs Hnv start_pose u Hx0 Hu) by done.
    by rewrite (reshape_rows_lookup _ _ _ _ _ Hur Hut).
  - rewrite Huc.
    by rewrite (lifted_trajectory A B nv nvp T HAs HBs Hnv start_pose u Hx0 Hu).
Qed.

End Solve.

(** ** lqt_cp.py: the control primitives *)

Section Basis.

Context {F : Type} `{!Scalar F, !LinalgInv F, !Primitive (F:=F)}.
Hypothesis Fth : field_theory F0 F1 Fadd Fmul Fsub Fopp Fdiv Finv (@eq F).
Add Field Ffield_basis : Fth.

Abbreviation vector := (list F).
Abbreviation matrix := (list (list F)).

Lemma zeros_add n k : zeros (n + k) = zeros n ++ zeros k.
Proof. apply replicate_add. Qed.

Lemma eye_app n k :
  eye (n + k) = ((λ r : vector, r ++ zeros k) <$> eye n)
                ++ ((λ r : vector, zeros n ++ r) <$> eye k).
Proof.
  induction n as [|n IH].
  - simpl. symmetry. apply list_fmap_id.
  - cbn [Nat.add eye fmap list_fmap app]. rewrite IH, fmap_app, zeros_add.
    f_equal. rewrite <- !list_fmap_compose. done.
Qed.

Lemma bind_zeros_vscale m (b : vector) :
  zeros m ≫= (λ a, vscale a b) = zeros (m * length b).
Proof.
  induction m as [|m IH]; [done|].
  rewrite zeros_S. cbn [mbind list_bind]. cbn [mbind list_bind] in IH.
  rewrite IH, vscale_0 by done. simpl. by rewrite zeros_add.
Qed.

Lemma kron_eye_eye m n : kron (eye m) (eye n) = eye (m * n).
Proof.
  induction m as [|m IH]; [done|].
  unfold kron in *. cbn [eye mbind list_bind].
  change (S m * n) with (n + m * n). rewrite eye_app. f_equal.
  - apply Forall_fmap_ext_1. eapply Forall_impl; [apply eye_rows|].
    intros b Hb. cbn [mbind list_bind] in *.
    rewrite vscale_1 by done. f_equal.
    change (mbind (λ a, vscale a b) (zeros m)) with (zeros m ≫= (λ a, vscale a b)).
    by rewrite bind_zeros_vscale, Hb.
  - rewrite <- IH. clear IH. generalize (eye m). intros E.
    induction E as [|e E IHE]; [done|].
    cbn [fmap list_fmap mbind list_bind]. rewrite fmap_app. f_equal; [|exact IHE].
    rewrite <- list_fmap_compose.
    apply Forall_fmap_ext_1. eapply Forall_impl; [apply eye_rows|].
    intros b Hb. cbn [compose mbind list_bind].
    rewrite vscale_0 by done. by rewrite Hb.
Qed.

Lemma kron_cons (r : vector) (M N : matrix) :
  kron (r :: M) N
  = ((λ brow : vector, r ≫= (λ a, vscale a brow)) <$> N) ++ kron M N.
Proof. done. Qed.

Lemma kron_ones_1 (M : matrix) : kron M (ones_mat 1 1) = M.
Proof.
  induction M as [|r M IH]; [done|].
  rewrite kron_cons, IH. unfold ones_mat.
  cbn [replicate fmap list_fmap app]. f_equal.
  clear -Fth. induction r as [|a r IHr]; [done|].
  cbn [mbind list_bind]. cbn [mbind list_bind] in IHr. rewrite IHr.
  rewrite vscale_cons, vscale_nil. simpl. f_equal. ring.
Qed.

(** With as many basis functions as timesteps the piecewise-constant basis
    is the identity. *)
Lemma build_phi_piecewise_full (n : nat) :
  0 < n → build_phi_piecewise (Z.of_nat n) (Z.of_nat n) = Ok (eye n).
Proof.
  intros Hn. unfold build_phi_piecewise.
  destruct (Z.ltb_spec (Z.of_nat n) 0); [lia|].
  destruct (Z.leb_spec (Z.of_nat n) 0); [lia|].
  cbn [orb]. rewrite Nat2Z.id.
  replace ((n + n - 1) `div` n) with 1.
  2:{ apply Nat.div_unique with (r := n - 1); lia. }
  rewrite kron_ones_1. f_equal. apply take_ge. by rewrite length_eye.
Qed.

Lemma functions_recognized (s : string) :
  s ∈ recognized_names ↔ is_Some (functions s).
Proof.
  unfold functions, recognized_names. split.
  - rewrite !elem_of_cons, elem_of_nil.
    intros Hs. repeat case_decide; eauto. exfalso. intuition congruence.
  - intros [f Hf]. repeat case_decide; subst; try done;
      rewrite !elem_of_cons; eauto 10.
Qed.

(** C7 (amended). The names that [define_control_primitive] recognizes are
    the keys of [functions]: of the basis names of the spec, [RBF],
    [BERNSTEIN] and [FOURIER] are keys and [PIECEWISE] is not (the key is
    spelled [PIECEWEISE]).  A basis name that is not a key makes the call
    fail with the [KeyError] of the lookup, whatever the builders and the
    other entries of [param] are.  For a key the lookup succeeds and the
    builder found is called on [(nbData − 1, nbFct)]: the call returns
    [PSI = kron(phi, identity(nbVarPos))] when the builder returns [phi],
    and raises what the builder raises. *)
Theorem define_control_primitive_basis_name (param : gmap string value) :
  (∀ s, s ∈ spec_basis_names → s ∈ recognized_names ↔ s ≠ "PIECEWISE")
  ∧ (¬ (∃ s, param !! "basisName" = Some (VStr s) ∧ s ∈ recognized_names) →
     define_control_primitive param = Err KeyError)
  ∧ (∀ s nbData nbFct nbVarPos,
       param !! "basisName" = Some (VStr s) → s ∈ recognized_names →
       param !! "nbData" = Some (VInt nbData) →
       param !! "nbFct" = Some (VInt nbFct) →
       param !! "nbVarPos" = Some (VInt (Z.of_nat nbVarPos)) →
       ∃ build, functions s = Some build ∧
         define_control_primitive param
         = (phi ← build (nbData - 1)%Z nbFct;
            Ok (kron phi (eye nbVarPos), phi))).
Proof.
  split; [|split].
  - intros s. unfold spec_basis_names, recognized_names.
    rewrite !elem_of_cons, !elem_of_nil.
    intros [->|[->|[->|[->|[]]]]]; split; try done; intuition discriminate.
  - intros Hno. unfold define_control_primitive, get.
    destruct (param !! "basisName") as [[z|x|s]|] eqn:Hb; try done.
    cbn [mbind result_bind]. destruct (functions s) eqn:Hf; [|done].
    destruct Hno. exists s. split; [done|]. apply functions_recognized. eauto.
  - intros s nbData nbFct nbVarPos Hb Hs HT HC Hn.
    apply functions_recognized in Hs as [build Hf].
    exists build. split; [done|].
    unfold define_control_primitive, get_int, get.
    rewrite Hb. cbn [mbind result_bind]. rewrite Hf. cbn [mbind result_bind].
    rewrite HT, HC. cbn [mbind result_bind].
    destruct (build (nbData - 1)%Z nbFct) as [phi|e]; [|done].
    cbn [mbind result_bind]. rewrite Hn. cbn [mbind result_bind]. unfold as_dim.
    destruct (Z.ltb_spec (Z.of_nat nbVarPos) 0); [lia|]. by rewrite Nat2Z.id.
Qed.

(** C6. With the piecewise-constant basis and C = T−1 basis functions the
    matrix [PSI] built by [define_control_primitive] is the identity on the
    stacked controls, so the basis-compressed solve of [get_u_x] returns what
    the solve with [PSI] the identity returns. *)
Theorem piecewise_full_basis_lossless (param : gmap string value) (T nvp : nat)
    (start_pose muQ : vector) (Q R Su Sx : matrix) :
  param !! "basisName" = Some (VStr "PIECEWEISE") →
  param !! "nbData" = Some (VInt (Z.of_nat T)) →
  param !! "nbFct" = Some (VInt (Z.of_nat (T - 1))) →
  param !! "nbVarPos" = Some (VInt (Z.of_nat nvp)) →
  2 ≤ T →
  ∃ PSI phi,
    define_control_primitive param = Ok (PSI, phi)
    ∧ phi = eye (T - 1) ∧ PSI = eye ((T - 1) * nvp)
    ∧ get_u_x param start_pose muQ Q R Su Sx PSI
      = get_u_x param start_pose muQ Q R Su Sx (eye ((T - 1) * nvp)).
Proof.
  intros Hb HT HC Hn H2.
  assert (Hd : define_control_primitive param
               = Ok (kron (eye (T - 1)) (eye nvp), eye (T - 1))).
  { assert (Hf : functions "PIECEWEISE" = Some build_phi_piecewise) by done.
    unfold define_control_primitive, get_int, get.
    rewrite Hb. cbn [mbind result_bind]. rewrite Hf.
    rewrite HT, HC. cbn [mbind result_bind].
    replace (Z.of_nat T - 1)%Z with (Z.of_nat (T - 1)) by lia.
    rewrite build_phi_piecewise_full by lia. rewrite Hn.
    cbn [mbind result_bind]. unfold as_dim.
    destruct (Z.ltb_spec (Z.of_nat nvp) 0); [lia|]. by rewrite Nat2Z.id. }
  rewrite kron_eye_eye in Hd. by eexists _, _.
Qed.

End Basis.

(** ** lqt_cp.py: the effect of [uni_cp] on [param] *)

Section Effects.

Context {F : Type} `{!Scalar F, !LinalgInv F, !Primitive (F:=F), !LqtLib (F:=F)}.
Context `{!Float32 (F:=F)}.

Abbreviation vector := (list F).
Abbreviation matrix := (list (list F)).
Abbreviation config := (gmap string (value (F:=F))).

Lemma run_bind_reads {X Y} (f : config → result X) (k : X → PyM Y)
    (param : config) :
  run_bind (reads f) k param
  = match f param return config * result Y with
    | Ok a => k a param
    | Err e => (param, Err e)
    end.
Proof. done. Qed.

(** [uni_cp] leaves [param] as it is when it raises before the assignment
    and otherwise ends with [param] updated at ["nbPoints"]. *)
Lemma uni_cp_param (data : matrix) (param : config) :
  ((uni_cp data param).1 = param ∧ ¬ is_Ok (uni_cp data param).2)
  ∨ (uni_cp data param).1
    = <["nbPoints" := VInt (Z.of_nat (length data - 1))]> param.
Proof.
  unfold uni_cp. rewrite run_bind_reads.
  destruct (get_int param "nbVarPos") as [nbVarPos|]; [|left; split; [done|by intros [? ?]]].
  rewrite run_bind_reads.
  destruct (get_int param "nb_var" ≫= as_dim) as [nb_var|];
    [|left; split; [done|by intros [? ?]]].
  rewrite run_bind_reads.
  destruct (get_int param "nbVarPos") as [nbVarPos'|];
    [|left; split; [done|by intros [? ?]]].
  rewrite run_bind_reads.
  match goal with |- context [match ?r with Ok _ => _ | Err _ => _ end] =>
    destruct r as [start_pose|] end;
    [|left; split; [done|by intros [? ?]]].
  right. unfold run_bind at 1. unfold setitem at 1.
  rewrite length_drop, length_fmap.
  repeat (rewrite run_bind_reads;
          match goal with |- context [match ?r with Ok _ => _ | Err _ => _ end] =>
            destruct r as [?|] end; [|done];
          repeat match goal with p : _ * _ |- _ => destruct p end).
  done.
Qed.

(** C8 (amended). [uni_cp] changes the caller's [param] at one key only: every
    key other than ["nbPoints"] has after the call the value it had before,
    and a call that returns leaves ["nbPoints"] bound to the number of via
    points, [len(data) − 1]. *)
Theorem uni_cp_writes_nbPoints (data : matrix) (param : config) :
  (∀ k, k ≠ "nbPoints" → (uni_cp data param).1 !! k = param !! k)
  ∧ (is_Ok (uni_cp data param).2 →
     (uni_cp data param).1 !! "nbPoints"
     = Some (VInt (Z.of_nat (length data - 1)))).
Proof.
  destruct (uni_cp_param data param) as [[-> Hno] | ->].
  - split; [done|]. intros H. by destruct Hno.
  - split.
    + intros k Hk. by rewrite lookup_insert_ne.
    + intros _. by rewrite lookup_insert_eq.
Qed.

End Effects.

(** ** tpgmm.py: decoding and generation *)

Section Decoding.

Context {F : Type} `{!Scalar F, !ScalarFun F, !Pbdlib (F:=F)}.

Abbreviation vector := (list F).
Abbreviation matrix := (list (list F)).

Lemma viterbi_forward_length (model : hmm) logdelta (obs : list vector) :
  length (viterbi_forward model logdelta obs).1 = length obs.
Proof.
  revert logdelta. induction obs as [|o obs IH]; intros logdelta; [done|].
  cbn [viterbi_forward].
  destruct (viterbi_step model logdelta (obs_loglik model o)) as [psi logdelta'].
  specialize (IH logdelta').
  destruct (viterbi_forward model logdelta' obs) as [psis final].
  simpl in *. by rewrite IH.
Qed.

Lemma viterbi_backtrack_length psis q :
  length (viterbi_backtrack psis q) = S (length psis).
Proof. induction psis as [|psi psis IH]; [done|]. simpl. by rewrite IH. Qed.

(** The state path has one state per observation. *)
Lemma viterbi_length (model : hmm) (obs : list vector) :
  length (viterbi model obs) = length obs.
Proof.
  destruct obs as [|o obs]; [done|]. unfold viterbi.
  match goal with |- context [viterbi_forward model ?d obs] =>
    pose proof (viterbi_forward_length model d obs) as Hl;
    destruct (viterbi_forward model d obs) as [psis final] end.
  simpl in Hl. rewrite viterbi_backtrack_length. simpl. by rewrite Hl.
Qed.

End Decoding.

(** ** tpgmm.py: the frames *)

Section Frames.

Context {F : Type} `{!Scalar F, !LinalgInv F}.

Abbreviation vector := (list F).
Abbreviation matrix := (list (list F)).

Lemma py_index_0_inv {X} (l : list X) a : py_index l 0 = Ok a → l !! 0 = Some a.
Proof.
  destruct l as [|a' l]; [done|]. by intros [= <-].
Qed.

Lemma py_index_last_inv {X} (l : list X) a : py_index l (-1) = Ok a → last l = Some a.
Proof.
  unfold py_index. change (-1 <? 0)%Z with true. cbv beta iota zeta.
  destruct (Z.ltb_spec (Z.of_nat (length l) + -1) 0); [done|].
  destruct (l !! _) eqn:E; [|done]. intros [= <-].
  rewrite last_lookup, <- E. f_equal. lia.
Qed.

Lemma py_index_0_is_Ok {X} (l : list X) : l ≠ [] → is_Ok (py_index l 0).
Proof. destruct l as [|a l]; [done|]. intros _. by exists a. Qed.

Lemma py_index_last_is_Ok {X} (l : list X) : l ≠ [] → is_Ok (py_index l (-1)).
Proof.
  intros Hl. destruct (last l) as [a|] eqn:E.
  - exists a. by apply py_index_last.
  - apply last_None in E. done.
Qed.

(** What [get_A_b] returns for demonstration [i]: at every timestep the same
    linear part for both frames, and the start and the end pose, each
    followed by a zero velocity block, as the offsets. *)
Lemma get_A_b_inv (demos_x : list (list vector)) dA db dAx dbx i x :
  get_A_b demos_x = Ok (dA, db, dAx, dbx) → demos_x !! i = Some x →
  ∃ x_first x_last x0 p0,
    x !! 0 = Some x_first ∧ last x = Some x_last
    ∧ demos_x !! 0 = Some x0 ∧ x0 !! 0 = Some p0
    ∧ dAx !! i = Some (replicate (length x)
                         [kron (eye (length p0)) frame_A;
                          kron (eye (length p0)) frame_A])
    ∧ dbx !! i = Some (replicate (length x)
                         [x_first ++ zeros (length x_first);
                          x_last ++ zeros (length x_last)]).
Proof.
  unfold get_A_b. intros H Hx.
  destruct (mapM _ demos_x) as [Ab|] eqn:HAb; [|done]. cbn [mbind result_bind] in H.
  destruct (mapM _ (Ab.*1)) as [dAx'|] eqn:HAx; [|done].
  cbn [mbind result_bind mret result_ret] in H. injection H as <- <- <- <-.
  apply mapM_Ok_Forall2 in HAb, HAx.
  destruct (Forall2_lookup_l _ _ _ _ _ HAb Hx) as ([Ai bi] & HAbi & Hi).
  destruct (py_index x 0) as [x_first|] eqn:Hf; [|done].
  destruct (py_index x (-1)) as [x_last|] eqn:Hl; [|done].
  cbn [mbind result_bind] in Hi. unfold np_vstack in Hi.
  destruct (decide _) as [_|_]; [|done].
  cbn [mbind result_bind mret result_ret] in Hi. injection Hi as <- <-.
  assert (HAi : Ab.*1 !! i = Some (replicate (length x) [frame_A; frame_A])).
  { by rewrite list_lookup_fmap, HAbi. }
  destruct (Forall2_lookup_l _ _ _ _ _ HAx HAi) as (Axi & HAxi & Hk).
  destruct (py_index demos_x 0) as [x0|] eqn:H0; [|done].
  cbn [mbind result_bind] in Hk.
  destruct (py_index x0 0) as [p0|] eqn:Hp; [|done].
  cbn [mbind result_bind mret result_ret] in Hk. injection Hk as <-.
  exists x_first, x_last, x0, p0.
  split; [by apply py_index_0_inv|]. split; [by apply py_index_last_inv|].
  split; [by apply py_index_0_inv|]. split; [by apply py_index_0_inv|].
  split.
  - rewrite HAxi. f_equal. unfold kron4. by rewrite fmap_replicate.
  - rewrite list_lookup_fmap, list_lookup_fmap, HAbi. simpl. f_equal.
    by rewrite fmap_replicate.
Qed.

Lemma get_A_b_is_Ok (demos_x : list (list vector)) :
  (∀ x, x ∈ demos_x → x ≠ [] ∧ rectangular x) → is_Ok (get_A_b demos_x).
Proof.
  intros Hwf. unfold get_A_b.
  assert (Hne : ∀ x, x ∈ demos_x → x ≠ []) by (intros x Hx; by apply Hwf).
  destruct (mapM_is_Ok
    (λ x : list vector,
        x_first ← py_index x 0; x_last ← py_index x (-1);
        b ← np_vstack x_first x_last;
        mret (replicate (length x) [frame_A; frame_A],
              replicate (length x) b)) demos_x) as [Ab HAb].
  { intros x Hx. destruct (py_index_0_is_Ok x) as [a Ha]; [by apply Hne|].
    destruct (py_index_last_is_Ok x) as [b Hb]; [by apply Hne|].
    rewrite Ha, Hb. cbn [mbind result_bind]. unfold np_vstack.
    apply py_index_Ok_lookup in Ha as [ia Ha]. apply py_index_Ok_lookup in Hb as [ib Hb].
    destruct (Hwf x Hx) as [_ [D HD]].
    rewrite decide_True; [by eexists|].
    rewrite (Forall_lookup_1 _ _ _ _ HD Ha). by rewrite (Forall_lookup_1 _ _ _ _ HD Hb). }
  rewrite HAb. cbn [mbind result_bind].
  destruct (mapM_is_Ok
    (λ d : list (list matrix),
        x ← py_index demos_x 0; p ← py_index x 0;
        mret (kron4 (eye (length p)) d)) (Ab.*1)) as [dAx HAx].
  { intros d Hd. apply mapM_Ok_Forall2 in HAb.
    apply list_elem_of_fmap in Hd as ([d1 d2] & -> & Hd).
    apply list_elem_of_lookup in Hd as [i Hi].
    destruct (Forall2_lookup_r _ _ _ _ _ HAb Hi) as (x & Hx & _).
    assert (Hx0 : ∃ x0, demos_x !! 0 = Some x0).
    { apply lookup_lt_is_Some. apply lookup_lt_Some in Hx. lia. }
    destruct Hx0 as [x0 Hx0].
    rewrite (py_index_nonneg demos_x 0 x0) by done. cbn [mbind result_bind].
    destruct (py_index_0_is_Ok x0) as [p ->].
    { apply Hne. by apply list_elem_of_lookup_2 in Hx0. }
    by eexists. }
  rewrite HAx. by eexists.
Qed.

(** [poe] is a function of the transforms of the first timestep. *)
Lemma poe_first_timestep (model : hmm) dAx dAx' dbx dbx' demos_x demos_x'
    (demo_idx : Z) :
  first_timestep dAx demo_idx = first_timestep dAx' demo_idx →
  first_timestep dbx demo_idx = first_timestep dbx' demo_idx →
  poe model dAx dbx demos_x demo_idx = poe model dAx' dbx' demos_x' demo_idx.
Proof. unfold poe. by intros -> ->. Qed.

(** C5. The transforms built by [get_A_b] are constant over the trajectory:
    at every timestep [t] of a demonstration [x] the linear part of both
    frames is the fixed matrix [kron(eye(D), [[1, 0], [-0, -1]])], with [D]
    the dimension of the first point of the first demonstration, and the
    offsets are the start pose of [x] for the first frame and its end pose
    for the second frame, each with a zero velocity block; [get_A_b]
    returns on non-empty demonstrations (arrays of points of one dimension
    each); and [poe] reads the transforms of the first timestep only. *)
Theorem get_A_b_constant_frames (demos_x : list (list vector)) :
  ((∀ x, x ∈ demos_x → x ≠ [] ∧ rectangular x) → is_Ok (get_A_b demos_x))
  ∧ (∀ dA db dAx dbx, get_A_b demos_x = Ok (dA, db, dAx, dbx) →
       ∀ i x, demos_x !! i = Some x →
       ∃ x0 p0 x_first x_last,
         demos_x !! 0 = Some x0 ∧ x0 !! 0 = Some p0
         ∧ x !! 0 = Some x_first ∧ last x = Some x_last
         ∧ ∀ t, t < length x →
             dAx !! i ≫= (.!! t)
             = Some [kron (eye (length p0)) frame_A;
                     kron (eye (length p0)) frame_A]
             ∧ dbx !! i ≫= (.!! t)
               = Some [x_first ++ zeros (length x_first);
                       x_last ++ zeros (length x_last)])
  ∧ (∀ (model : hmm) dAx dAx' dbx dbx' demos_x' demos_x'' demo_idx,
       first_timestep dAx demo_idx = first_timestep dAx' demo_idx →
       first_timestep dbx demo_idx = first_timestep dbx' demo_idx →
       poe model dAx dbx demos_x' demo_idx
       = poe model dAx' dbx' demos_x'' demo_idx).
Proof.
  split; [apply get_A_b_is_Ok|]. split; [|intros; by apply poe_first_timestep].
  intros dA db dAx dbx H i x Hx.
  destruct (get_A_b_inv _ _ _ _ _ _ _ H Hx)
    as (x_first & x_last & x0 & p0 & Hf & Hl & H0 & Hp & HA & Hb).
  exists x0, p0, x_first, x_last.
  do 4 (split; [done|]). intros t Ht.
  rewrite HA, Hb. cbn [mbind option_bind].
  by rewrite !lookup_replicate_2.
Qed.

End Frames.

(** ** tpgmm.py: dimensions of the observations and of the fused model *)

Section Dimensions.

Context {F : Type} `{!Scalar F, !LinalgInv F}.
Hypothesis linalg_inv_spec :
  ∀ M N : list (list F), linalg_inv M = Ok N → is_inverse M N.

Abbreviation vector := (list F).
Abbreviation matrix := (list (list F)).

Lemma length_vsub (u v : vector) : length (vsub u v) = length u `min` length v.
Proof. apply length_zip_with. Qed.

Lemma length_vdivs (v : vector) c : length (vdivs v c) = length v.
Proof. apply length_fmap. Qed.

Lemma get_dx_at_length D (x : list vector) j d :
  Forall (λ p, length p = D) x → get_dx_at x j = Ok d → length d = D.
Proof.
  intros HD. unfold get_dx_at.
  assert (Hsub : ∀ k1 k2 d',
            (a ← py_index x k1; b ← py_index x k2; np_sub a b) = Ok d' →
            length d' = D).
  { intros k1 k2 d'.
    destruct (py_index x k1) as [a|] eqn:Ha; [|done].
    destruct (py_index x k2) as [b|] eqn:Hb; [|done].
    cbn [mbind result_bind].
    apply py_index_Ok_lookup in Ha as [ia Ha]. apply py_index_Ok_lookup in Hb as [ib Hb].
    pose proof (Forall_lookup_1 _ _ _ _ HD Ha) as Hla.
    pose proof (Forall_lookup_1 _ _ _ _ HD Hb) as Hlb.
    simpl in Hla, Hlb.
    rewrite np_sub_Ok by congruence. intros [= <-].
    rewrite length_vsub. lia. }
  destruct (_ && _).
  - destruct (py_index x (j + 1)) as [a|] eqn:Ha; [|done].
    destruct (py_index x (j - 1)) as [b|] eqn:Hb; [|done].
    cbn [mbind result_bind].
    destruct (np_sub a b) as [d'|] eqn:Hd; [|done].
    intros [= <-]. rewrite !length_vdivs.
    apply (Hsub (j + 1)%Z (j - 1)%Z). by rewrite Ha, Hb.
  - destruct (_ =? _)%Z.
    + destruct (a ← py_index x j; b ← py_index x (j - 1); np_sub a b)
        as [d'|] eqn:Hd; [|done].
      intros [= <-]. rewrite length_vdivs. by apply Hsub in Hd.
    + destruct (a ← py_index x (j + 1); b ← py_index x j; np_sub a b)
        as [d'|] eqn:Hd; [|done].
      intros [= <-]. rewrite length_vdivs. by apply Hsub in Hd.
Qed.

Lemma length_bind_vscale (r b : vector) :
  length (r ≫= (λ a, vscale a b)) = length r * length b.
Proof.
  induction r as [|a r IH]; [done|].
  cbn [mbind list_bind] in *. rewrite length_app, IH, length_vscale. simpl. lia.
Qed.

Lemma kron_shape r1 c1 r2 c2 (M N : matrix) :
  has_shape r1 c1 M → has_shape r2 c2 N → has_shape (r1 * r2) (c1 * c2) (kron M N).
Proof.
  intros [HM1 HM2] [HN1 HN2]. subst r1. induction HM2 as [|r M Hr HM IH].
  - split; [done|constructor].
  - change (kron (r :: M) N)
      with (((λ brow : vector, r ≫= (λ a, vscale a brow)) <$> N) ++ kron M N).
    change (length (r :: M) * r2) with (r2 + length M * r2).
    apply (has_shape_app (F:=F)); [|done]. split; [by rewrite length_fmap|].
    apply Forall_fmap. eapply Forall_impl; [exact HN2|].
    intros b Hb. simpl. by rewrite length_bind_vscale, Hr, Hb.
Qed.

Lemma frame_A_shape : has_shape 2 2 (frame_A (F:=F)).
Proof. split; [done|]. by repeat constructor. Qed.

Lemma length_vecmat r c (x : vector) (M : matrix) :
  has_shape r c M → 0 < r → length (vecmat x M) = c.
Proof.
  intros HM Hr. unfold vecmat. rewrite (has_shape_ncols r c) by done.
  apply length_vecmat_aux, HM.
Qed.

Lemma to_frames_dims r c (E : matrix) (b0 b1 : vector) (xs : list vector) T :
  has_shape r c E → 0 < r → length xs = T →
  length (to_frames xs (replicate T [E; E]) (replicate T [b0; b1])) = T
  ∧ Forall (λ fr : list vector, length (concat fr) = c * 2)
           (to_frames xs (replicate T [E; E]) (replicate T [b0; b1])).
Proof.
  intros HE Hr HT. subst T. unfold to_frames.
  induction xs as [|x xs [IH1 IH2]]; [split; [done|constructor]|].
  cbn [length replicate zip_with fmap list_fmap]. split.
  - simpl. by rewrite IH1.
  - constructor; [|done]. cbn [concat].
    rewrite !length_app, !(length_vecmat r c) by done. simpl. lia.
Qed.

Lemma length_concat_blocks {X} m (d : list (list X)) :
  Forall (λ fr, length fr = m) d → length (concat d) = length d * m.
Proof.
  induction 1 as [|fr d Hfr Hd IH]; [done|].
  simpl. rewrite length_app, IH, Hfr. lia.
Qed.

Lemma length_concat_concat {X} m (d : list (list (list X))) :
  Forall (λ fr, length (concat fr) = m) d →
  length (concat (concat d)) = length d * m.
Proof.
  induction 1 as [|fr d Hfr Hd IH]; [done|].
  simpl. rewrite concat_app, length_app, IH, Hfr. lia.
Qed.

Lemma get_A_b_lengths (demos_x : list (list vector)) dA db dAx dbx :
  get_A_b demos_x = Ok (dA, db, dAx, dbx) →
  length dAx = length demos_x ∧ length dbx = length demos_x.
Proof.
  unfold get_A_b. intros H.
  destruct (mapM _ demos_x) as [Ab|] eqn:HAb; [|done]. cbn [mbind result_bind] in H.
  destruct (mapM _ (Ab.*1)) as [dAx'|] eqn:HAx; [|done].
  cbn [mbind result_bind mret result_ret] in H. injection H as <- <- <- <-.
  apply mapM_Ok_Forall2, Forall2_length in HAb, HAx.
  rewrite length_fmap in HAx. rewrite !length_fmap. lia.
Qed.

(** The observations of [get_related_matrix] on demonstrations of points of
    dimension [D]. *)
Lemma get_related_matrix_Ok D (demos_x : list (list vector)) :
  1 ≤ D →
  Forall (λ x, x ≠ [] ∧ Forall (λ p : vector, length p = D) x) demos_x →
  ∃ demos_xdx dA db dAx dbx demos_xdx_f demos_xdx_augm,
    get_related_matrix demos_x
    = Ok (demos_xdx, dAx, dbx, demos_xdx_f, demos_xdx_augm)
    ∧ get_A_b demos_x = Ok (dA, db, dAx, dbx)
    ∧ Forall2 (λ (x : list vector) (obs : list vector),
                 length obs = length x
                 ∧ Forall (λ o, length o = 2 * D * 2) obs)
              demos_x demos_xdx_augm.
Proof.
  intros HD Hwf.
  assert (Hrect : Forall rectangular demos_x).
  { eapply Forall_impl; [exact Hwf|]. intros x [_ Hx]. by exists D. }
  destruct (get_dx_is_Ok demos_x Hrect) as [demos_dx Hdx].
  destruct (get_A_b_is_Ok demos_x) as [[[[dA db] dAx] dbx] HAb].
  { intros x Hx. rewrite Forall_forall in Hwf, Hrect. split; [by apply Hwf|by apply Hrect]. }
  destruct (get_A_b_lengths _ _ _ _ _ HAb) as [HlA Hlb].
  pose proof Hdx as Hdx2. apply mapM_Ok_Forall2, Forall2_length in Hdx2.
  set (demos_xdx := zip_with hstack demos_x demos_dx).
  set (demos_xdx_f := zip_with (λ _x (Ab : list (list matrix) * list (list vector)),
                         to_frames _x Ab.1 Ab.2) demos_xdx (zip dAx dbx)).
  (* what every demonstration contributes *)
  assert (Helem : ∀ i x, demos_x !! i = Some x →
            ∃ dx x_first x_last,
              demos_xdx !! i = Some (hstack x dx) ∧ length dx = length x
              ∧ Forall (λ d : vector, length d = D) dx
              ∧ demos_xdx_f !! i
                = Some (to_frames (hstack x dx)
                         (replicate (length x)
                            [kron (eye D) frame_A; kron (eye D) frame_A])
                         (replicate (length x)
                            [x_first ++ zeros (length x_first);
                             x_last ++ zeros (length x_last)]))).
  { intros i x Hx.
    destruct (get_dx_Ok_inv _ _ _ _ Hdx Hx) as (dx & Hdxi & Hlen & Hat).
    destruct (get_A_b_inv _ _ _ _ _ _ _ HAb Hx)
      as (x_first & x_last & x0 & p0 & _ & _ & H0 & Hp0 & HAi & Hbi).
    assert (Hp0D : length p0 = D).
    { destruct (Forall_lookup_1 _ _ _ _ Hwf H0) as [_ Hx0].
      by apply (Forall_lookup_1 _ _ _ _ Hx0 Hp0). }
    rewrite Hp0D in HAi.
    assert (Hxdx : demos_xdx !! i = Some (hstack x dx)).
    { unfold demos_xdx. by rewrite lookup_zip_with, Hx, Hdxi. }
    exists dx, x_first, x_last. split; [done|].
    split; [done|]. split.
    { apply Forall_lookup_2. intros j d Hj.
      destruct (Hat j) as (d' & Hd' & Hgd); [apply lookup_lt_Some in Hj; lia|].
      rewrite Hj in Hd'. injection Hd' as <-.
      apply (get_dx_at_length D x (Z.of_nat j) d); [|done].
      by apply (Forall_lookup_1 _ _ _ _ Hwf Hx). }
    unfold demos_xdx_f. rewrite lookup_zip_with, Hxdx. cbn [mbind option_bind].
    pose proof (proj2 (lookup_zip_Some dAx dbx i _ _) (conj HAi Hbi)) as Hz.
    by rewrite Hz. }
  assert (Hlen_f : length demos_xdx_f = length demos_x).
  { unfold demos_xdx_f, demos_xdx. rewrite !length_zip_with. lia. }
  assert (HE : has_shape (D * 2) (D * 2) (kron (eye D) (frame_A (F:=F)))).
  { apply kron_shape; [apply eye_shape|apply frame_A_shape]. }
  (* the reshape of every demonstration *)
  assert (Hrows : ∀ i x d, demos_x !! i = Some x → demos_xdx_f !! i = Some d →
            ∃ obs,
              (xdx ← py_index demos_xdx 0; p ← py_index xdx 0;
               reshape_rows (length p * 2) (concat (concat d))) = Ok obs
              ∧ length obs = length x ∧ Forall (λ o : vector, length o = 2 * D * 2) obs).
  { intros i x d Hx Hd.
    assert (Hx0 : ∃ x0, demos_x !! 0 = Some x0).
    { apply lookup_lt_is_Some. apply lookup_lt_Some in Hx. lia. }
    destruct Hx0 as [x0 Hx0].
    destruct (Helem 0 x0 Hx0) as (dx0 & _ & _ & Hxdx0 & Hl0 & HD0 & _).
    destruct (Forall_lookup_1 _ _ _ _ Hwf Hx0) as [Hne0 Hx0D].
    destruct x0 as [|p0 x0]; [done|]. destruct dx0 as [|d0 dx0]; [done|].
    rewrite (py_index_nonneg demos_xdx 0 _ ltac:(done) Hxdx0).
    cbn [mbind result_bind hstack zip_with].
    change (py_index ((p0 ++ d0) :: zip_with app x0 dx0) 0) with (Ok (p0 ++ d0)).
    cbn [mbind result_bind].
    apply Forall_cons in Hx0D as [Hp0 _]. apply Forall_cons in HD0 as [Hd0 _].
    rewrite length_app, Hp0, Hd0.
    destruct (Helem i x Hx) as (dx & xf & xl & Hxdx & Hl & HDx & Hf).
    rewrite Hf in Hd. injection Hd as <-.
    destruct (to_frames_dims (D * 2) (D * 2) _ (xf ++ zeros (length xf))
                (xl ++ zeros (length xl)) (hstack x dx) (length x) HE)
      as [Hlt Hft]; [lia| |].
    { unfold hstack. rewrite length_zip_with. lia. }
    destruct (reshape_rows_chunks ((D + D) * 2) (length x)
                (concat (concat (to_frames (hstack x dx)
                   (replicate (length x) [kron (eye D) frame_A; kron (eye D) frame_A])
                   (replicate (length x) [xf ++ zeros (length xf);
                                          xl ++ zeros (length xl)])))))
      as (obs & Hobs & Hlobs & Hfobs & _); [lia| |].
    { rewrite (length_concat_concat (D * 2 * 2)) by done. rewrite Hlt. lia. }
    exists obs. split; [done|]. split; [done|].
    eapply Forall_impl; [exact Hfobs|]. intros o Ho. simpl in Ho. lia. }
  destruct (mapM_is_Ok
    (λ d : list (list vector),
        xdx ← py_index demos_xdx 0; p ← py_index xdx 0;
        reshape_rows (length p * 2) (concat (concat d))) demos_xdx_f)
    as [augm Haugm].
  { intros d Hd. apply list_elem_of_lookup in Hd as [i Hi].
    destruct (lookup_lt_is_Some_2 demos_x i) as [x Hx].
    { apply lookup_lt_Some in Hi. lia. }
    destruct (Hrows i x d Hx Hi) as (obs & Hobs & _). by exists obs. }
  exists demos_xdx, dA, db, dAx, dbx, demos_xdx_f, augm.
  split.
  { unfold get_related_matrix. rewrite Hdx. cbn [mbind result_bind].
    rewrite HAb. cbn [mbind result_bind].
    fold demos_xdx. fold demos_xdx_f. by rewrite Haugm. }
  split; [done|].
  apply mapM_Ok_Forall2 in Haugm.
  apply Forall2_same_length_lookup_2.
  { apply Forall2_length in Haugm. lia. }
  intros i x obs Hx Hobs.
  destruct (Forall2_lookup_r _ _ _ _ _ Haugm Hobs) as (d & Hd & Hfd).
  destruct (Hrows i x d Hx Hd) as (obs' & Hobs' & Hl & Hf).
  rewrite Hfd in Hobs'. by injection Hobs' as <-.
Qed.

(** *** The product of the frame models *)

Lemma is_inverse_sym (M N : matrix) : is_inverse M N → is_inverse N M.
Proof. intros (n & HM & HN & H1 & H2). by exists n. Qed.

Lemma gaussian_product_inv (c1 c2 : vector * matrix) m S :
  gaussian_product c1 c2 = Ok (m, S) →
  ∃ P1 P2, is_inverse c1.2 P1 ∧ is_inverse c2.2 P2 ∧ is_inverse S (madd P1 P2)
           ∧ m = matvec S (vadd (matvec P1 c1.1) (matvec P2 c2.1)).
Proof.
  unfold gaussian_product.
  destruct (linalg_inv c1.2) as [P1|] eqn:H1; [|done].
  destruct (linalg_inv c2.2) as [P2|] eqn:H2; [|done].
  cbn [mbind result_bind].
  destruct (linalg_inv (madd P1 P2)) as [S'|] eqn:H3; [|done].
  cbn [mbind result_bind mret result_ret]. intros [= <- <-].
  exists P1, P2. split; [by apply linalg_inv_spec|].
  split; [by apply linalg_inv_spec|]. split; [|done].
  by apply is_inverse_sym, linalg_inv_spec.
Qed.

Lemma gmm_mul_inv (g1 g2 prod : gmm) k m S :
  gmm_mul g1 g2 = Ok prod → mu prod !! k = Some m → sigma prod !! k = Some S →
  ∃ m1 S1 m2 S2,
    mu g1 !! k = Some m1 ∧ sigma g1 !! k = Some S1
    ∧ mu g2 !! k = Some m2 ∧ sigma g2 !! k = Some S2
    ∧ gaussian_product (m1, S1) (m2, S2) = Ok (m, S).
Proof.
  unfold gmm_mul. destruct (mapM _ _) as [comps|] eqn:Hc; [|done].
  cbn [mbind result_bind mret result_ret]. intros [= <-]. cbn [mu sigma].
  rewrite !list_lookup_fmap. intros Hm HS.
  destruct (comps !! k) as [[m' S']|] eqn:Hk; [|done].
  simpl in Hm, HS. injection Hm as ->. injection HS as ->.
  apply mapM_Ok_Forall2 in Hc.
  destruct (Forall2_lookup_r _ _ _ _ _ Hc Hk) as ([[m1 S1] [m2 S2]] & Hz & Hg).
  apply lookup_zip_Some in Hz as [Hz1 Hz2].
  apply lookup_zip_Some in Hz1 as [? ?]. apply lookup_zip_Some in Hz2 as [? ?].
  by exists m1, S1, m2, S2.
Qed.

Lemma frame_model_lookup (A : matrix) (b : vector) lo hi (g : gmm) k m S :
  mu (frame_model A b lo hi g) !! k = Some m →
  sigma (frame_model A b lo hi g) !! k = Some S →
  ∃ mk Sk, mu g !! k = Some mk ∧ sigma g !! k = Some Sk
           ∧ (m, S) = frame_component A b lo hi (mk, Sk).
Proof.
  unfold frame_model, lintrans, marginal_model. cbn [mu sigma].
  rewrite !list_lookup_fmap. intros Hm HS.
  destruct (mu g !! k) as [mk|]; [|done].
  destruct (sigma g !! k) as [Sk|]; [|done].
  simpl in Hm, HS. injection Hm as <-. injection HS as <-.
  by exists mk, Sk.
Qed.


(** The dimension of the components of a product of frame models. *)
Lemma gmm_mul_dims n (g1 g2 prod : gmm) :
  Forall (λ S : matrix, length S = n) (sigma g1) →
  Forall (λ S : matrix, length S = n) (sigma g2) →
  gmm_mul g1 g2 = Ok prod →
  Forall (λ m : vector, length m = n) (mu prod)
  ∧ Forall (has_shape n n) (sigma prod).
Proof.
  intros H1 H2 Hp.
  assert (Hk : ∀ k m S, mu prod !! k = Some m → sigma prod !! k = Some S →
                        length m = n ∧ has_shape n n S).
  { intros k m S Hm HS.
    destruct (gmm_mul_inv _ _ _ _ _ _ Hp Hm HS)
      as (m1 & S1 & m2 & S2 & _ & HS1 & _ & HS2 & Hg).
    destruct (gaussian_product_inv _ _ _ _ Hg)
      as (P1 & P2 & (n1 & [E1 _] & [E1' F1'] & _) & (n2 & [E2 _] & [E2' F2'] & _)
          & (n3 & HS3 & [E3 _] & _) & ->).
    cbn [fst snd] in *.
    rewrite (Forall_lookup_1 _ _ _ _ H1 HS1) in E1.
    rewrite (Forall_lookup_1 _ _ _ _ H2 HS2) in E2. subst n1 n2.
    unfold madd in E3. rewrite length_zip_with, E1', E2', Nat.min_id in E3. subst n3.
    split; [|done]. rewrite length_matvec. apply HS3. }
  unfold gmm_mul in Hp. destruct (mapM _ _) as [comps|]; [|done].
  cbn [mbind result_bind mret result_ret] in Hp. injection Hp as <-.
  cbn [mu sigma] in *. split; apply Forall_lookup_2; intros k y Hy.
  - rewrite list_lookup_fmap in Hy.
    destruct (comps !! k) as [[m S]|] eqn:Hc; [|done]. injection Hy as <-.
    apply (Hk k m S); by rewrite list_lookup_fmap, Hc.
  - rewrite list_lookup_fmap in Hy.
    destruct (comps !! k) as [[m S]|] eqn:Hc; [|done]. injection Hy as <-.
    apply (Hk k m S); by rewrite list_lookup_fmap, Hc.
Qed.

Lemma frame_model_sigma_rows (A : matrix) (b : vector) lo hi (g : gmm) :
  Forall (λ S : matrix, length S = length A) (sigma (frame_model A b lo hi g)).
Proof.
  unfold frame_model, lintrans. cbn [sigma]. apply Forall_fmap, Forall_true.
  intros S. simpl. unfold matmul. by rewrite !length_fmap.
Qed.


End Dimensions.

(** ** The embedding on concrete inputs, in rational arithmetic *)

Lemma Qc_eqb_eq (x y : Qc) : Qc_eqb x y = true → x = y.
Proof.
  unfold Qc_eqb. intros H. apply Qc_is_canon. by apply Qeq_bool_iff.
Qed.

Lemma Qc_mat_eqb_eq (M N : list (list Qc)) : Qc_mat_eqb M N = true → M = N.
Proof.
  unfold Qc_mat_eqb. intros H. apply andb_prop in H as [Hl H].
  apply Nat.eqb_eq in Hl. revert N Hl H.
  induction M as [|r M IH]; intros [|s N] Hl H; try done.
  simpl in H. apply andb_prop in H as [Hr H]. apply andb_prop in Hr as [Hrl Hr].
  apply Nat.eqb_eq in Hrl. f_equal.
  - clear -Hrl Hr. revert s Hrl Hr.
    induction r as [|a r IHr]; intros [|b s] Hl H; try done.
    simpl in H. apply andb_prop in H as [Hab H]. f_equal.
    + by apply Qc_eqb_eq.
    + apply IHr; [simpl in Hl; lia|done].
  - apply IH; [simpl in Hl; lia|done].
Qed.

(** The inverse of the rational instance meets the contract of
    [np.linalg.inv]. *)
Lemma Qc_linalg_inv_spec (M N : list (list Qc)) :
  linalg_inv M = Ok N → is_inverse M N.
Proof.
  unfold linalg_inv, Qc_linalg_inv.
  destruct (Qc_gauss_jordan M) as [N'|]; [|done].
  destruct (_ && _) eqn:H; [|done]. intros [= <-].
  repeat (apply andb_prop in H as [H ?]).
  exists (length M). repeat split.
  - apply Forall_forall. intros r Hr. rewrite forallb_forall in H.
    apply Nat.eqb_eq, H. by apply list_elem_of_In.
  - by apply Nat.eqb_eq.
  - apply Forall_forall. intros r Hr.
    match goal with H : forallb _ N' = true |- _ => rewrite forallb_forall in H;
      apply Nat.eqb_eq, H end. by apply list_elem_of_In.
  - by apply Qc_mat_eqb_eq.
  - by apply Qc_mat_eqb_eq.
Qed.

Ltac run := vm_compute; reflexivity.

(** C4 at the first demonstration. *)
Lemma get_dx_finite_differences_witness :
  ∃ demos_dx dx,
    get_dx demos_ex = Ok demos_dx ∧ demos_dx !! 0 = Some dx
    ∧ (∀ j xp xn, 0 < j < 4 - 1 →
         [[q 0 1; q 0 1]; [q 1 1; q 2 1]; [q 3 1; q 5 1]; [q 4 1; q 4 1]] !! (j - 1) = Some xp →
         [[q 0 1; q 0 1]; [q 1 1; q 2 1]; [q 3 1; q 5 1]; [q 4 1; q 4 1]] !! (j + 1) = Some xn →
         dx !! j = Some (vdivs (vdivs (vsub xn xp) two) c0_01))
    ∧ (∀ x0 x1,
         [[q 0 1; q 0 1]; [q 1 1; q 2 1]; [q 3 1; q 5 1]; [q 4 1; q 4 1]] !! 0 = Some x0 →
         [[q 0 1; q 0 1]; [q 1 1; q 2 1]; [q 3 1; q 5 1]; [q 4 1; q 4 1]] !! 1 = Some x1 →
         dx !! 0 = Some (vdivs (vsub x1 x0) c0_01))
    ∧ (∀ xa xb,
         [[q 0 1; q 0 1]; [q 1 1; q 2 1]; [q 3 1; q 5 1]; [q 4 1; q 4 1]] !! (4 - 2) = Some xa →
         [[q 0 1; q 0 1]; [q 1 1; q 2 1]; [q 3 1; q 5 1]; [q 4 1; q 4 1]] !! (4 - 1) = Some xb →
         dx !! (4 - 1) = Some (vdivs (vsub xb xa) c0_01)).
Proof.
  apply (get_dx_finite_differences demos_ex 0
           [[q 0 1; q 0 1]; [q 1 1; q 2 1]; [q 3 1; q 5 1]; [q 4 1; q 4 1]]).
  - repeat constructor; exists 2; repeat constructor.
  - reflexivity.
  - simpl. lia.
Defined.

(** C10 on the concrete demonstrations. *)
Lemma get_dx_total_witness :
  ∃ demos_dx,
    get_dx demos_ex = Ok demos_dx
    ∧ Forall2 (λ x dx : list (list Qc), length dx = length x) demos_ex demos_dx
    ∧ ∀ i p, demos_ex !! i = Some [p] → demos_dx !! i = Some [zeros (length p)].
Proof.
  apply (@get_dx_total Qc Qc_scalar Qcft demos_ex).
  repeat constructor; exists 2; repeat constructor.
Defined.

Lemma lqt_config_ex : lqt_config param_ex 3 4 2 2 (q 1 100).
Proof. repeat split; try run; lia. Qed.

(** C3 (amended) on the planar double integrator: with two basis functions
    over the two control steps the call returns the trajectory; with three,
    [np.linalg.inv] raises and so does the call. *)
Lemma get_u_x_trajectory_witness :
  (∃ u_hat x_hat,
     get_u_x param_ex start_pose_ex muQ_ex Q_ex R_ex Su_ex Sx_ex PSI_ex
     = Ok (u_hat, x_hat)
     ∧ length u_hat = 3 - 1 ∧ Forall (λ u, length u = 2) u_hat
     ∧ length x_hat = 3 ∧ Forall (λ x, length x = 4) x_hat
     ∧ x_hat !! 0 = Some start_pose_ex
     ∧ (∀ t x u, x_hat !! t = Some x → u_hat !! t = Some u →
          x_hat !! S t = Some (vadd (matvec A_ex x) (matvec B_ex u)))
     ∧ concat x_hat = vadd (matvec Sx_ex start_pose_ex) (matvec Su_ex (concat u_hat)))
  ∧ get_u_x param_ex start_pose_ex muQ_ex Q_ex R_ex Su_ex Sx_ex PSI_over
    = Err LinAlgError.
Proof.
  split.
  - refine (proj1 (@get_u_x_trajectory Qc Qc_scalar Qc_linalg_inv Qcft param_ex
                     3 4 2 2 4 (q 1 100) start_pose_ex muQ_ex Q_ex R_ex PSI_ex
                     A_ex B_ex Su_ex Sx_ex lqt_config_ex _ _ _ _ _ _ _ _ _)
                  normal_inv_ex _).
    + lia.
    + reflexivity.
    + reflexivity.
    + apply eye_shape.
    + apply mscale_shape, eye_shape.
    + vm_compute. split; [reflexivity|repeat constructor].
    + run.
    + run.
    + run.
    + run.
  - refine (proj2 (@get_u_x_trajectory Qc Qc_scalar Qc_linalg_inv Qcft param_ex
                     3 4 2 2 6 (q 1 100) start_pose_ex muQ_ex Q_ex R_ex PSI_over
                     A_ex B_ex Su_ex Sx_ex lqt_config_ex _ _ _ _ _ _ _ _ _)
                  LinAlgError _).
    + lia.
    + reflexivity.
    + reflexivity.
    + apply eye_shape.
    + apply mscale_shape, eye_shape.
    + vm_compute. split; [reflexivity|repeat constructor].
    + run.
    + run.
    + run.
    + run.
Defined.

(** C3 as stated fails: with three piecewise basis functions over the two
    control steps of the horizon, [PSI] has two columns of zeros and so has
    the normal matrix; [np.linalg.inv] raises on it and [get_u_x] raises
    instead of returning. *)
Lemma get_u_x_singular_counterexample :
  define_control_primitive param_over = Ok (PSI_over, phi_over)
  ∧ Qc_mat_eqb phi_over [[q 1 1; q 0 1; q 0 1]; [q 0 1; q 1 1; q 0 1]] = true
  ∧ set_dynamical_system param_over = Ok (Su_ex, Sx_ex)
  ∧ length PSI_over = 2 * (3 - 1)
  ∧ forallb (λ row : list Qc, Qc_eqb (default 1%Qc (row !! 4)) 0%Qc)
            (normal_matrix PSI_over Su_ex Q_ex R_ex) = true
  ∧ length (normal_matrix PSI_over Su_ex Q_ex R_ex) = 6
  ∧ get_u_x param_over start_pose_ex muQ_ex Q_ex R_ex Su_ex Sx_ex PSI_over
    = Err LinAlgError.
Proof. repeat split; run. Qed.

(** C6 on the configuration with two basis functions over two steps. *)
Lemma piecewise_full_basis_lossless_witness :
  ∃ PSI phi,
    define_control_primitive param_ex = Ok (PSI, phi)
    ∧ phi = eye (3 - 1) ∧ PSI = eye ((3 - 1) * 2)
    ∧ get_u_x param_ex start_pose_ex muQ_ex Q_ex R_ex Su_ex Sx_ex PSI
      = get_u_x param_ex start_pose_ex muQ_ex Q_ex R_ex Su_ex Sx_ex
          (eye ((3 - 1) * 2)).
Proof.
  apply (@piecewise_full_basis_lossless Qc Qc_scalar Qc_linalg_inv Qc_primitive
           Qcft param_ex 3 2 start_pose_ex muQ_ex Q_ex R_ex Su_ex Sx_ex).
  - run.
  - run.
  - run.
  - run.
  - lia.
Defined.

(** C7 as stated fails: [PIECEWISE] is a recognized basis name of the spec,
    and with it [define_control_primitive] raises the [KeyError] of the
    lookup instead of constructing [PSI]. *)
Lemma define_control_primitive_PIECEWISE_counterexample :
  "PIECEWISE" ∈ spec_basis_names
  ∧ define_control_primitive (<["basisName" := VStr "PIECEWISE"]> param_ex)
    = Err KeyError
  ∧ ¬ (∀ s, s ∈ spec_basis_names →
         is_Ok (define_control_primitive (<["basisName" := VStr s]> param_ex))).
Proof.
  assert (Hin : "PIECEWISE" ∈ spec_basis_names) by (vm_compute; left).
  assert (He : define_control_primitive (<["basisName" := VStr "PIECEWISE"]> param_ex)
               = Err KeyError) by run.
  split; [done|split; [done|]].
  intros Hall. destruct (Hall _ Hin) as [r Hr]. rewrite He in Hr. discriminate Hr.
Qed.

(** C7 (amended): the key ["PIECEWEISE"] is found and its builder is used;
    a name that is no key raises at the lookup. *)
Lemma define_control_primitive_basis_name_witness :
  (∃ build, functions "PIECEWEISE" = Some build ∧
     define_control_primitive param_ex
     = (phi ← build (3 - 1)%Z 2%Z; Ok (kron phi (eye 2), phi)))
  ∧ define_control_primitive (<["basisName" := VStr "SPLINE"]> param_ex)
    = Err KeyError.
Proof.
  split.
  - apply (proj2 (proj2 (@define_control_primitive_basis_name Qc Qc_scalar
                           Qc_primitive param_ex)) "PIECEWEISE" 3%Z 2%Z 2).
    + run.
    + vm_compute. left.
    + run.
    + run.
    + run.
  - apply (proj1 (proj2 (@define_control_primitive_basis_name Qc Qc_scalar
                           Qc_primitive
                           (<["basisName" := VStr "SPLINE"]> param_ex)))).
    intros (s & Hs & Hin). rewrite lookup_insert_eq in Hs. injection Hs as <-.
    vm_compute in Hin. repeat (apply elem_of_cons in Hin as [Hin|Hin]; [done|]).
    by apply elem_of_nil in Hin.
Defined.

(** C8 as stated fails: the call binds the key ["nbPoints"], which the
    caller's dictionary did not hold. *)
Lemma uni_cp_mutates_param_counterexample :
  is_Ok (uni_cp data_ex param_ex).2
  ∧ param_ex !! "nbPoints" = None
  ∧ (uni_cp data_ex param_ex).1 !! "nbPoints" = Some (VInt 2)
  ∧ (uni_cp data_ex param_ex).1 ≠ param_ex.
Proof.
  assert (H1 : param_ex !! "nbPoints" = None) by run.
  assert (H2 : (uni_cp data_ex param_ex).1 !! "nbPoints" = Some (VInt 2)) by run.
  split; [|split; [done|split; [done|]]].
  - destruct (uni_cp data_ex param_ex).2 as [r|] eqn:E; [by exists r|].
    vm_compute in E. discriminate E.
  - intros E. rewrite E, H1 in H2. discriminate H2.
Qed.

(** C8 (amended) on the same call. *)
Lemma uni_cp_writes_nbPoints_witness :
  (∀ k, k ≠ "nbPoints" → (uni_cp data_ex param_ex).1 !! k = param_ex !! k)
  ∧ (uni_cp data_ex param_ex).1 !! "nbPoints" = Some (VInt (Z.of_nat (3 - 1))).
Proof.
  destruct (@uni_cp_writes_nbPoints Qc Qc_scalar Qc_linalg_inv Qc_primitive
              Qc_lqt_lib Qc_float32 data_ex param_ex) as [H1 H2].
  split; [exact H1|]. apply H2.
  destruct (uni_cp data_ex param_ex).2 as [r|] eqn:E; [by exists r|].
  vm_compute in E. discriminate E.
Defined.

(** The decoder and [generate] on the concrete inputs. *)
Example viterbi_ex :
  (demos_xdx_augm_ex !! 0) ≫= (λ obs, Some (viterbi model_ex obs)) = Some [0; 0; 1; 1].
Proof. run. Qed.

Lemma demos_ex_well_formed :
  Forall (λ x, x ≠ [] ∧ Forall (λ p : list Qc, length p = 2) x) demos_ex.
Proof. repeat first [done | constructor]. Qed.

(** C5 on the concrete demonstrations. *)
Lemma get_A_b_constant_frames_witness : is_Ok (get_A_b demos_ex).
Proof.
  apply (proj1 (@get_A_b_constant_frames Qc Qc_scalar Qc_linalg_inv demos_ex)).
  intros x Hx. pose proof demos_ex_well_formed as H.
  rewrite Forall_forall in H. destruct (H x Hx) as [Hne Hx2].
  split; [done|by exists 2].
Defined.



(** The fused first component: both frames have unit precision, so the
    fused covariance is one half of the identity. *)
Example prod_ex_sigma : default [] (sigma prod_ex !! 0) = mscale (eye 4) (q 1 2).
Proof. apply Qc_mat_eqb_eq. run. Qed.

(** * Further properties of the embedded functions *)

(** ** tpgmm.py: more on [get_dx] *)

Section DerivativeMore.

Context {F : Type} `{!Scalar F}.

Abbreviation vector := (list F).
Abbreviation matrix := (list (list F)).

(** X3. A demonstration whose first two points have different lengths, neither
    of them one, makes [get_dx] raise the [ValueError] of the difference,
    whatever follows it. *)
Theorem get_dx_ragged (pre post : list (list vector)) (a b : vector)
    (x : list vector) :
  Forall rectangular pre →
  length a ≠ length b → length a ≠ 1 → length b ≠ 1 →
  get_dx (pre ++ (a :: b :: x) :: post) = Err ValueError.
Proof.
  intros Hpre Hab Ha Hb. unfold get_dx.
  destruct (get_dx_is_Ok pre Hpre) as [dpre Hdpre]. unfold get_dx in Hdpre.
  assert (Hfail : mapM (get_dx_at (a :: b :: x))
                    (seqZ 0 (Z.of_nat (length (a :: b :: x)))) = Err ValueError).
  { rewrite seqZ_cons by (simpl; lia). cbn [mapM].
    replace (get_dx_at (a :: b :: x) 0) with (Err ValueError (A:=vector)); [done|].
    unfold get_dx_at. change (0 <? 0)%Z with false. cbn [andb].
    destruct (Z.eqb_spec 0 (Z.of_nat (length (a :: b :: x)) - 1));
      [simpl in *; lia|].
    change (py_index (a :: b :: x) (0 + 1)) with (Ok b).
    change (py_index (a :: b :: x) 0) with (Ok a).
    cbn [mbind result_bind]. unfold np_sub.
    rewrite decide_False by congruence.
    destruct b as [|? [|? ?]], a as [|? [|? ?]]; simpl in *; done. }
  revert dpre Hdpre. induction pre as [|y pre IH]; intros dpre Hdpre.
  - cbn [app mapM]. by rewrite Hfail.
  - cbn [app mapM] in *.
    destruct (mapM (get_dx_at y) _) as [dy|]; [|done].
    cbn [mbind result_bind] in *.
    destruct (mapM _ pre) as [dp|] eqn:Hp; [|done].
    apply Forall_cons in Hpre as [_ Hpre].
    by rewrite (IH Hpre dp).
Qed.

End DerivativeMore.

(** ** tpgmm.py: the task frames of [get_A_b] and [get_related_matrix] *)

Section FramesMore.

Context {F : Type} `{!Scalar F}.
Hypothesis Fth : field_theory F0 F1 Fadd Fmul Fsub Fopp Fdiv Finv (@eq F).
Add Field Ffield_fm : Fth.

Abbreviation vector := (list F).
Abbreviation matrix := (list (list F)).

Lemma pair_ind (P : vector → Prop) :
  P [] → (∀ a, P [a]) → (∀ a b v, P v → P (a :: b :: v)) → ∀ v, P v.
Proof.
  intros H0 H1 H2. fix IH 1. intros [|a [|b v]]; [done..|].
  apply H2, IH.
Qed.

Lemma mirror_involutive (v : vector) : mirror (mirror v) = v.
Proof.
  induction v as [|a|a b v IH] using pair_ind; [done..|].
  cbn [mirror]. rewrite IH. do 2 f_equal. ring.
Qed.

Lemma length_mirror (v : vector) : length (mirror v) = length v.
Proof.
  induction v as [|a|a b v IH] using pair_ind; [done..|].
  cbn [mirror length]. by rewrite IH.
Qed.

Lemma dot_comm (u v : vector) : dot u v = dot v u.
Proof.
  revert v. induction u as [|a u IH]; intros [|b v]; try done.
  rewrite !dot_cons, IH. ring.
Qed.

Lemma dot_mirror (u v : vector) : dot u (mirror v) = dot (mirror u) v.
Proof.
  revert v. induction u as [|a|a b u IH] using pair_ind; intros v.
  - by rewrite !dot_nil_l.
  - destruct v as [|c [|d v]]; [done..|]. cbn [mirror]. by rewrite !dot_cons, !dot_nil_l.
  - destruct v as [|c [|d v]]; [done| |].
    + cbn [mirror]. by rewrite !dot_cons, !dot_nil_r.
    + cbn [mirror]. rewrite !dot_cons, IH. ring.
Qed.

(** Two vectors with the same products against the unit vectors are
    equal. *)
Lemma vector_ext n (u w : vector) :
  length u = n → length w = n →
  (∀ e, e ∈ eye n → dot u e = dot w e) → u = w.
Proof.
  intros Hu Hw He.
  rewrite <- (matvec_eye Fth u), <- (matvec_eye Fth w), Hu, Hw.
  unfold matvec. apply list_fmap_ext. intros i e Hi.
  rewrite (dot_comm e u), (dot_comm e w). apply He.
  by apply list_elem_of_lookup_2 in Hi.
Qed.

(** *** [kron(eye(n), N)] is block diagonal *)

Lemma bind_cons {X Y} (f : X → list Y) (a : X) (l : list X) :
  (a :: l) ≫= f = f a ++ (l ≫= f).
Proof. done. Qed.

Lemma kron_fmap_cons0 c (M N : matrix) :
  Forall (λ r, length r = c) N →
  kron ((F0 ::.) <$> M) N = (zeros c ++.) <$> kron M N.
Proof.
  intros HN. induction M as [|r M IH]; [done|].
  rewrite fmap_cons, !kron_cons, IH, fmap_app. f_equal.
  rewrite <- list_fmap_compose. apply Forall_fmap_ext.
  eapply Forall_impl; [exact HN|]. intros b Hb. cbv beta. unfold compose.
  by rewrite bind_cons, (vscale_0 Fth), Hb.
Qed.

Lemma kron_eye_S c n (N : matrix) :
  Forall (λ r, length r = c) N →
  kron (eye (S n)) N
  = ((λ b : vector, b ++ zeros (n * c)) <$> N) ++ ((zeros c ++.) <$> kron (eye n) N).
Proof.
  intros HN. cbn [eye]. rewrite kron_cons, (kron_fmap_cons0 c) by done.
  f_equal. apply Forall_fmap_ext.
  eapply Forall_impl; [exact HN|]. intros b Hb. cbv beta.
  by rewrite bind_cons, (vscale_1 Fth), (bind_zeros_vscale Fth), Hb.
Qed.

Lemma matvec_block_diagonal c m (N K : matrix) (v1 v2 : vector) :
  length v1 = c → Forall (λ r, length r = c) N →
  matvec (((λ b : vector, b ++ zeros m) <$> N) ++ ((zeros c ++.) <$> K)) (v1 ++ v2)
  = matvec N v1 ++ matvec K v2.
Proof.
  intros Hv HN. rewrite matvec_app. unfold matvec. rewrite <- !list_fmap_compose.
  f_equal.
  - apply Forall_fmap_ext. eapply Forall_impl; [exact HN|]. intros b Hb. simpl.
    rewrite (dot_app Fth) by congruence. rewrite dot_zeros_l by done. ring.
  - apply list_fmap_ext. intros i r _. simpl.
    rewrite (dot_app Fth) by (by rewrite length_zeros).
    rewrite dot_zeros_l by done. ring.
Qed.

Lemma matvec_frame_A a b : matvec frame_A [a; b] = [a; Fopp b].
Proof.
  unfold frame_A, matvec. cbn [fmap list_fmap].
  rewrite !dot_cons, !dot_nil_l. f_equal; [ring|]. f_equal. ring.
Qed.

(** The linear part of the frames negates every second coordinate. *)
Lemma matvec_frame n (v : vector) :
  length v = 2 * n → matvec (kron (eye n) frame_A) v = mirror v.
Proof.
  revert v. induction n as [|n IH]; intros v Hv.
  - by destruct v.
  - destruct v as [|a [|b v]]; [simpl in Hv; lia..|].
    rewrite (kron_eye_S 2) by (by repeat constructor).
    change (a :: b :: v) with ([a; b] ++ v).
    rewrite (matvec_block_diagonal 2) by (done || by repeat constructor).
    rewrite matvec_frame_A, IH by (simpl in Hv; lia). done.
Qed.

Lemma frame_shape n : has_shape (n * 2) (n * 2) (kron (eye n) (frame_A (F:=F))).
Proof. apply kron_shape; [apply eye_shape|]. split; [done|]. by repeat constructor. Qed.

Lemma vecmat_frame n (v : vector) :
  1 ≤ n → length v = 2 * n → vecmat v (kron (eye n) frame_A) = mirror v.
Proof.
  intros Hn Hv. pose proof (frame_shape n) as Hs.
  apply (vector_ext (n * 2)).
  - apply (length_vecmat (n * 2)); [done|lia].
  - rewrite length_mirror. lia.
  - intros e He.
    assert (Hle : length e = n * 2).
    { pose proof (eye_rows (F:=F) (n * 2)) as Hr. rewrite Forall_forall in Hr.
      by apply Hr. }
    unfold vecmat. rewrite (has_shape_ncols (n * 2) (n * 2)) by (done || lia).
    rewrite (dot_vecmat_aux Fth) by apply Hs.
    rewrite matvec_frame by lia. by rewrite dot_mirror.
Qed.

End FramesMore.

(** ** tpgmm.py: what [get_related_matrix] returns *)

Section ObservationsMore.

Context {F : Type} `{!Scalar F}.
Hypothesis Fth : field_theory F0 F1 Fadd Fmul Fsub Fopp Fdiv Finv (@eq F).
Add Field Ffield_om : Fth.

Abbreviation vector := (list F).
Abbreviation matrix := (list (list F)).

Lemma concat_concat_fmap {X} (d : list (list (list X))) :
  concat (concat d) = concat (@concat X <$> d).
Proof.
  induction d as [|fr d IH]; [done|].
  cbn [concat fmap list_fmap]. by rewrite concat_app, IH.
Qed.

Lemma to_frames_lookup (xs : list vector) T (M : matrix) (b0 b1 : vector) t xt :
  length xs = T → xs !! t = Some xt →
  to_frames xs (replicate T [M; M]) (replicate T [b0; b1]) !! t
  = Some [vecmat (vsub xt b0) M; vecmat (vsub xt b1) M].
Proof.
  intros HT Hx. assert (t < T) by (apply lookup_lt_Some in Hx; lia).
  unfold to_frames.
  by rewrite !lookup_zip_with, !lookup_replicate_2, Hx by done.
Qed.

(** The pieces of the result of [get_related_matrix], demonstration by
    demonstration. *)
Lemma get_related_matrix_inv D (demos_x : list (list vector))
    demos_xdx dAx dbx demos_xdx_f demos_xdx_augm :
  1 ≤ D →
  Forall (λ x, x ≠ [] ∧ Forall (λ p : vector, length p = D) x) demos_x →
  get_related_matrix demos_x
  = Ok (demos_xdx, dAx, dbx, demos_xdx_f, demos_xdx_augm) →
  ∃ demos_dx,
    get_dx demos_x = Ok demos_dx
    ∧ length demos_xdx = length demos_x ∧ length dAx = length demos_x
    ∧ length dbx = length demos_x ∧ length demos_xdx_f = length demos_x
    ∧ length demos_xdx_augm = length demos_x
    ∧ ∀ i x, demos_x !! i = Some x →
        ∃ dx x_first x_last,
          demos_dx !! i = Some dx ∧ length dx = length x
          ∧ Forall (λ d : vector, length d = D) dx
          ∧ x !! 0 = Some x_first ∧ last x = Some x_last
          ∧ demos_xdx !! i = Some (hstack x dx)
          ∧ dAx !! i = Some (replicate (length x)
                               [kron (eye D) frame_A; kron (eye D) frame_A])
          ∧ dbx !! i = Some (replicate (length x)
                               [x_first ++ zeros D; x_last ++ zeros D])
          ∧ let fr := to_frames (hstack x dx)
                        (replicate (length x)
                           [kron (eye D) frame_A; kron (eye D) frame_A])
                        (replicate (length x)
                           [x_first ++ zeros D; x_last ++ zeros D]) in
            demos_xdx_f !! i = Some fr
            ∧ demos_xdx_augm !! i = Some (@concat F <$> fr).
Proof.
  intros HD Hwf. unfold get_related_matrix.
  destruct (get_dx demos_x) as [demos_dx|] eqn:Hdx; [|done].
  cbn [mbind result_bind].
  destruct (get_A_b demos_x) as [[[[dA db] dAx'] dbx']|] eqn:HAb; [|done].
  cbn [mbind result_bind].
  set (xdx := zip_with hstack demos_x demos_dx).
  set (fs := zip_with (λ _x (Ab : list (list matrix) * list (list vector)),
                         to_frames _x Ab.1 Ab.2) xdx (zip dAx' dbx')).
  destruct (mapM _ fs) as [augm|] eqn:Haugm; [|done].
  cbn [mbind result_bind mret result_ret]. intros [= <- <- <- <- <-].
  exists demos_dx. split; [done|].
  destruct (get_A_b_lengths _ _ _ _ _ HAb) as [HlA Hlb].
  pose proof Hdx as Hdx2. apply mapM_Ok_Forall2, Forall2_length in Hdx2.
  assert (Hlx : length xdx = length demos_x).
  { unfold xdx. rewrite length_zip_with. lia. }
  assert (Hlf : length fs = length demos_x).
  { unfold fs. rewrite length_zip_with, length_zip. lia. }
  apply mapM_Ok_Forall2 in Haugm.
  pose proof (Forall2_length _ _ _ Haugm) as Hla.
  do 5 (split; [lia|]).
  (* the first row of the first demonstration fixes the width of the reshape *)
  assert (Hwidth : ∀ d : list (list vector),
    (x0 ← py_index xdx 0; p ← py_index x0 0;
     reshape_rows (length p * 2) (concat (concat d)))
    = match demos_x with
      | [] => Err IndexError
      | _ => reshape_rows ((D + D) * 2) (concat (concat d))
      end).
  { intros d. destruct demos_x as [|x0 demos_x']; [done|].
    apply Forall_cons in Hwf as [[Hne0 HD0] _].
    destruct (get_dx_Ok_inv _ _ 0 x0 Hdx eq_refl) as (dx0 & Hdx0 & Hl0 & Hat0).
    destruct demos_dx as [|dx0' demos_dx']; [done|]. injection Hdx0 as ->.
    destruct x0 as [|p0 x0]; [done|]. destruct dx0 as [|d0 dx0]; [done|].
    unfold xdx. cbn [zip_with hstack].
    change (py_index (((p0 ++ d0) :: zip_with app x0 dx0) :: _) 0)
      with (Ok ((p0 ++ d0) :: zip_with app x0 dx0) : result (list vector)).
    cbn [mbind result_bind].
    change (py_index ((p0 ++ d0) :: zip_with app x0 dx0) 0) with (Ok (p0 ++ d0)).
    cbn [mbind result_bind].
    destruct (Hat0 0) as (d0' & Hd0' & Hg0); [simpl; lia|].
    injection Hd0' as <-.
    apply (get_dx_at_length D) in Hg0; [|done].
    apply Forall_cons in HD0 as [Hp0 _].
    by rewrite length_app, Hp0, Hg0. }
  intros i x Hx.
  destruct (get_dx_Ok_inv _ _ _ _ Hdx Hx) as (dx & Hdxi & Hlen & Hat).
  destruct (get_A_b_inv _ _ _ _ _ _ _ HAb Hx)
    as (x_first & x_last & x0 & p0 & Hfirst & Hlast & H0 & Hp0 & HAi & Hbi).
  destruct (Forall_lookup_1 _ _ _ _ Hwf Hx) as [Hne HxD].
  assert (Hp0D : length p0 = D).
  { destruct (Forall_lookup_1 _ _ _ _ Hwf H0) as [_ Hx0].
    by apply (Forall_lookup_1 _ _ _ _ Hx0 Hp0). }
  assert (HfD : length x_first = D) by (by apply (Forall_lookup_1 _ _ _ _ HxD Hfirst)).
  assert (HlD : length x_last = D).
  { rewrite last_lookup in Hlast. by apply (Forall_lookup_1 _ _ _ _ HxD Hlast). }
  rewrite Hp0D in HAi. rewrite HfD, HlD in Hbi.
  assert (HdxD : Forall (λ d : vector, length d = D) dx).
  { apply Forall_lookup_2. intros j d Hj.
    destruct (Hat j) as (d' & Hd' & Hgd); [apply lookup_lt_Some in Hj; lia|].
    rewrite Hj in Hd'. injection Hd' as <-.
    by apply (get_dx_at_length D x (Z.of_nat j) d). }
  assert (Hxdx : xdx !! i = Some (hstack x dx)).
  { unfold xdx. by rewrite lookup_zip_with, Hx, Hdxi. }
  exists dx, x_first, x_last. do 8 (split; [done|]).
  cbv zeta.
  assert (Hf : fs !! i = Some (to_frames (hstack x dx)
                 (replicate (length x) [kron (eye D) frame_A; kron (eye D) frame_A])
                 (replicate (length x) [x_first ++ zeros D; x_last ++ zeros D]))).
  { unfold fs. rewrite lookup_zip_with, Hxdx. cbn [mbind option_bind].
    pose proof (proj2 (lookup_zip_Some dAx' dbx' i _ _) (conj HAi Hbi)) as Hz.
    by rewrite Hz. }
  split; [done|].
  destruct (Forall2_lookup_l _ _ _ _ _ Haugm Hf) as (obs & Hobs & Hr).
  rewrite Hobs. f_equal.
  rewrite Hwidth in Hr. destruct demos_x as [|? ?]; [done|].
  rewrite concat_concat_fmap in Hr.
  rewrite reshape_rows_concat in Hr; [congruence|lia|].
  intros fr Hfr.
  assert (HE : has_shape (D * 2) (D * 2) (kron (eye D) (frame_A (F:=F)))).
  { apply frame_shape. }
  destruct (to_frames_dims (D * 2) (D * 2) _ (x_first ++ zeros D)
              (x_last ++ zeros D) (hstack x dx) (length x) HE) as [_ Hft]; [lia| |].
  { unfold hstack. rewrite length_zip_with. lia. }
  rewrite Forall_forall in Hft. rewrite (Hft fr Hfr). lia.
Qed.

Lemma vsub_app (u1 u2 v1 v2 : vector) :
  length u1 = length v1 → vsub (u1 ++ u2) (v1 ++ v2) = vsub u1 v1 ++ vsub u2 v2.
Proof. intros Hl. unfold vsub. by apply zip_with_app. Qed.

(** What one row of [demos_xdx_augm] is made of. *)
Lemma augm_row_inv D (demos_x : list (list vector))
    demos_xdx dAx dbx demos_xdx_f demos_xdx_augm i x t obs :
  1 ≤ D →
  Forall (λ x, x ≠ [] ∧ Forall (λ p : vector, length p = D) x) demos_x →
  get_related_matrix demos_x
  = Ok (demos_xdx, dAx, dbx, demos_xdx_f, demos_xdx_augm) →
  demos_x !! i = Some x →
  demos_xdx_augm !! i ≫= (.!! t) = Some obs →
  ∃ p d x_first x_last,
    x !! t = Some p ∧ length p = D ∧ length d = D
    ∧ x !! 0 = Some x_first ∧ last x = Some x_last
    ∧ length x_first = D ∧ length x_last = D
    ∧ demos_xdx !! i ≫= (.!! t) = Some (p ++ d)
    ∧ dAx !! i ≫= (.!! t) = Some [kron (eye D) frame_A; kron (eye D) frame_A]
    ∧ dbx !! i ≫= (.!! t) = Some [x_first ++ zeros D; x_last ++ zeros D]
    ∧ obs = mirror (vsub (p ++ d) (x_first ++ zeros D))
            ++ mirror (vsub (p ++ d) (x_last ++ zeros D)).
Proof.
  intros HD Hwf Hg Hx Hobs.
  destruct (get_related_matrix_inv D _ _ _ _ _ _ HD Hwf Hg)
    as (demos_dx & Hdx & _ & _ & _ & _ & _ & Hinv).
  destruct (Hinv i x Hx)
    as (dx & x_first & x_last & Hdxi & Hlen & HdxD & Hfirst & Hlast & Hxdx & HA & Hb
        & Hf & Haugm).
  destruct (Forall_lookup_1 _ _ _ _ Hwf Hx) as [Hne HxD].
  rewrite Haugm in Hobs. cbn [mbind option_bind] in Hobs.
  rewrite list_lookup_fmap in Hobs.
  destruct (to_frames _ _ _ !! t) as [fr|] eqn:Hfr; [|done].
  injection Hobs as <-.
  assert (Ht : t < length x).
  { apply lookup_lt_Some in Hfr.
    destruct (to_frames_dims (D * 2) (D * 2) _ (x_first ++ zeros D)
                (x_last ++ zeros D) (hstack x dx) (length x) (frame_shape D))
      as [Hlt _]; [lia| |lia].
    unfold hstack. rewrite length_zip_with. lia. }
  destruct (lookup_lt_is_Some_2 x t Ht) as [p Hp].
  destruct (lookup_lt_is_Some_2 dx t) as [d Hd]; [lia|].
  assert (Hxt : hstack x dx !! t = Some (p ++ d)).
  { unfold hstack. by rewrite lookup_zip_with, Hp, Hd. }
  rewrite (to_frames_lookup _ (length x) _ _ _ t (p ++ d)) in Hfr; [|..|done].
  2:{ unfold hstack. rewrite length_zip_with. lia. }
  injection Hfr as <-.
  pose proof (Forall_lookup_1 _ _ _ _ HxD Hp) as HpD.
  pose proof (Forall_lookup_1 _ _ _ _ HdxD Hd) as HdD.
  pose proof (Forall_lookup_1 _ _ _ _ HxD Hfirst) as HfD.
  assert (HlD : length x_last = D).
  { rewrite last_lookup in Hlast. by apply (Forall_lookup_1 _ _ _ _ HxD Hlast). }
  simpl in HpD, HdD, HfD.
  exists p, d, x_first, x_last. do 7 (split; [done|]).
  split; [by rewrite Hxdx|].
  split; [rewrite HA; cbn [mbind option_bind]; by rewrite lookup_replicate_2|].
  split; [rewrite Hb; cbn [mbind option_bind]; by rewrite lookup_replicate_2|].
  cbn [concat]. rewrite app_nil_r.
  rewrite !(vecmat_frame Fth); [done|lia| |lia|].
  - rewrite length_vsub, !length_app, length_zeros. lia.
  - rewrite length_vsub, !length_app, length_zeros. lia.
Qed.

Lemma take_mirror_zeros n (w : vector) :
  take n (mirror (zeros n ++ w)) = zeros n
  ∧ take (S n) (mirror (zeros (S n) ++ w)) = zeros (S n).
Proof.
  induction n as [|n [IH1 IH2]].
  - split; [by rewrite take_0|]. by destruct w.
  - split; [done|].
    change (zeros (S (S n)) ++ w) with (F0 :: F0 :: (zeros n ++ w)).
    cbn [mirror take]. rewrite IH1.
    change (zeros (S (S n))) with (F0 :: F0 :: zeros n). do 2 f_equal. ring.
Qed.

(** X5. The start pose is the origin of the first frame and the end pose that
    of the second: in the first row of [demos_xdx_augm] the position part
    of the first frame is zero, and in the last row that of the second
    frame. *)
Theorem frame_observation_origin D (demos_x : list (list vector))
    demos_xdx dAx dbx demos_xdx_f demos_xdx_augm i x :
  1 ≤ D →
  Forall (λ x, x ≠ [] ∧ Forall (λ p : vector, length p = D) x) demos_x →
  get_related_matrix demos_x
  = Ok (demos_xdx, dAx, dbx, demos_xdx_f, demos_xdx_augm) →
  demos_x !! i = Some x →
  ∃ augm first_row last_row,
    demos_xdx_augm !! i = Some augm ∧ length augm = length x
    ∧ augm !! 0 = Some first_row ∧ last augm = Some last_row
    ∧ take D first_row = zeros D
    ∧ take D (drop (2 * D) last_row) = zeros D.
Proof.
  intros HD Hwf Hg Hx.
  destruct (get_related_matrix_inv D _ _ _ _ _ _ HD Hwf Hg)
    as (demos_dx & Hdx & _ & _ & _ & _ & _ & Hinv).
  destruct (Hinv i x Hx)
    as (dx & x_first & x_last & Hdxi & Hlen & HdxD & Hfirst & Hlast & Hxdx & HA & Hb
        & Hf & Haugm).
  destruct (Forall_lookup_1 _ _ _ _ Hwf Hx) as [Hne HxD].
  assert (HT : 0 < length x) by (destruct x; [done|simpl; lia]).
  assert (Hla : length (@concat F <$> to_frames (hstack x dx)
                  (replicate (length x) [kron (eye D) frame_A; kron (eye D) frame_A])
                  (replicate (length x) [x_first ++ zeros D; x_last ++ zeros D]))
                = length x).
  { rewrite length_fmap.
    apply (to_frames_dims (D * 2) (D * 2) _ _ _ _ _ (frame_shape D)); [lia|].
    unfold hstack. rewrite length_zip_with. lia. }
  destruct (lookup_lt_is_Some_2 _ 0 ltac:(rewrite Hla; exact HT)) as [r0 Hr0].
  destruct (lookup_lt_is_Some_2 _ (length x - 1) ltac:(rewrite Hla; lia)) as [r1 Hr1].
  eexists _, r0, r1. split; [exact Haugm|]. split; [done|]. split; [done|].
  split; [rewrite last_lookup, Hla; by replace (pred (length x)) with (length x - 1) by lia|].
  assert (H0 : demos_xdx_augm !! i ≫= (.!! 0) = Some r0) by (by rewrite Haugm).
  assert (H1 : demos_xdx_augm !! i ≫= (.!! (length x - 1)) = Some r1)
    by (by rewrite Haugm).
  destruct (augm_row_inv D _ _ _ _ _ _ _ _ _ _ HD Hwf Hg Hx H0)
    as (p & d & xf & xl & Hp & HpD & HdD & Hxf & Hxl & HfD & HlD & _ & _ & _ & ->).
  destruct (augm_row_inv D _ _ _ _ _ _ _ _ _ _ HD Hwf Hg Hx H1)
    as (p' & d' & xf' & xl' & Hp' & HpD' & HdD' & Hxf' & Hxl' & HfD' & HlD' & _ & _ & _ & ->).
  rewrite Hp in Hxf. injection Hxf as <-.
  rewrite last_lookup in Hxl'.
  replace (pred (length x)) with (length x - 1) in Hxl' by lia.
  rewrite Hp' in Hxl'. injection Hxl' as <-.
  split.
  - rewrite take_app_le.
    2:{ rewrite length_mirror, length_vsub, !length_app, length_zeros. lia. }
    rewrite vsub_app, (vsub_diag Fth), HpD by done.
    apply take_mirror_zeros.
  - rewrite drop_app_length'.
    2:{ rewrite length_mirror, length_vsub, !length_app, length_zeros. lia. }
    rewrite vsub_app, (vsub_diag Fth), HpD' by done.
    apply take_mirror_zeros.
Qed.

(** X7. A demonstration without points makes [get_A_b] raise the [IndexError]
    of [demos_x[i][0]], wherever it stands among the demonstrations. *)
Theorem get_A_b_empty_demonstration (demos_x : list (list vector)) :
  Forall rectangular demos_x → [] ∈ demos_x →
  get_A_b demos_x = Err IndexError.
Proof.
  intros Hrect Hin. unfold get_A_b.
  set (f := λ x : list vector,
         x_first ← py_index x 0; x_last ← py_index x (-1);
         b ← np_vstack x_first x_last;
         mret (replicate (length x) [frame_A (F:=F); frame_A],
               replicate (length x) b)).
  replace (mapM f demos_x)
    with (Err IndexError (A:=list (list (list matrix) * list (list vector))));
    [done|].
  symmetry. induction Hrect as [|x demos_x Hx Hrect IH];
    [by apply elem_of_nil in Hin|].
  cbn [mapM]. destruct x as [|p x]; [done|].
  apply elem_of_cons in Hin as [?|Hin]; [done|].
  rewrite (IH Hin).
  destruct (get_A_b_is_Ok [p :: x]) as [r Hr].
  { intros y Hy. apply list_elem_of_singleton in Hy as ->. done. }
  unfold get_A_b in Hr. fold f in Hr. cbn [mapM] in Hr.
  by destruct (f (p :: x)).
Qed.

End ObservationsMore.

(** ** lqt_cp.py: the integrators built by [set_dynamical_system] *)

Section DynamicsMore.

Context {F : Type} `{!Scalar F}.
Hypothesis Fth : field_theory F0 F1 Fadd Fmul Fsub Fopp Fdiv Finv (@eq F).
Add Field Ffield_dyn : Fth.

Abbreviation vector := (list F).
Abbreviation matrix := (list (list F)).
Abbreviation config := (gmap string (value (F:=F))).

Lemma dot_fmap_mul_r (r v : vector) c :
  dot ((λ a, Fmul a c) <$> r) v = Fmul c (dot r v).
Proof.
  revert v. induction r as [|a r IH]; intros [|b v]; cbn [fmap list_fmap];
    rewrite ?dot_nil_l, ?dot_nil_r, ?dot_cons, ?IH; ring.
Qed.

Lemma matvec_mscale (M : matrix) c (v : vector) :
  matvec (mscale M c) v = vscale c (matvec M v).
Proof.
  unfold matvec, mscale, vscale. rewrite <- !list_fmap_compose.
  apply list_fmap_ext. intros i r _. apply dot_fmap_mul_r.
Qed.

Lemma matvec_pad_left n (M : matrix) (p v : vector) :
  length p = n → matvec ((zeros n ++.) <$> M) (p ++ v) = matvec M v.
Proof.
  intros Hp. unfold matvec. rewrite <- list_fmap_compose.
  apply list_fmap_ext. intros i r _. simpl.
  rewrite (dot_app Fth) by (by rewrite length_zeros).
  rewrite dot_zeros_l by done. ring.
Qed.

(** [M[r0:r0+n] = np.identity(n) * c] on rows that are still zero. *)
Lemma assign_eye_block n m (Dn : matrix) r0 c :
  has_shape r0 n Dn → 1 ≤ n →
  assign_block (Dn ++ zeros_mat (n + m) n) r0 (r0 + n) 0
    (ncols (Dn ++ zeros_mat (n + m) n)) (mscale (eye n) c)
  = Ok (Dn ++ mscale (eye n) c ++ zeros_mat m n).
Proof.
  intros HD Hn.
  assert (Hblk : has_shape n n (mscale (eye n) c)) by apply mscale_shape, eye_shape.
  assert (Hnc : ncols (Dn ++ zeros_mat (n + m) n) = n).
  { apply (has_shape_ncols (r0 + (n + m)) n); [|lia].
    apply has_shape_app; [done|apply zeros_mat_shape]. }
  rewrite Hnc.
  pose proof (assign_block_zero_rows n Dn (mscale (eye n) c) m n n r0 HD Hblk
                ltac:(lia) ltac:(lia)) as H.
  rewrite (proj1 Hblk), (has_shape_ncols n n _ Hblk) in H by lia.
  rewrite H. do 3 f_equal. rewrite <- (list_fmap_id (mscale (eye n) c)) at 2.
  apply Forall_fmap_ext. eapply Forall_impl; [apply Hblk|].
  intros b Hb. simpl in *. rewrite Hb, Nat.sub_diag. apply app_nil_r.
Qed.

Section Keys.

Variables (param : config) (nv n : nat) (nd : Z) (dt : F).
Hypothesis Hnv : param !! "nb_var" = Some (VInt (Z.of_nat nv)).
Hypothesis Hnvp : param !! "nbVarPos" = Some (VInt (Z.of_nat n)).
Hypothesis Hnd : param !! "nbDeriv" = Some (VInt nd).
Hypothesis Hdt : get_float param "dt" = Ok dt.
Hypothesis Hn : 1 ≤ n.

Lemma dynamics_B_unfold :
  dynamics_B param
  = foldM (λ B i,
             c ← py_index (reverse (py_take nd [dt; Fdiv (Fmul dt dt) two]))
                   (Z.of_nat i);
             assign_block B (i * n) ((i + 1) * n) 0 (ncols B) (mscale (eye n) c))
          (zeros_mat nv n) (seq 0 (Z.to_nat nd)).
Proof.
  unfold dynamics_B, get_int, get. rewrite Hnv, Hnvp, Hnd.
  cbn [mbind result_bind]. rewrite !as_dim_of_nat. cbn [mbind result_bind].
  by rewrite Hdt.
Qed.

Lemma dynamics_A_identity :
  nd ≠ 2%Z → dynamics_A param = Ok (eye nv).
Proof.
  intros Hne. unfold dynamics_A, get_int, get. rewrite Hnv, Hnd.
  cbn [mbind result_bind]. rewrite as_dim_of_nat. cbn [mbind result_bind].
  by rewrite decide_False.
Qed.

Lemma foldM_app {X S} (f : S → X → result S) (s : S) (l1 l2 : list X) :
  foldM f s (l1 ++ l2) = (s' ← foldM f s l1; foldM f s' l2).
Proof.
  revert s. induction l1 as [|a l1 IH]; intros s; [done|].
  cbn [app foldM]. destruct (f s a) as [s'|]; [|done].
  cbn [mbind result_bind]. apply IH.
Qed.

End Keys.

(** The first two iterations of the loop that fills [B], for a derivative
    order of at least two. *)
Lemma dynamics_B_two_blocks (n m : nat) (nd : Z) (dt : F) :
  1 ≤ n → (2 ≤ nd)%Z →
  foldM (λ B i,
           c ← py_index (reverse (py_take nd [dt; Fdiv (Fmul dt dt) two]))
                 (Z.of_nat i);
           assign_block B (i * n) ((i + 1) * n) 0 (ncols B) (mscale (eye n) c))
        (zeros_mat (n + (n + m)) n) [0; 1]
  = Ok (mscale (eye n) (Fdiv (Fmul dt dt) two) ++ mscale (eye n) dt
        ++ zeros_mat m n).
Proof.
  intros Hn Hnd2.
  assert (Htake : py_take nd [dt; Fdiv (Fmul dt dt) two]
                  = [dt; Fdiv (Fmul dt dt) two]).
  { unfold py_take. destruct (Z.ltb_spec nd 0); [lia|].
    apply take_ge. simpl. lia. }
  rewrite Htake. cbn [foldM].
  change (py_index (reverse [dt; Fdiv (Fmul dt dt) two]) (Z.of_nat 0))
    with (Ok (Fdiv (Fmul dt dt) two)).
  cbn [mbind result_bind].
  replace (0 * n) with 0 by lia. replace ((0 + 1) * n) with (0 + n) by lia.
  change (zeros_mat (n + (n + m)) n) with ([] ++ zeros_mat (n + (n + m)) n).
  rewrite (assign_eye_block n (n + m) [] 0) by (done || by split).
  cbn [mbind result_bind app].
  change (py_index (reverse [dt; Fdiv (Fmul dt dt) two]) (Z.of_nat 1)) with (Ok dt).
  cbn [mbind result_bind].
  replace (1 * n) with n by lia. replace ((1 + 1) * n) with (n + n) by lia.
  rewrite (assign_eye_block n m _ n); [done| |done].
  apply mscale_shape, eye_shape.
Qed.


(** X8. With two derivative orders and a state of twice the position dimension
    the dynamics are the double integrator: a state of position [p] and
    velocity [v] moves under the control [u] to position
    [p + dt·v + dt²/2·u] and velocity [v + dt·u]. *)
Theorem set_dynamical_system_double_integrator (param : config) (T n : nat) (dt : F) :
  lqt_config param T (n + n) n 2 dt →
  ∃ A B,
    dynamics_A param = Ok A ∧ dynamics_B param = Ok B
    ∧ ∀ p v u : vector, length p = n → length v = n → length u = n →
        vadd (matvec A (p ++ v)) (matvec B u)
        = vadd (vadd p (vscale dt v)) (vscale (Fdiv (Fmul dt dt) two) u)
          ++ vadd v (vscale dt u).
Proof.
  intros Hcfg.
  pose proof Hcfg as (HT & Hnv & Hnvp & Hnd & Hdt & _ & _ & Hn & _).
  exists (hstack (eye n) (mscale (eye n) dt) ++ ((zeros n ++.) <$> eye n)),
         (mscale (eye n) (Fdiv (Fmul dt dt) two) ++ mscale (eye n) dt).
  split; [|split].
  - unfold dynamics_A.
    rewrite (get_int_nb_var _ _ _ _ _ _ Hcfg), (get_int_nbDeriv _ _ _ _ _ _ Hcfg).
    cbn [mbind result_bind]. rewrite as_dim_of_nat. cbn [mbind result_bind].
    rewrite decide_True by done.
    rewrite (get_int_nbVarPos _ _ _ _ _ _ Hcfg). cbn [mbind result_bind].
    rewrite as_dim_of_nat. cbn [mbind result_bind]. rewrite Hdt.
    cbn [mbind result_bind].
    assert (Htk : length (py_take (Z.of_nat n) (eye (F:=F) (n + n))) = n).
    { unfold py_take. destruct (Z.ltb_spec (Z.of_nat n) 0); [lia|].
      rewrite length_take, length_eye, Nat2Z.id. lia. }
    rewrite Htk, decide_False by lia.
    replace (n + n - n) with n by lia.
    assert (Hnc : ncols (eye (F:=F) (n + n)) = n + n).
    { apply (has_shape_ncols (n + n) (n + n)); [apply eye_shape|lia]. }
    rewrite assign_block_Ok.
    2:{ rewrite length_eye. pose proof (mscale_shape n n (eye n) dt (eye_shape n)) as [H _].
        rewrite H. lia. }
    2:{ rewrite Hnc. pose proof (mscale_shape n n (eye n) dt (eye_shape n)) as [_ H].
        eapply Forall_impl; [exact H|]. intros b Hb. simpl in *. lia. }
    rewrite Hnc, length_eye, Nat.min_id, (Nat.min_l n) by lia.
    rewrite take_0. cbn [app]. unfold slice. rewrite drop_0, Nat.sub_0_r.
    rewrite eye_app.
    rewrite take_app_length' by (by rewrite length_fmap, length_eye).
    rewrite drop_app_length' by (by rewrite length_fmap, length_eye).
    do 2 f_equal. unfold hstack.
    pose proof (eye_rows (F:=F) n) as Hrows.
    generalize (mscale (eye n) dt). revert Hrows. generalize (eye (F:=F) n).
    intros E Hrows. induction Hrows as [|r E Hr Hrows IH]; intros M; [done|].
    destruct M as [|b M]; [done|].
    cbn [fmap list_fmap zip_with]. f_equal; [|apply IH].
    rewrite take_app_length' by done. rewrite drop_ge, app_nil_r; [done|].
    rewrite length_app, length_zeros. lia.
  - rewrite (dynamics_B_unfold param (n + n) n 2 dt) by done.
    change (seq 0 (Z.to_nat 2)) with [0; 1].
    replace (n + n) with (n + (n + 0)) by lia.
    rewrite (dynamics_B_two_blocks n 0 2 dt) by (done || lia).
    by rewrite app_nil_r.
  - intros p v u Hp Hv Hu.
    rewrite matvec_app, (matvec_hstack Fth).
    2:{ rewrite Hp. apply eye_rows. }
    rewrite (matvec_pad_left n) by done.
    rewrite matvec_app, !matvec_mscale.
    rewrite <- Hp at 1. rewrite (matvec_eye Fth).
    rewrite <- Hv at 1 2. rewrite (matvec_eye Fth).
    rewrite <- Hu at 1 2. rewrite (matvec_eye Fth).
    rewrite vadd_app; [done|].
    unfold vadd, vscale. rewrite length_zip_with, !length_fmap. lia.
Qed.

(** X9. With one derivative order the dynamics are the single integrator,
    [x + dt·u]. *)
Theorem set_dynamical_system_single_integrator (param : config) (T n : nat) (dt : F) :
  lqt_config param T n n 1 dt →
  ∃ A B,
    dynamics_A param = Ok A ∧ dynamics_B param = Ok B
    ∧ ∀ x u : vector, length x = n → length u = n →
        vadd (matvec A x) (matvec B u) = vadd x (vscale dt u).
Proof.
  intros Hcfg.
  pose proof Hcfg as (HT & Hnv & Hnvp & Hnd & Hdt & _ & _ & Hn & _).
  exists (eye n), (mscale (eye n) dt). split; [|split].
  - by apply (dynamics_A_identity param n 1).
  - rewrite (dynamics_B_unfold param n n 1 dt) by done.
    change (seq 0 (Z.to_nat 1)) with [0]. cbn [foldM].
    change (py_index (reverse (py_take 1 [dt; Fdiv (Fmul dt dt) two])) (Z.of_nat 0))
      with (Ok dt).
    cbn [mbind result_bind].
    replace (0 * n) with 0 by lia. replace ((0 + 1) * n) with (0 + n) by lia.
    replace (zeros_mat n n) with ([] ++ zeros_mat (F:=F) (n + 0) n)
      by (by rewrite Nat.add_0_r).
    rewrite (assign_eye_block n 0 [] 0) by (done || by split).
    cbn [mbind result_bind app]. by rewrite app_nil_r.
  - intros x u Hx Hu. rewrite matvec_mscale.
    rewrite <- Hx at 1. rewrite (matvec_eye Fth).
    rewrite <- Hu at 1. by rewrite (matvec_eye Fth).
Qed.

(** X10. A derivative order above two has no entry in the list
    [[dt, dt**2 / 2]]: the third iteration of the loop that fills [B]
    raises [IndexError]. *)
Theorem set_dynamical_system_third_derivative (param : config) (n m : nat)
    (nd : Z) (dt : F) :
  param !! "nb_var" = Some (VInt (Z.of_nat (n + (n + m)))) →
  param !! "nbVarPos" = Some (VInt (Z.of_nat n)) →
  param !! "nbDeriv" = Some (VInt nd) →
  get_float param "dt" = Ok dt →
  1 ≤ n → (3 ≤ nd)%Z →
  dynamics_B param = Err IndexError
  ∧ set_dynamical_system param = Err IndexError.
Proof.
  intros Hnv Hnvp Hnd Hdt Hn Hnd3.
  assert (HB : dynamics_B param = Err IndexError).
  { rewrite (dynamics_B_unfold param (n + (n + m)) n nd dt) by done.
    replace (Z.to_nat nd) with (2 + S (Z.to_nat nd - 3)) by lia.
    rewrite seq_app. change (seq 0 2) with [0; 1].
    rewrite foldM_app.
    rewrite (dynamics_B_two_blocks n m nd dt) by (done || lia).
    cbn [mbind result_bind Nat.add seq foldM].
    replace (py_take nd [dt; Fdiv (Fmul dt dt) two])
      with [dt; Fdiv (Fmul dt dt) two]; [done|].
    unfold py_take. destruct (Z.ltb_spec nd 0); [lia|].
    symmetry. apply take_ge. simpl. lia. }
  split; [done|].
  unfold set_dynamical_system.
  rewrite (dynamics_A_identity param (n + (n + m)) nd) by (done || lia).
  cbn [mbind result_bind]. by rewrite HB.
Qed.

End DynamicsMore.

(** ** lqt_cp.py: the transfer matrices of [set_dynamical_system] *)

Section TransferMore.

Context {F : Type} `{!Scalar F}.
Hypothesis Fth : field_theory F0 F1 Fadd Fmul Fsub Fopp Fdiv Finv (@eq F).

Abbreviation vector := (list F).
Abbreviation matrix := (list (list F)).
Abbreviation config := (gmap string (value (F:=F))).

Lemma take_drop_concat {X} n (l : list (list X)) r b :
  Forall (λ a, length a = n) l → l !! r = Some b →
  take n (drop (r * n) (concat l)) = b.
Proof.
  intros Hl. revert r. induction Hl as [|a l Ha Hl IH]; intros r Hr; [done|].
  destruct r as [|r].
  - injection Hr as ->. cbn [concat]. rewrite Nat.mul_0_l, drop_0.
    by rewrite take_app_length'.
  - cbn [concat]. replace (S r * n) with (length a + r * n) by lia.
    rewrite drop_app_add'; [|done]. by apply IH.
Qed.

Lemma rollout_seq (A B : matrix) (g : nat → vector) (us : list vector) k :
  (∀ r u, us !! r = Some u →
          g (S (k + r)) = vadd (matvec A (g (k + r))) (matvec B u)) →
  g <$> seq k (S (length us)) = rollout A B (g k) us.
Proof.
  revert k. induction us as [|u us IH]; intros k Hg; [done|].
  cbn [length seq fmap list_fmap rollout]. f_equal.
  pose proof (Hg 0 u eq_refl) as H0. rewrite Nat.add_0_r in H0. rewrite <- H0.
  apply (IH (S k)). intros r u' Hr.
  replace (S k + r) with (k + S r) by lia. by apply Hg.
Qed.

Lemma length_rollout (A B : matrix) (x : vector) (us : list vector) :
  length (rollout A B x us) = S (length us).
Proof.
  revert x. induction us as [|u us IH]; intros x; [done|].
  cbn [rollout length]. by rewrite IH.
Qed.

(** X11. The transfer matrices lift the dynamics: for every initial state and
    every sequence of controls, [Sx·x0 + Su·u] is the stack of the states
    visited from [x0] under these controls. *)
Theorem set_dynamical_system_rollout (param : config) (T nv nvp nd : nat) (dt : F)
    (A B Su Sx : matrix) (x0 : vector) (us : list vector) :
  lqt_config param T nv nvp nd dt →
  dynamics_A param = Ok A → dynamics_B param = Ok B →
  set_dynamical_system param = Ok (Su, Sx) →
  length x0 = nv → length us = T - 1 → Forall (λ u, length u = nvp) us →
  has_shape (T * nv) (nvp * (T - 1)) Su
  ∧ has_shape (T * nv) nv Sx
  ∧ reshape_rows nv (vadd (matvec Sx x0) (matvec Su (concat us)))
    = Ok (rollout A B x0 us).
Proof.
  intros Hcfg HA HB HS Hx0 Hus Hu.
  destruct (set_dynamical_system_Ok Fth param T nv nvp nd dt Hcfg)
    as (A' & B' & HA' & HB' & HAs & HBs & HS').
  rewrite HA in HA'. rewrite HB in HB'. rewrite HS in HS'.
  injection HA' as <-. injection HB' as <-. injection HS' as -> ->.
  pose proof Hcfg as (_ & _ & _ & _ & _ & HT & Hnv & Hnvp & Hnd & Hfit).
  assert (Hlu : length (concat us) = nvp * (T - 1)).
  { rewrite (length_concat_blocks nvp) by done. lia. }
  split; [|split].
  - replace (T * nv) with (length (seq 0 T) * nv) by (by rewrite length_seq).
    apply concat_blocks_shape. intros r Hr. apply elem_of_seq in Hr.
    apply (Su_block_shape A B nv nvp T); [done..|lia].
  - replace (T * nv) with (length (seq 0 T) * nv) by (by rewrite length_seq).
    apply concat_blocks_shape. intros r Hr. by apply state_block_shape.
  - rewrite (lifted_trajectory A B nv nvp T HAs HBs Hnv x0 (concat us) Hx0 Hlu).
    rewrite reshape_rows_concat; [|lia|].
    2:{ intros r Hr. apply elem_of_seq in Hr.
        apply (length_xs A B nv nvp T HAs HBs Hnv x0 (concat us) Hx0 Hlu). lia. }
    f_equal. replace T with (S (length us)) at 1 by lia.
    rewrite (rollout_seq A B _ us 0).
    + by rewrite (xs_0 Fth A B nv nvp T x0 (concat us) Hx0).
    + intros r u Hr. cbn [Nat.add].
      rewrite (xs_step Fth A B nv nvp T HAs HBs Hnv x0 (concat us) Hx0 Hlu).
      2:{ apply lookup_lt_Some in Hr. lia. }
      by rewrite (take_drop_concat nvp us r u).
Qed.

End TransferMore.

(** ** lqt_cp.py: more on [uni_cp] *)

Section EffectsMore.

Context {F : Type} `{!Scalar F, !LinalgInv F, !Primitive (F:=F), !LqtLib (F:=F)}.
Context `{!Float32 (F:=F)}.
Hypothesis Fth : field_theory F0 F1 Fadd Fmul Fsub Fopp Fdiv Finv (@eq F).

Abbreviation vector := (list F).
Abbreviation matrix := (list (list F)).
Abbreviation config := (gmap string (value (F:=F))).

(** [uni_cp] from the assignment to [param['nbPoints']] on. *)
Lemma uni_cp_from_write (data : matrix) (param : config) (k : Z) (nv : nat)
    (start_pose : vector) :
  get_int param "nbVarPos" = Ok k →
  get_int param "nb_var" ≫= as_dim = Ok nv →
  (d0 ← py_index (py_take k <$> data) 0;
   d1 ← broadcast_to (length (py_take k (zeros nv))) d0;
   mret ((to_float32 <$> d1) ++ drop (length (py_take k (zeros nv))) (zeros nv)))
  = Ok start_pose →
  let via := drop 1 (py_take k <$> data) in
  let param' := <["nbPoints" := VInt (Z.of_nat (length via))]> param in
  uni_cp data param
  = (param',
     '(_, muQ, Q, R, idx_slices, _) ← get_matrices param' via;
     '(PSI, _) ← define_control_primitive param';
     '(Su, Sx) ← set_dynamical_system param';
     '(u_hat, x_hat) ← get_u_x param' start_pose muQ Q R Su Sx PSI;
     mret (u_hat, x_hat, muQ, idx_slices)).
Proof.
  intros Hk Hnv Hstart. cbv zeta. unfold uni_cp.
  rewrite run_bind_reads, Hk. rewrite run_bind_reads, Hnv.
  rewrite run_bind_reads, Hk. rewrite run_bind_reads, Hstart.
  unfold run_bind at 1. unfold setitem at 1.
  rewrite run_bind_reads.
  destruct (get_matrices _ _) as [[[[[[vp muQ] Q] R] idx] tl]|]; [|done].
  rewrite run_bind_reads. cbn [mbind result_bind].
  destruct (define_control_primitive _) as [[PSI phi]|]; [|done].
  rewrite run_bind_reads. cbn [mbind result_bind].
  destruct (set_dynamical_system _) as [[Su Sx]|]; [|done].
  rewrite run_bind_reads. cbn [mbind result_bind].
  by destruct (get_u_x _ _ _ _ _ _ _ _) as [[u_hat x_hat]|].
Qed.

(** X13. Without a first row there is no start pose: [uni_cp] raises the
    [IndexError] of [data[0]] and [param] is as it was. *)
Theorem uni_cp_empty_data (param : config) (k : Z) (nv : nat) :
  get_int param "nbVarPos" = Ok k →
  get_int param "nb_var" ≫= as_dim = Ok nv →
  uni_cp [] param = (param, Err IndexError).
Proof.
  intros Hk Hnv. unfold uni_cp.
  rewrite run_bind_reads, Hk. rewrite run_bind_reads, Hnv.
  rewrite run_bind_reads, Hk. by rewrite run_bind_reads.
Qed.

Lemma start_pose_Ok (n nv : nat) (d0 : vector) (rest : matrix) :
  n ≤ nv → n ≤ length d0 →
  (d ← py_index (py_take (Z.of_nat n) <$> d0 :: rest) 0;
   d1 ← broadcast_to (length (py_take (Z.of_nat n) (zeros nv))) d;
   mret ((to_float32 <$> d1)
         ++ drop (length (py_take (Z.of_nat n) (zeros nv))) (zeros nv)))
  = Ok ((to_float32 <$> take n d0) ++ zeros (nv - n)).
Proof.
  intros Hn Hd.
  assert (Htake : ∀ l : vector, py_take (Z.of_nat n) l = take n l).
  { intros l. unfold py_take. destruct (Z.ltb_spec (Z.of_nat n) 0); [lia|].
    by rewrite Nat2Z.id. }
  cbn [fmap list_fmap].
  change (py_index (py_take (Z.of_nat n) d0 :: _) 0)
    with (Ok (py_take (Z.of_nat n) d0)).
  cbn [mbind result_bind]. rewrite !Htake.
  assert (Hl : length (take n (zeros nv)) = n) by (rewrite length_take, length_zeros; lia).
  rewrite Hl, broadcast_to_id by (rewrite length_take; lia).
  cbn [mbind result_bind mret result_ret]. unfold zeros.
  by rewrite drop_replicate.
Qed.

(** X14. The assignment to [param['nbPoints']] is not undone when the call
    raises afterwards: whatever [uni_cp] returns or raises once the start
    pose is set, the caller's [param] holds the number of via points, and
    an exception of [rf.lqt.get_matrices] is the exception of the call. *)
Theorem uni_cp_write_survives_failure (param : config) (n nv : nat)
    (d0 : vector) (rest : matrix) :
  param !! "nbVarPos" = Some (VInt (Z.of_nat n)) →
  param !! "nb_var" = Some (VInt (Z.of_nat nv)) →
  n ≤ nv → n ≤ length d0 →
  let param' := <["nbPoints" := VInt (Z.of_nat (length rest))]> param in
  (uni_cp (d0 :: rest) param).1 = param'
  ∧ ∀ e, get_matrices param' (py_take (Z.of_nat n) <$> rest) = Err e →
         (uni_cp (d0 :: rest) param).2 = Err e.
Proof.
  intros Hk Hnv Hn Hd. cbv zeta.
  rewrite (uni_cp_from_write (d0 :: rest) param (Z.of_nat n) nv
             ((to_float32 <$> take n d0) ++ zeros (nv - n))).
  - cbn [fmap list_fmap drop fst snd]. rewrite drop_0, length_fmap.
    split; [done|]. by intros e ->.
  - unfold get_int, get. by rewrite Hk.
  - unfold get_int, get. rewrite Hnv. cbn [mbind result_bind]. apply as_dim_of_nat.
  - by apply start_pose_Ok.
Qed.

Lemma lqt_config_insert_nbPoints (param : config) T nv nvp nd dt v :
  lqt_config param T nv nvp nd dt →
  lqt_config (<["nbPoints" := v]> param) T nv nvp nd dt.
Proof.
  intros (H1 & H2 & H3 & H4 & H5 & H6). unfold lqt_config, get_float, get in *.
  by rewrite !lookup_insert_ne by done.
Qed.

Lemma reshape_rows_first n (v : vector) rows :
  0 < n → n ≤ length v → reshape_rows n v = Ok rows →
  rows !! 0 = Some (take n v).
Proof.
  intros Hn Hv. unfold reshape_rows. destruct (decide _); [done|].
  intros [= <-]. rewrite list_lookup_fmap.
  destruct (length v `div` n) as [|q] eqn:Hq.
  - apply Nat.div_small_iff in Hq; lia.
  - cbn [seq lookup list_lookup fmap option_fmap option_map]. by rewrite drop_0.
Qed.

(** X15. The trajectory planned by [uni_cp] starts at the first row of [data]
    as the [float32] array [start_pose] stores it: its first state is the
    position part of that row, each entry rounded to single precision,
    followed by zero derivatives. *)
Theorem uni_cp_start_state (param param' : config) (T nv nvp nd : nat) (dt : F)
    (d0 : vector) (rest : matrix) u_hat x_hat muQ idx_slices :
  lqt_config param T nv nvp nd dt → 2 ≤ T → nvp ≤ nv → nvp ≤ length d0 →
  uni_cp (d0 :: rest) param = (param', Ok (u_hat, x_hat, muQ, idx_slices)) →
  x_hat !! 0 = Some ((to_float32 <$> take nvp d0) ++ zeros (nv - nvp)).
Proof.
  intros Hcfg _ Hn Hd.
  set (x0 := (to_float32 <$> take nvp d0) ++ zeros (nv - nvp)).
  assert (Hx0 : length x0 = nv).
  { unfold x0. rewrite length_app, length_fmap, length_take, length_zeros. lia. }
  rewrite (uni_cp_from_write (d0 :: rest) param (Z.of_nat nvp) nv x0).
  2:{ apply (get_int_nbVarPos _ _ _ _ _ _ Hcfg). }
  2:{ rewrite (get_int_nb_var _ _ _ _ _ _ Hcfg). apply as_dim_of_nat. }
  2:{ by apply start_pose_Ok. }
  cbv zeta. intros [= <- Hrun].
  set (param' := <["nbPoints" := _]> param) in *.
  assert (Hcfg' : lqt_config param' T nv nvp nd dt)
    by (by apply lqt_config_insert_nbPoints).
  destruct (get_matrices _ _) as [[[[[[vp muQ'] Q] R] idx] tl]|]; [|done].
  cbn [mbind result_bind] in Hrun.
  destruct (define_control_primitive _) as [[PSI phi]|]; [|done].
  cbn [mbind result_bind] in Hrun.
  destruct (set_dynamical_system_Ok Fth param' T nv nvp nd dt Hcfg')
    as (A & B & HA & HB & HAs & HBs & HS).
  rewrite HS in Hrun. cbn [mbind result_bind] in Hrun.
  destruct (get_u_x _ _ _ _ _ _ _ _) as [[u x]|] eqn:Hux; [|done].
  cbn [mbind result_bind mret result_ret] in Hrun. injection Hrun as <- <- <- <-.
  pose proof Hcfg as (_ & _ & _ & _ & _ & HT & Hnv & _).
  unfold get_u_x in Hux. rewrite (get_int_nb_var _ _ _ _ _ _ Hcfg') in Hux.
  cbn [mbind result_bind] in Hux.
  destruct (decide _) as [_|_]; [|done]. cbn [mbind result_bind] in Hux.
  destruct (linalg_inv _) as [N|]; [|done]. cbn [mbind result_bind] in Hux.
  set (w := matvec PSI _) in Hux.
  destruct (reshape_rowsZ (Z.of_nat nv) _) as [xs|] eqn:Hxs; [|done].
  cbn [mbind result_bind] in Hux.
  destruct (get_int param' "nbVarPos") as [k|]; [|done].
  cbn [mbind result_bind] in Hux.
  destruct (reshape_rowsZ k w) as [us|]; [|done].
  cbn [mbind result_bind mret result_ret] in Hux. injection Hux as <- <-.
  unfold reshape_rowsZ in Hxs. destruct (Z.ltb_spec (Z.of_nat nv) 0); [lia|].
  rewrite Nat2Z.id in Hxs.
  destruct T as [|T']; [lia|].
  cbn [seq fmap list_fmap concat] in Hxs.
  rewrite !matvec_app in Hxs.
  rewrite vadd_app in Hxs.
  2:{ rewrite !length_matvec. rewrite (proj1 (state_block_shape A nv HAs Hnv 0)).
      unfold Su_block, zeros_mat. by rewrite length_replicate. }
  rewrite (xs_0 Fth A B nv nvp (S T') x0 w Hx0) in Hxs.
  apply reshape_rows_first in Hxs; [|lia|rewrite length_app; lia].
  by rewrite take_app_length' in Hxs.
Qed.

End EffectsMore.

(** ** lqt_cp.py: the basis matrix of [define_control_primitive] *)

Section BasisMore.

Context {F : Type} `{!Scalar F, !Primitive (F:=F)}.
Hypothesis Fth : field_theory F0 F1 Fadd Fmul Fsub Fopp Fdiv Finv (@eq F).
Add Field Ffield_bm : Fth.

Abbreviation vector := (list F).
Abbreviation matrix := (list (list F)).
Abbreviation config := (gmap string (value (F:=F))).

Lemma define_control_primitive_inv (param : config) PSI phi :
  define_control_primitive param = Ok (PSI, phi) →
  ∃ n, get_int param "nbVarPos" ≫= as_dim = Ok n ∧ PSI = kron phi (eye n).
Proof.
  unfold define_control_primitive.
  destruct (get param "basisName") as [name|]; [|done]. cbn [mbind result_bind].
  destruct (match name with VStr s => _ | _ => _ end) as [build|]; [|done].
  cbn [mbind result_bind].
  destruct (get_int param "nbData") as [nbData|]; [|done]. cbn [mbind result_bind].
  destruct (get_int param "nbFct") as [nbFct|]; [|done]. cbn [mbind result_bind].
  destruct (build _ _) as [phi'|]; [|done]. cbn [mbind result_bind].
  destruct (get_int param "nbVarPos" ≫= as_dim) as [n|]; [|done].
  cbn [mbind result_bind mret result_ret]. intros [= <- <-]. by exists n.
Qed.

Lemma dot_bind_concat n (arow e : vector) (W : matrix) :
  length e = n → Forall (λ w, length w = n) W →
  dot (arow ≫= (λ a, vscale a e)) (concat W) = dot arow (matvec W e).
Proof.
  intros He HW. revert arow. induction HW as [|w W Hw HW IH]; intros arow.
  - unfold matvec. cbn [concat fmap list_fmap]. by rewrite !dot_nil_r.
  - destruct arow as [|a arow]; [by rewrite !dot_nil_l|].
    change ((a :: arow) ≫= (λ a0, vscale a0 e))
      with (vscale a e ++ (arow ≫= (λ a0, vscale a0 e))).
    cbn [concat]. rewrite (dot_app Fth) by (rewrite length_vscale; lia).
    rewrite matvec_cons, dot_cons, IH, (dot_vscale_l Fth), (dot_comm Fth e w). done.
Qed.

(** [kron(phi, identity(n))] applied to the stacked rows of a weight matrix
    [W] is the stack of the rows of [phi @ W]. *)
Lemma matvec_kron_eye n (phi W : matrix) :
  Forall (λ w, length w = n) W →
  matvec (kron phi (eye n)) (concat W)
  = concat ((λ arow, foldr vadd (zeros n) (zip_with vscale arow W)) <$> phi).
Proof.
  intros HW. induction phi as [|arow phi IH]; [done|].
  rewrite kron_cons, matvec_app, IH. cbn [fmap list_fmap concat]. f_equal.
  set (comb := foldr vadd (zeros n) (zip_with vscale arow W)).
  assert (Hlc : length comb = n) by (by apply length_vecmat_aux).
  rewrite <- (matvec_eye Fth comb), Hlc.
  unfold matvec. rewrite <- list_fmap_compose.
  apply Forall_fmap_ext. eapply Forall_impl; [apply (eye_rows n)|].
  intros e He. simpl in *.
  rewrite (dot_bind_concat n) by done.
  rewrite <- (dot_vecmat_aux Fth n) by done. apply (dot_comm Fth).
Qed.

(** X16. The controls spanned by the basis: with the weights of the [c] basis
    functions as the rows of [W], [PSI] maps the stacked weights to the
    stacked controls [phi @ W], so that the control at timestep [t] is
    [Σ_k phi[t][k]·W[k]]. *)
Theorem define_control_primitive_superposition (param : config) (r c n : nat)
    (PSI phi W : matrix) :
  define_control_primitive param = Ok (PSI, phi) →
  param !! "nbVarPos" = Some (VInt (Z.of_nat n)) →
  has_shape r c phi → has_shape c n W → 1 ≤ c →
  has_shape (r * n) (c * n) PSI
  ∧ matvec PSI (concat W) = concat (matmul phi W).
Proof.
  intros Hd Hn Hphi HW Hc.
  apply define_control_primitive_inv in Hd as (n' & Hn' & ->).
  unfold get_int, get in Hn'. rewrite Hn in Hn'. cbn [mbind result_bind] in Hn'.
  rewrite as_dim_of_nat in Hn'. injection Hn' as <-.
  split; [apply kron_shape; [done|apply eye_shape]|].
  rewrite (matvec_kron_eye n) by apply HW.
  unfold matmul, vecmat. by rewrite (has_shape_ncols c n) by (done || lia).
Qed.

End BasisMore.

(** ** tpgmm.py: the pipelines [uni] and [bi] *)

Section PipelineMore.

Context {F : Type} `{!Scalar F, !LinalgInv F, !ScalarFun F}.
Context `{!Pbdlib (F:=F), !PbdlibLearner (F:=F)}.

Abbreviation vector := (list F).
Abbreviation matrix := (list (list F)).

(** X17. [bi] is [uni] on the left and on the right demonstrations: it returns
    the pair of what the two calls return, and it returns only if both
    do. *)
Theorem bi_two_uni (demos_left_x demos_right_x : list (list vector))
    (show_demo_idx : Z) gen_l gen_r :
  bi demos_left_x demos_right_x show_demo_idx = Ok (gen_l, gen_r)
  ↔ uni demos_left_x show_demo_idx = Ok gen_l
    ∧ uni demos_right_x show_demo_idx = Ok gen_r.
Proof.
  unfold bi, uni.
  destruct (get_related_matrix demos_left_x) as [[[[[xl Al] bl] fl] al]|];
    [|split; [done|by intros [? ?]]].
  destruct (get_related_matrix demos_right_x) as [[[[[xr Ar] br] fr] ar]|];
    cbn [mbind result_bind];
    [|split; [done|by intros [? ?]]].
  destruct (HMM_learning fl al) as [ml|]; cbn [mbind result_bind];
    [|split; [done|by intros [? ?]]].
  destruct (HMM_learning fr ar) as [mr|]; cbn [mbind result_bind];
    [|split; [done|by intros [? ?]]].
  destruct (poe ml Al bl demos_left_x show_demo_idx) as [pl|];
    cbn [mbind result_bind]; [|split; [done|by intros [? ?]]].
  destruct (poe mr Ar br demos_right_x show_demo_idx) as [pr|];
    cbn [mbind result_bind]; [|split; [done|by intros [? ?]]].
  destruct (generate ml pl demos_left_x xl al show_demo_idx) as [gl|];
    cbn [mbind result_bind]; [|split; [done|by intros [? ?]]].
  destruct (generate mr pr demos_right_x xr ar show_demo_idx) as [gr|];
    cbn [mbind result_bind mret result_ret]; [|split; [done|by intros [? ?]]].
  split; [by intros [= <- <-]|by intros [[= <-] [= <-]]].
Qed.

Lemma py_index_wrap {X} (l : list X) (i : Z) :
  (0 ≤ i < Z.of_nat (length l))%Z →
  py_index l (i - Z.of_nat (length l)) = py_index l i.
Proof.
  intros Hi. unfold py_index.
  destruct (Z.ltb_spec (i - Z.of_nat (length l)) 0); [|lia].
  destruct (Z.ltb_spec i 0); [lia|].
  replace (Z.of_nat (length l) + (i - Z.of_nat (length l)))%Z with i by lia.
  by destruct (Z.ltb_spec i 0); [lia|].
Qed.

Lemma py_index_out_of_range {X} (l : list X) (i : Z) :
  (i < - Z.of_nat (length l) ∨ Z.of_nat (length l) ≤ i)%Z →
  py_index l i = Err IndexError.
Proof.
  intros Hi. unfold py_index.
  destruct (Z.ltb_spec i 0).
  - destruct (Z.ltb_spec (Z.of_nat (length l) + i) 0); [done|].
    destruct Hi; [lia|lia].
  - destruct (Z.ltb_spec i 0); [lia|].
    rewrite (proj2 (lookup_ge_None _ _)); [done|lia].
Qed.

(** X18. [show_demo_idx] is a Python index into the demonstrations: a negative
    index counts from the end, so [i - n] and [i] show the same
    demonstration, and an index outside [-n, n) makes [uni] raise
    [IndexError] once the model is learned. *)
Theorem uni_show_demo_idx D (demos_x : list (list vector)) :
  1 ≤ D →
  Forall (λ x, x ≠ [] ∧ Forall (λ p : vector, length p = D) x) demos_x →
  let n := Z.of_nat (length demos_x) in
  (∀ i, (0 ≤ i < n)%Z → uni demos_x (i - n) = uni demos_x i)
  ∧ (∀ i demos_xdx dAx dbx demos_xdx_f demos_xdx_augm,
       (i < - n ∨ n ≤ i)%Z →
       get_related_matrix demos_x
       = Ok (demos_xdx, dAx, dbx, demos_xdx_f, demos_xdx_augm) →
       is_Ok (HMM_learning demos_xdx_f demos_xdx_augm) →
       uni demos_x i = Err IndexError).
Proof.
  intros HD Hwf n.
  destruct (get_related_matrix_Ok D _ HD Hwf)
    as (xdx & dA & db & dAx & dbx & f & augm & Hg & _ & _).
  destruct (get_related_matrix_inv D _ _ _ _ _ _ HD Hwf Hg)
    as (_ & _ & Hl1 & Hl2 & Hl3 & Hl4 & Hl5 & _).
  split.
  - intros i Hi.
    assert (Hwrap : ∀ {X} (l : list X), length l = length demos_x →
                      py_index l (i - n) = py_index l i).
    { intros X l Hl. unfold n. rewrite <- Hl. apply py_index_wrap. lia. }
    unfold uni. rewrite Hg. cbn [mbind result_bind].
    destruct (HMM_learning f augm) as [model|]; [|done]. cbn [mbind result_bind].
    unfold poe, first_timestep, generate.
    by rewrite !Hwrap by done.
  - intros i xdx' dAx' dbx' f' augm' Hi Hg' [model Hm].
    rewrite Hg in Hg'. injection Hg' as <- <- <- <- <-.
    unfold uni. rewrite Hg. cbn [mbind result_bind]. rewrite Hm.
    cbn [mbind result_bind]. unfold poe, first_timestep.
    by rewrite (py_index_out_of_range dAx i) by (rewrite Hl2; exact Hi).
Qed.

End PipelineMore.

(** ** lqt_cp.py: the via points chosen by the script *)

Section ScriptMore.

Context {F : Type} `{!Scalar F}.

Abbreviation vector := (list F).
Abbreviation matrix := (list (list F)).

Lemma filter_indices_lookup (n : Z) k i :
  filter_indices n !! k = Some i →
  (Z.of_nat k < (n - 6) / 5 ∧ i = 5 * Z.of_nat k)%Z
  ∨ (Z.of_nat k = Z.max 0 ((n - 6) / 5) ∧ i = n - 1)%Z.
Proof.
  unfold filter_indices, py_range.
  replace (n - 10 - 0 + 5 - 1)%Z with (n - 6)%Z by lia.
  intros Hk. apply lookup_app_Some in Hk as [Hk|[Hl Hk]].
  - left. rewrite list_lookup_fmap in Hk.
    destruct (seqZ 0 _ !! k) as [j|] eqn:Hj; [|done].
    apply lookup_seqZ in Hj as [-> Hj]. injection Hk as <-. lia.
  - right. rewrite length_fmap, length_seqZ in Hl, Hk.
    apply list_lookup_singleton_Some in Hk as [Hk <-]. lia.
Qed.

Lemma length_filter_indices (n : Z) :
  length (filter_indices n) = S (Z.to_nat ((n - 6) / 5)).
Proof.
  unfold filter_indices, py_range.
  replace (n - 10 - 0 + 5 - 1)%Z with (n - 6)%Z by lia.
  rewrite length_app, length_fmap, length_seqZ. simpl. lia.
Qed.

(** X19. The script keeps every fifth sample up to ten samples before the end
    and the last sample: the indices are in range and strictly increasing,
    so no sample is kept twice, the last via point is the last sample, and
    every via point is its sample followed by seven zeros.  Without any
    sample the selection raises [IndexError]. *)
Theorem main_via_points_spec (data_raw : matrix) :
  main_via_points ([] : matrix) = Err IndexError
  ∧ (data_raw ≠ [] → Forall (λ r : vector, length r = 7) data_raw →
     let n := Z.of_nat (length data_raw) in
     ∃ via,
       main_via_points data_raw = Ok via
       ∧ length via = length (filter_indices n)
       ∧ (∀ k i, filter_indices n !! k = Some i →
            (0 ≤ i < n)%Z
            ∧ via !! k = (λ r : vector, r ++ zeros 7) <$> data_raw !! Z.to_nat i)
       ∧ (∀ j k a b, j < k → filter_indices n !! j = Some a →
            filter_indices n !! k = Some b → (a < b)%Z)
       ∧ last (filter_indices n) = Some (n - 1)%Z
       ∧ ((10 < n)%Z → head (filter_indices n) = Some 0%Z)).
Proof.
  split; [done|]. intros Hne H7 n.
  assert (Hn : (1 ≤ n)%Z) by (unfold n; destruct data_raw; [done|simpl; lia]).
  assert (Hdiv : (5 * ((n - 6) / 5) ≤ n - 6 < 5 * ((n - 6) / 5) + 5)%Z).
  { pose proof (Z.div_mod (n - 6) 5 ltac:(lia)).
    pose proof (Z.mod_pos_bound (n - 6) 5 ltac:(lia)). lia. }
  assert (Hrange : ∀ k i, filter_indices n !! k = Some i → (0 ≤ i < n)%Z).
  { intros k i Hk. apply filter_indices_lookup in Hk as [[Hk ->]|[Hk ->]]; lia. }
  set (data := (λ r : vector, r ++ zeros 7) <$> data_raw).
  assert (Hdata : mapM (λ row : vector, r ← broadcast_to 7 row; mret (r ++ zeros 7))
                    data_raw = Ok data).
  { apply mapM_Ok_fmap. intros r Hr. rewrite Forall_forall in H7.
    by rewrite broadcast_to_id by (by apply H7). }
  set (g := λ i : Z, default [] (data !! Z.to_nat i)).
  assert (Hvia : mapM (py_index data) (filter_indices n) = Ok (g <$> filter_indices n)).
  { apply mapM_Ok_fmap. intros i Hi. apply list_elem_of_lookup in Hi as [k Hk].
    apply Hrange in Hk.
    destruct (lookup_lt_is_Some_2 data (Z.to_nat i)) as [r Hr].
    { unfold data. rewrite length_fmap. lia. }
    unfold g. rewrite Hr. simpl. apply py_index_nonneg; [lia|done]. }
  exists (g <$> filter_indices n).
  split; [unfold main_via_points; by rewrite Hdata|].
  split; [by rewrite length_fmap|].
  split.
  { intros k i Hk. split; [by apply (Hrange k)|].
    rewrite list_lookup_fmap, Hk. simpl. unfold g.
    destruct (lookup_lt_is_Some_2 data (Z.to_nat i)) as [r Hr].
    { unfold data. rewrite length_fmap. apply Hrange in Hk. lia. }
    rewrite Hr. simpl. unfold data in Hr. by rewrite <- Hr, list_lookup_fmap. }
  split.
  { intros j k a b Hjk Ha Hb.
    apply filter_indices_lookup in Ha as [[Ha ->]|[Ha ->]];
      apply filter_indices_lookup in Hb as [[Hb ->]|[Hb ->]]; lia. }
  split.
  { unfold filter_indices. by rewrite last_snoc. }
  intros H10. unfold filter_indices, py_range.
  replace (n - 10 - 0 + 5 - 1)%Z with (n - 6)%Z by lia.
  rewrite seqZ_cons by lia. done.
Qed.

End ScriptMore.

Lemma get_dx_ragged_witness :
  get_dx [[[q 1 1; q 2 1]; [q 1 1; q 2 1; q 3 1]]] = Err ValueError.
Proof.
  apply (@get_dx_ragged Qc Qc_scalar [] [] [q 1 1; q 2 1] [q 1 1; q 2 1; q 3 1] []).
  - constructor.
  - simpl. lia.
  - simpl. lia.
  - simpl. lia.
Defined.

Lemma related_ex_eq :
  get_related_matrix demos_ex
  = Ok (demos_xdx_ex, dAx_ex, dbx_ex, demos_xdx_f_ex, demos_xdx_augm_ex).
Proof. run. Qed.

Lemma frame_observation_origin_witness :
  ∃ augm first_row last_row,
    demos_xdx_augm_ex !! 1 = Some augm ∧ length augm = 3
    ∧ augm !! 0 = Some first_row ∧ last augm = Some last_row
    ∧ take 2 first_row = zeros 2
    ∧ take 2 (drop (2 * 2) last_row) = zeros 2.
Proof.
  apply (@frame_observation_origin Qc Qc_scalar Qcft 2 demos_ex
           demos_xdx_ex dAx_ex dbx_ex demos_xdx_f_ex demos_xdx_augm_ex 1
           [[q 1 1; q 1 1]; [q 2 1; q 0 1]; [q 2 1; q 3 1]]).
  - lia.
  - exact demos_ex_well_formed.
  - exact related_ex_eq.
  - reflexivity.
Defined.

Lemma get_A_b_empty_demonstration_witness :
  get_A_b [[[q 0 1; q 0 1]]; []] = Err IndexError.
Proof.
  apply (@get_A_b_empty_demonstration Qc Qc_scalar [[[q 0 1; q 0 1]]; []]).
  - repeat constructor; [exists 2|exists 0]; repeat constructor.
  - apply elem_of_cons. right. apply elem_of_cons. by left.
Defined.

(** *** The integrators *)

Lemma set_dynamical_system_double_integrator_witness :
  ∃ A B,
    dynamics_A param_ex = Ok A ∧ dynamics_B param_ex = Ok B
    ∧ ∀ p v u : list Qc, length p = 2 → length v = 2 → length u = 2 →
        vadd (matvec A (p ++ v)) (matvec B u)
        = vadd (vadd p (vscale (q 1 100) v))
               (vscale (Fdiv (Fmul (q 1 100) (q 1 100)) two) u)
          ++ vadd v (vscale (q 1 100) u).
Proof.
  apply (@set_dynamical_system_double_integrator Qc Qc_scalar Qcft param_ex 3 2
           (q 1 100)).
  exact lqt_config_ex.
Defined.

Lemma lqt_config_single : lqt_config param_single 3 2 2 1 (q 1 100).
Proof. repeat split; try run; lia. Qed.

Lemma set_dynamical_system_single_integrator_witness :
  ∃ A B,
    dynamics_A param_single = Ok A ∧ dynamics_B param_single = Ok B
    ∧ ∀ x u : list Qc, length x = 2 → length u = 2 →
        vadd (matvec A x) (matvec B u) = vadd x (vscale (q 1 100) u).
Proof.
  apply (@set_dynamical_system_single_integrator Qc Qc_scalar Qcft param_single 3 2
           (q 1 100)).
  exact lqt_config_single.
Defined.

Lemma set_dynamical_system_third_derivative_witness :
  dynamics_B param_third = Err IndexError
  ∧ set_dynamical_system param_third = Err IndexError.
Proof.
  apply (@set_dynamical_system_third_derivative Qc Qc_scalar param_third 2 2 3
           (q 1 100)); try run; lia.
Defined.

Lemma set_dynamical_system_rollout_witness :
  has_shape (3 * 4) (2 * (3 - 1)) Su_ex
  ∧ has_shape (3 * 4) 4 Sx_ex
  ∧ reshape_rows 4 (vadd (matvec Sx_ex start_pose_ex) (matvec Su_ex (concat us_ex)))
    = Ok (rollout A_ex B_ex start_pose_ex us_ex).
Proof.
  apply (@set_dynamical_system_rollout Qc Qc_scalar Qcft param_ex 3 4 2 2 (q 1 100)
           A_ex B_ex Su_ex Sx_ex start_pose_ex us_ex).
  - exact lqt_config_ex.
  - run.
  - run.
  - run.
  - reflexivity.
  - reflexivity.
  - repeat constructor.
Defined.

(** *** [uni_cp] *)

Lemma uni_cp_empty_data_witness : uni_cp [] param_ex = (param_ex, Err IndexError).
Proof.
  apply (@uni_cp_empty_data Qc Qc_scalar Qc_linalg_inv Qc_primitive Qc_lqt_lib
           Qc_float32 param_ex 2 4); run.
Defined.

Lemma uni_cp_write_survives_failure_witness :
  let param' := <["nbPoints" := VInt (Z.of_nat 2)]> param_ex in
  (uni_cp data_ex param_ex).1 = param'
  ∧ ∀ e, get_matrices param'
           (py_take (Z.of_nat 2)
              <$> [[q 1 1; q 1 1; q 0 1; q 0 1]; [q 2 1; q 0 1; q 0 1; q 0 1]])
         = Err e →
         (uni_cp data_ex param_ex).2 = Err e.
Proof.
  apply (@uni_cp_write_survives_failure Qc Qc_scalar Qc_linalg_inv Qc_primitive
           Qc_lqt_lib Qc_float32 param_ex 2 4 [q 0 1; q 0 1; q 0 1; q 0 1]
           [[q 1 1; q 1 1; q 0 1; q 0 1]; [q 2 1; q 0 1; q 0 1; q 0 1]]).
  - run.
  - run.
  - lia.
  - simpl. lia.
Defined.

(** The first state holds [0.1] and [1/3] as single precision has them,
    [13421773 / 2^27] and [11184811 / 2^25]. *)
Lemma uni_cp_start_state_witness :
  ∃ param' u_hat x_hat muQ idx_slices,
    uni_cp data_tenth param_ex = (param', Ok (u_hat, x_hat, muQ, idx_slices))
    ∧ x_hat !! 0
      = Some ((to_float32 <$> take 2 [q 1 10; q 1 3; q 7 1; q 7 1]) ++ zeros (4 - 2))
    ∧ Qc_mat_eqb (option_list (x_hat !! 0))
        [[q 13421773 134217728; q 11184811 33554432; q 0 1; q 0 1]] = true.
Proof.
  destruct (uni_cp data_tenth param_ex)
    as [param' [[[[u_hat x_hat] muQ] idx]|e]] eqn:E.
  - exists param', u_hat, x_hat, muQ, idx. split; [done|].
    assert (H0 : x_hat !! 0
                 = Some ((to_float32 <$> take 2 [q 1 10; q 1 3; q 7 1; q 7 1])
                         ++ zeros (4 - 2))).
    { apply (@uni_cp_start_state Qc Qc_scalar Qc_linalg_inv Qc_primitive Qc_lqt_lib
               Qc_float32 Qcft param_ex param' 3 4 2 2 (q 1 100)
               [q 1 10; q 1 3; q 7 1; q 7 1]
               [[q 1 1; q 1 1; q 0 1; q 0 1]; [q 2 1; q 0 1; q 0 1; q 0 1]]
               u_hat x_hat muQ idx).
      - exact lqt_config_ex.
      - lia.
      - lia.
      - simpl. lia.
      - exact E. }
    split; [exact H0|]. rewrite H0. run.
  - apply (f_equal snd) in E. vm_compute in E. discriminate E.
Defined.

(** *** The basis *)

Lemma define_control_primitive_superposition_witness :
  has_shape (2 * 2) (2 * 2) PSI_ex
  ∧ matvec PSI_ex (concat W_ex) = concat (matmul phi_ex W_ex).
Proof.
  apply (@define_control_primitive_superposition Qc Qc_scalar Qc_primitive Qcft
           param_ex 2 2 2 PSI_ex phi_ex W_ex).
  - run.
  - run.
  - vm_compute. split; [reflexivity|repeat constructor].
  - vm_compute. split; [reflexivity|repeat constructor].
  - lia.
Defined.

(** *** The pipelines *)

Lemma uni_show_demo_idx_witness :
  let n := Z.of_nat (length demos_ex) in
  (∀ i, (0 ≤ i < n)%Z → uni demos_ex (i - n) = uni demos_ex i)
  ∧ (∀ i demos_xdx dAx dbx demos_xdx_f demos_xdx_augm,
       (i < - n ∨ n ≤ i)%Z →
       get_related_matrix demos_ex
       = Ok (demos_xdx, dAx, dbx, demos_xdx_f, demos_xdx_augm) →
       is_Ok (HMM_learning demos_xdx_f demos_xdx_augm) →
       uni demos_ex i = Err IndexError).
Proof.
  apply (@uni_show_demo_idx Qc Qc_scalar Qc_linalg_inv Qc_scalar_fun Qc_pbdlib
           Qc_pbdlib_learner 2 demos_ex).
  - lia.
  - exact demos_ex_well_formed.
Defined.

(** Both pipelines return on the concrete demonstrations. *)
Example bi_ex : is_Ok (bi demos_ex demos_ex 1).
Proof.
  destruct (bi demos_ex demos_ex 1) as [r|] eqn:E; [by exists r|].
  vm_compute in E. discriminate E.
Qed.

(** *** The script *)

Lemma main_via_points_spec_witness :
  ∃ via,
    main_via_points data_raw_ex = Ok via
    ∧ length via = length (filter_indices 12)
    ∧ (∀ k i, filter_indices 12 !! k = Some i →
         (0 ≤ i < 12)%Z
         ∧ via !! k = (λ r : list Qc, r ++ zeros 7) <$> data_raw_ex !! Z.to_nat i)
    ∧ (∀ j k a b, j < k → filter_indices 12 !! j = Some a →
         filter_indices 12 !! k = Some b → (a < b)%Z)
    ∧ last (filter_indices 12) = Some (12 - 1)%Z
    ∧ ((10 < 12)%Z → head (filter_indices 12) = Some 0%Z).
Proof.
  apply (proj2 (@main_via_points_spec Qc Qc_scalar data_raw_ex)).
  - done.
  - repeat constructor.
Defined.

Example filter_indices_ex : filter_indices 23 = [0; 5; 10; 22]%Z.
Proof. reflexivity. Qed.
